(** * Twitch drops farmer: a shallow embedding of [core.py]

    The development follows the layout of [core.py]:
    - [Backoff]:    the [ExponentialBackoff] delay iterator;
    - [Request]:    the retry loop of [AccountWorker.request];
    - [Text], [Regex], [Json]: the text, pattern and dict operations of
      Python that the code uses;
    - [GqlRequest]: [AccountWorker.gql_request];
    - [Spade]:      the strategies of [Channel.get_spade_url];
    - [Registry]:   [GQLOperation.with_variables] over a store of objects;
    - [Drops]:      [TimedDrop] and [DropsCampaign];
    - [Watch]:      [Channel] and [AccountWorker._watch_loop].

    Python exceptions are values of [pyexn]; a computation that may raise
    returns a sum.  Code that waits on the network takes the answers of the
    network as an argument, and loops that the source leaves unbounded take
    a [fuel] argument that bounds how many iterations are unrolled.  Log and
    exception messages, Russian in the source, are rendered in English. *)

From Stdlib Require Import ZArith Lia List Bool Ascii.
From stdpp Require Import gmap strings list fin_maps.
Import ListNotations.

(** ** Exceptions *)

(** The exception classes of [core.py] ([MinerException] and its two
  subclasses) and the built-in ones its code can raise. *)
Inductive pyexn : Type :=
| MinerException (msg : string)
| GQLException (msg : string)
| RequestException (msg : string)
| OverflowError
| AttributeError
| KeyError (key : string)
| TypeError
| IndexError
| CancelledError
| OtherError.

(** [except GQLException] *)
Definition is_GQLException (e : pyexn) : bool :=
match e with GQLException _ => true | _ => false end.

(** [except Exception]: [asyncio.CancelledError] derives from
    [BaseException] and is not caught. *)
Definition is_Exception (e : pyexn) : bool :=
  match e with CancelledError => false | _ => true end.

(** ** ExponentialBackoff *)

Module Backoff.
Local Open Scope Z_scope.

(** The fields of the iterator.  [_base] and [_max] are Python floats; the
    model keeps the integer they denote ([1.0] and [60.0] by default), which
    is exact for [0 <= _base < 2^53].  [_exp] is a Python int. *)
Record ExponentialBackoff : Type := mkBackoff {
  _base : Z;
  _exp : Z;
  _max : Z
}.

(** [ExponentialBackoff()] *)
Definition new : ExponentialBackoff :=
  {| _base := 1; _exp := 0; _max := 60 |}.

(** What a call of [__next__] can do. *)
Inductive next_result : Type :=
| Next (delay : Z)
| StopIteration
| NextRaises (e : pyexn).

(** [float * int] converts the int to a double first; an int of 2^1024 or
    more does not fit and the conversion raises [OverflowError]. *)
Definition float_of_int (n : Z) : pyexn + Z :=
  if 2 ^ 1024 <=? Z.abs n then inl OverflowError else inr n.

(** [__next__]: [self._exp += 1; return min(self._base * 2 ** self._exp,
    self._max)]. *)
Definition next (b : ExponentialBackoff) : ExponentialBackoff * next_result :=
  let b' := {| _base := _base b; _exp := _exp b + 1; _max := _max b |} in
  match float_of_int (2 ^ _exp b') with
  | inl e => (b', NextRaises e)
  | inr p => (b', Next (Z.min (_base b' * p) (_max b')))
  end.

(** The iterator after [k] calls of [__next__]. *)
Fixpoint advance (k : nat) (b : ExponentialBackoff) : ExponentialBackoff :=
  match k with
  | O => b
  | S k' => advance k' (fst (next b))
  end.

(** The result of call number [k] (counted from 1) on a fresh iterator. *)
Definition delay_of_attempt (k : nat) : next_result :=
  match k with
  | O => StopIteration
  | S k' => snd (next (advance k' new))
  end.

(** The first [n] delays, as [itertools.islice(ExponentialBackoff(), n)]
    would list them; a call that raises ends the list. *)
Fixpoint take_delays (n : nat) (b : ExponentialBackoff) : list Z :=
  match n with
  | O => []
  | S n' =>
      match next b with
      | (b', Next d) => d :: take_delays n' b'
      | _ => []
      end
  end.
End Backoff.

(** ** The retry loop of AccountWorker.request *)

Module Request.
Import Backoff.
Local Open Scope Z_scope.

(** What one [session.request(...)] does: it answers with a status, or
    raises [aiohttp.ClientError] or [asyncio.TimeoutError]. *)
Inductive attempt_outcome : Type :=
| Response (status : Z)
| ClientError
| TimeoutError.

(** The conditions the loop answers with sleep-and-retry. *)
Definition transient (o : attempt_outcome) : bool :=
  match o with
  | Response status => 500 <=? status
  | ClientError | TimeoutError => true
  end.

(** What the loop does that the outside can see. *)
Inductive event : Type :=
| Issue (attempt : nat)          (* session.request(...), attempts from 0 *)
| Sleep (delay : Z).             (* asyncio.sleep(delay) *)

(** How entering the context manager ends. *)
Inductive enter_result : Type :=
| Yielded (attempt : nat) (status : Z)   (* [yield response] *)
| Raised (e : pyexn)
| Retrying.                              (* the loop is still running *)

Definition exhausted_msg : string := "request failed after several attempts".

(** The loop [for delay in backoff: ...] followed by
    [raise RequestException(...)], over any iterator [nxt] with state [St].
    [net n] is the outcome of attempt [n]. *)
Section Loop.
Context {St : Type} (nxt : St -> St * next_result).
Variable net : nat -> attempt_outcome.

Fixpoint retry_loop (fuel : nat) (n : nat) (b : St) : list event * enter_result :=
  match fuel with
  | O => ([], Retrying)
  | S fuel' =>
      match nxt b with
      | (_, NextRaises e) => ([], Raised e)
      | (_, StopIteration) => ([], Raised (RequestException exhausted_msg))
      | (b', Next delay) =>
          match net n with
          | Response status =>
              if 500 <=? status then
                let (tr, r) := retry_loop fuel' (S n) b' in
                (Issue n :: Sleep delay :: tr, r)
              else ([Issue n], Yielded n status)
          | ClientError | TimeoutError =>
              let (tr, r) := retry_loop fuel' (S n) b' in
              (Issue n :: Sleep delay :: tr, r)
          end
      end
  end.
End Loop.

(** [backoff = ExponentialBackoff()] and the loop over it. *)
Definition request (fuel : nat) (net : nat -> attempt_outcome) : list event * enter_result :=
  retry_loop Backoff.next net fuel 0%nat Backoff.new.

Definition issues (tr : list event) : nat :=
  List.length (List.filter (fun ev => match ev with Issue _ => true | _ => false end) tr).

(** Two networks used as examples. *)
Definition always_503 : nat -> attempt_outcome :=
  fun _ => Response 503.

Definition once_502_then_404 : nat -> attempt_outcome :=
  fun n => match n with O => Response 502 | _ => Response 404 end.
End Request.

(** ** Python text operations

    Text is a [string]: one character per code point, for text whose code
    points are below 256. *)

Module Text.
Local Open Scope string_scope.

Definition code (c : ascii) : N := Ascii.N_of_ascii c.

(** [str.isspace] on one character: U+0009..U+000D, U+001C..U+0020, U+0085
    and U+00A0; the same set is what [\s] matches in a [str] pattern. *)
Definition is_space (c : ascii) : bool :=
  let n := code c in
  ((9 <=? n) && (n <=? 13) || (28 <=? n) && (n <=? 32) || (n =? 133) || (n =? 160))%N.

(** [s.startswith(p)] *)
Definition startswith (p s : string) : bool := String.prefix p s.

(** [s[n:]] *)
Fixpoint drop (n : nat) (s : string) : string :=
  match n, s with
  | O, _ => s
  | S n', String _ s' => drop n' s'
  | S _, EmptyString => EmptyString
  end.

(** [sub in s] *)
Fixpoint contains (sub s : string) : bool :=
  if startswith sub s then true
  else match s with
       | EmptyString => false
       | String _ s' => contains sub s'
       end.

(** [s.lstrip()] *)
Fixpoint lstrip (s : string) : string :=
  match s with
  | String c s' => if is_space c then lstrip s' else s
  | EmptyString => EmptyString
  end.

(** [s.rstrip()] *)
Fixpoint rstrip (s : string) : string :=
  match s with
  | EmptyString => EmptyString
  | String c s' =>
      match rstrip s' with
      | EmptyString => if is_space c then EmptyString else String c EmptyString
      | r => String c r
      end
  end.

(** [s.strip()] *)
Definition strip (s : string) : string := rstrip (lstrip s).

(** [s.split(sep)] for a non-empty [sep]: the text is cut at each
    occurrence of [sep], found from the left without overlap.  [skip] counts
    the characters of a found separator still to pass; [cur] is the piece
    being read. *)
Fixpoint split_go (sep : string) (skip : nat) (cur : string) (s : string) : list string :=
  match s with
  | EmptyString => [cur]
  | String c s' =>
      match skip with
      | S k => split_go sep k cur s'
      | O =>
          if startswith sep s
          then cur :: split_go sep (String.length sep - 1) EmptyString s'
          else split_go sep 0 (cur ++ String c EmptyString) s'
      end
  end.

Definition split (sep s : string) : list string := split_go sep 0 EmptyString s.

(** [l[0]] and [l[-1]] *)
Definition first_item (l : list string) : pyexn + string :=
  match l with
  | x :: _ => inr x
  | [] => inl IndexError
  end.

Definition last_item (l : list string) : pyexn + string :=
  match List.rev l with
  | x :: _ => inr x
  | [] => inl IndexError
  end.

(** [s.replace(old, new)] for a non-empty [old] *)
Definition replace (old new s : string) : string := String.concat new (split old s).

(** The text before the first occurrence of [sep], or all of [s] when
    there is none. *)
Fixpoint before_first (sep s : string) : string :=
  if startswith sep s then EmptyString
  else match s with
       | EmptyString => EmptyString
       | String c s' => String c (before_first sep s')
       end.

(** The text before the last occurrence of [sep], if there is one. *)
Fixpoint before_last_opt (sep s : string) : option string :=
  match s with
  | EmptyString => if startswith sep s then Some EmptyString else None
  | String c s' =>
      match before_last_opt sep s' with
      | Some p => Some (String c p)
      | None => if startswith sep s then Some EmptyString else None
      end
  end.

(** [s] truncated at the last occurrence of [sep]; all of [s] when there is
    none. *)
Definition before_last (sep s : string) : string :=
  match before_last_opt sep s with
  | Some p => p
  | None => s
  end.

Definition dquote : ascii := Ascii.ascii_of_nat 34.
Definition backslash : ascii := Ascii.ascii_of_nat 92.
Definition newline : string := String (Ascii.ascii_of_nat 10) EmptyString.
End Text.

(** ** Regular expressions, as far as the two patterns of the source need *)

Module Regex.
Import Text.
Local Open Scope string_scope.

Inductive regex : Type :=
| Class (p : ascii -> bool)      (* one character of a class *)
| Seq (r1 r2 : regex)
| Opt (r : regex)                (* r? *)
| Star (r : regex)               (* r*, greedy *)
| Group (r : regex).             (* ( r ), the group numbered 1 *)

(** [r+] *)
Definition Plus (r : regex) : regex := Seq r (Star r).

(** ASCII lower case, for [re.IGNORECASE]. *)
Definition lower (c : ascii) : ascii :=
  let n := code c in
  if ((65 <=? n) && (n <=? 90))%N then Ascii.ascii_of_N (n + 32) else c.

(** A literal character under [re.IGNORECASE]. *)
Definition Chr (c : ascii) : regex := Class (fun x => Ascii.eqb (lower x) (lower c)).

(** [[^...]]: none of the listed characters and, with [spaces], no
    whitespace. *)
Definition NoneOf (spaces : bool) (l : list ascii) : regex :=
  Class (fun x => negb (spaces && is_space x) && negb (existsb (Ascii.eqb x) l)).

(** A literal text under [re.IGNORECASE], followed by [r]. *)
Fixpoint Lit (s : string) (r : regex) : regex :=
  match s with
  | EmptyString => r
  | String c s' => Seq (Chr c) (Lit s' r)
  end.

(** Backtracking matcher: [rmatch r s g k] matches [r] at the start of [s],
    longest alternatives first, and hands the rest of the text and the
    group to [k]; [None] from [k] makes it try the next alternative. *)
Fixpoint rmatch {R : Type} (r : regex) (s : string) (g : option string)
    (k : string -> option string -> option R) : option R :=
  match r with
  | Class p =>
      match s with
      | String c s' => if p c then k s' g else None
      | EmptyString => None
      end
  | Seq r1 r2 => rmatch r1 s g (fun s' g' => rmatch r2 s' g' k)
  | Opt r1 =>
      match rmatch r1 s g k with
      | Some x => Some x
      | None => k s g
      end
  | Star r1 =>
      (fix star (n : nat) (s : string) (g : option string) : option R :=
         match n with
         | O => k s g
         | S n' =>
             match rmatch r1 s g
                     (fun s' g' =>
                        if Nat.ltb (String.length s') (String.length s)
                        then star n' s' g' else None) with
             | Some x => Some x
             | None => k s g
             end
         end) (String.length s) s g
  | Group r1 =>
      rmatch r1 s g
        (fun s' _ =>
           k s' (Some (String.substring 0 (String.length s - String.length s') s)))
  end.

(** [re.search(r, s)]: the leftmost match; the result is [match.group(1)]. *)
Fixpoint search (r : regex) (s : string) : option (option string) :=
  match rmatch r s None (fun _ g => Some g) with
  | Some g => Some g
  | None =>
      match s with
      | EmptyString => None
      | String _ s' => search r s'
      end
  end.
End Regex.

(** ** JSON values and the dict operations used on them *)

Module Json.
Local Open Scope string_scope.

#[local] Set Warnings "-register-all".

Inductive json : Type :=
| JNull
| JBool (b : bool)
| JNum (n : Z)
| JStr (s : string)
| JArr (items : list json)
| JObj (fields : list (string * json)).   (* the items of a dict, keys distinct *)

Fixpoint assoc (key : string) (fields : list (string * json)) : option json :=
  match fields with
  | [] => None
  | (k, v) :: rest => if String.eqb k key then Some v else assoc key rest
  end.

(** [j.get(key, default)]: only a dict has [get]. *)
Definition get (j : json) (key : string) (default : json) : pyexn + json :=
  match j with
  | JObj fields => inr (match assoc key fields with Some v => v | None => default end)
  | _ => inl AttributeError
  end.

(** [j[key]] with a string key. *)
Definition item (j : json) (key : string) : pyexn + json :=
  match j with
  | JObj fields =>
      match assoc key fields with
      | Some v => inr v
      | None => inl (KeyError key)
      end
  | _ => inl TypeError
  end.

(** [bool(j)] *)
Definition truthy (j : json) : bool :=
  match j with
  | JNull => false
  | JBool b => b
  | JNum n => negb (n =? 0)%Z
  | JStr s => negb (String.eqb s EmptyString)
  | JArr items => match items with [] => false | _ => true end
  | JObj fields => match fields with [] => false | _ => true end
  end.

(** [{}] *)
Definition empty_dict : json := JObj [].
End Json.

(** Sequencing of computations that may raise. *)
Definition bind_exn {A B : Type} (m : pyexn + A) (f : A -> pyexn + B) : pyexn + B :=
  match m with
  | inl e => inl e
  | inr a => f a
  end.

Notation "x <- m ;; k" := (bind_exn m (fun x => k))
  (at level 100, m at next level, right associativity).

(** ** AccountWorker.gql_request *)

Module GqlRequest.
Import Json.
Local Open Scope string_scope.

(** The body of a response: [response.json()] returns a value, or raises
    [ContentTypeError] and the text is read instead. *)
Inductive body : Type :=
| BodyJson (j : json)
| BodyText (text : string).

(** [errors[0]] *)
Definition first_of (errors : json) : pyexn + json :=
  match errors with
  | JArr (x :: _) => inr x
  | JArr [] => inl IndexError
  | JStr s => match s with
              | String c _ => inr (JStr (String c EmptyString))
              | EmptyString => inl IndexError
              end
  | JObj _ => inl (KeyError "0")
  | _ => inl TypeError
  end.

(** [gql_request]. [entered] is how [self.request("POST", ...)] ends: it
    raises, or it yields a response with the given body. *)
Definition gql_request (entered : pyexn + body) : pyexn + json :=
  match entered with
  | inl e => inl e
  | inr (BodyText text) => inl (GQLException ("bad answer format: " ++ text))
  | inr (BodyJson resp_json) =>
      errors <- match resp_json with
                | JObj _ => get resp_json "errors" JNull
                | _ => inr JNull
                end ;;
      if truthy errors then
        first <- first_of errors ;;
        error_msg <- get first "message" (JStr "unknown GQL error") ;;
        match error_msg with
        | JStr m => inl (GQLException m)
        | _ => inl AttributeError
        end
      else inr resp_json
  end.

(** An answer with an error list, and an answer for a channel that is not
    live. *)
Definition answer_with_error : json :=
  JObj [("errors", JArr [JObj [("message", JStr "service error")]])].

Definition answer_offline : json :=
  JObj [("data", JObj [("user", JObj [("id", JStr "42"); ("stream", JNull)])])].
End GqlRequest.

(** ** Endpoint discovery: Channel.get_spade_url *)

Module Spade.
Import Text Regex Json.
Local Open Scope string_scope.

(** The pattern [Qspade_?urlQ:\s*Q([^Q]+)Q], writing [Q] for the double
    quote. *)
Definition spade_pattern : regex :=
  Seq (Chr dquote)
    (Lit "spade"
       (Seq (Opt (Chr "_"))
          (Lit "url"
             (Seq (Chr dquote)
                (Seq (Chr ":")
                   (Seq (Star (Class is_space))
                      (Seq (Chr dquote)
                         (Seq (Group (Plus (NoneOf false [dquote])))
                            (Chr dquote))))))))).

(** The class [[^\sQ<>]]. *)
Definition url_char : regex := NoneOf true [dquote; "<"; ">"]%char.

(** The pattern [(https://video-edge-[^\sQ<>]+\.ts(?:\?[^\sQ<>Q]+)?)]. *)
Definition segment_pattern : regex :=
  Group
    (Lit "https://video-edge-"
       (Seq (Plus url_char)
          (Lit ".ts" (Opt (Seq (Chr "?") (Plus url_char)))))).

(** The six characters of the escape: a backslash, then [u0025]. *)
Definition escaped_percent : string := String backslash "u0025".

(** [match.group(1).replace('\\u0025', '%')] *)
Definition unescape (group1 : option string) : pyexn + string :=
  match group1 with
  | Some u => inr (replace escaped_percent "%" u)
  | None => inl AttributeError
  end.

(** The loop [for pattern in patterns] over the page text. *)
Fixpoint first_match (patterns : list regex) (text : string) : option (pyexn + string) :=
  match patterns with
  | [] => None
  | p :: rest =>
      match search p text with
      | Some g => Some (unescape g)
      | None => first_match rest text
      end
  end.

(** The third strategy: the last line of the playlist as a stream URL. *)
Definition derive_from_last_line (playlist_text : string) : pyexn + option string :=
  let lines := split newline (strip playlist_text) in
  match lines with
  | [] => inr None
  | _ =>
      stream_url <- last_item lines ;;
      if negb (startswith "#" stream_url) then
        if contains "video-edge-" stream_url then
          base_url <- first_item (split "/index" stream_url) ;;
          inr (Some (base_url ++ "/ping"))
        else inr None
      else inr None
  end.

(** What is done with the text of the playlist: the second strategy, then
    the third.  [inr None] is falling out of the block with no result. *)
Definition from_playlist (playlist_text : string) : pyexn + option string :=
  match search spade_pattern playlist_text with
  | Some g => u <- unescape g ;; inr (Some u)
  | None => derive_from_last_line playlist_text
  end.

(** The last line of the playlist that is not a comment, if any: the
    reading of the specification. *)
Definition last_non_comment_line (playlist_text : string) : option string :=
  match List.rev (List.filter (fun l => negb (startswith "#" l))
                    (split newline (strip playlist_text))) with
  | l :: _ => Some l
  | [] => None
  end.

(** The third strategy as the specification words it: the endpoint is the
    last non-comment line truncated at its last [/index], with [/ping]
    appended. *)
Definition derives_at_last_index : Prop :=
  forall playlist_text stream_url : string,
    search spade_pattern playlist_text = None ->
    last_non_comment_line playlist_text = Some stream_url ->
    contains "video-edge-" stream_url = true ->
    from_playlist playlist_text = inr (Some (before_last "/index" stream_url ++ "/ping")).

(** A playlist whose stream URL has [/index] twice. *)
Definition playlist_two_index : string :=
  "#EXTM3U" ++ newline ++
  "https://video-edge-a.example/index/chunked/index-dvr.m3u8" ++ newline.

(** A playlist as the service sends it. *)
Definition playlist_usual : string :=
  "#EXTM3U" ++ newline ++
  "#EXT-X-STREAM-INF:BANDWIDTH=6000000" ++ newline ++
  "https://video-edge-c2a.fra02.abs.hls.ttvnw.net/v1/playlist/chunked/index-dvr.m3u8"
  ++ newline.

(** A value that [URL.with_query] takes: a string or a number. *)
Definition query_value (j : json) : pyexn + json :=
  match j with
  | JStr _ | JNum _ => inr j
  | _ => inl TypeError
  end.

(** The answers of the network to one discovery: the text of the channel
    page, the answer to the [PlaybackAccessToken] operation, and the text of
    the playlist; [inl e] when the call raises [e]. *)
Record discovery_net : Type := {
  page : pyexn + string;
  token : pyexn + json;
  playlist : pyexn + string
}.

(** The body of the [try] block of [get_spade_url]. *)
Definition token_fallback (net : discovery_net) : pyexn + option string :=
  res <- token net ;;
  data <- get res "data" empty_dict ;;
  token_data <- get data "streamPlaybackAccessToken" empty_dict ;;
  if truthy token_data then
    signature <- get token_data "signature" (JStr EmptyString) ;;
    token_value <- get token_data "value" (JStr EmptyString) ;;
    if truthy signature && truthy token_value then
      _ <- query_value signature ;;
      _ <- query_value token_value ;;
      playlist_text <- playlist net ;;
      from_playlist playlist_text
    else inr None
  else inr None.
End Spade.

(** ** The operation registry: GQLOperation over a store of objects

    A [GQLOperation] and the dict of its variables are mutable objects;
    they live in a store, and a reference is an index into it. *)

Module Registry.
Import Json.
Local Open Scope string_scope.

Inductive obj : Type :=
| OpObj (operationName sha256Hash : string) (variables : option nat)
| DictObj (items : gmap string json).

(** Allocation of a new object: its reference is the old length. *)
Definition alloc (st : list obj) (o : obj) : list obj * nat := ((st ++ [o])%list, length st).

(** [GQLOperation(name, sha256, variables=variables)] *)
Definition GQLOperation (st : list obj) (name sha256 : string) (variables : option nat)
  : list obj * nat :=
  alloc st (OpObj name sha256 variables).

(** [with_variables(self, variables)]:
    [new_vars = self.get("variables", {}).copy()],
    [new_vars.update(variables)], and the new operation.  The argument
    [variables] is only read and is passed by value. *)
Definition with_variables (st : list obj) (self : nat) (variables : gmap string json)
  : pyexn + (list obj * nat) :=
  match st !! self with
  | Some (OpObj name sha256 vars) =>
      (* self.get("variables", {}) *)
      let '(st1, base) :=
        match vars with
        | Some l => (st, l)
        | None => alloc st (DictObj ∅)
        end in
      match st1 !! base with
      | Some (DictObj d) =>
          (* .copy() *)
          let '(st2, new_vars) := alloc st1 (DictObj d) in
          (* new_vars.update(variables) *)
          let st3 := <[new_vars := DictObj (variables ∪ d)]> st2 in
          inr (GQLOperation st3 name sha256 (Some new_vars))
      | _ => inl AttributeError
      end
  | _ => inl AttributeError
  end.

(** The variables an operation carries, read through the store. *)
Definition variables_of (st : list obj) (op : nat) : option (gmap string json) :=
  match st !! op with
  | Some (OpObj _ _ (Some l)) =>
      match st !! l with
      | Some (DictObj d) => Some d
      | _ => None
      end
  | Some (OpObj _ _ None) => Some ∅
  | _ => None
  end.

(** [GQL_OPERATIONS]: key, operation name and hash. *)
Definition GQL_OPERATIONS : list (string * (string * string)) :=
  [ ("ViewerDropsDashboard",
     ("ViewerDropsDashboard",
      "5a4da2ab3d5b47c9f9ce864e727b2cb346af1e3ea8b897fe8f704a97ff017619"));
    ("Inventory",
     ("Inventory",
      "d86775d0ef16a63a33ad52e80eaff963b2d5b72fada7c991504a57496e1d8e4b"));
    ("ClaimDrop",
     ("DropsPage_ClaimDropRewards",
      "a455deea71bdc9015b78eb49f4acfbce8baa7ccbedd28e549bb025bd0f751930"));
    ("GameDirectory",
     ("DirectoryPage_Game",
      "c7c9d5aad09155c4161d2382092dc44610367f3536aac39019ec2582ae5065f9"));
    ("GetStreamInfo",
     ("VideoPlayerStreamInfoOverlayChannel",
      "198492e0857f6aedead9665c81c5a06d67b25b58034649687124083ff288597d"));
    ("StreamInfo",
     ("StreamInfo",
      "c338bd15737588308cf8e39395aab6035176e2b6055057c569171db0739c6efc"));
    ("PlaybackAccessToken",
     ("PlaybackAccessToken",
      "0828119abb1010bd2f8695823949422059320815431d9c96275011038bd3879e"));
    ("Current_user",
     ("Current_user",
      "04e4285478e023aa314391066046e4777a0877d84c57429049d61951ef621ec7")) ].

(** The store after the module is loaded: one operation per entry, none
    with variables; entry number [i] is at reference [i]. *)
Definition initial_store : list obj :=
  List.map (fun e => OpObj (fst (snd e)) (snd (snd e)) None) GQL_OPERATIONS.

(** [GQL_OPERATIONS[key]] *)
Fixpoint index_of (key : string) (table : list (string * (string * string))) (i : nat)
  : pyexn + nat :=
  match table with
  | [] => inl (KeyError key)
  | (k, _) :: rest => if String.eqb k key then inr i else index_of key rest (S i)
  end.

Definition operation (key : string) : pyexn + nat := index_of key GQL_OPERATIONS 0.

(** An example store: the registry, then a [GameDirectory] operation (at
    reference 9) that carries the variables at reference 8. *)
Definition store_with_slug : list obj :=
  (initial_store ++
   [DictObj {[ "slug" := JStr "old"; "limit" := JNum 30 ]};
    OpObj "DirectoryPage_Game"
      "c7c9d5aad09155c4161d2382092dc44610367f3536aac39019ec2582ae5065f9" (Some 8)])%list.
End Registry.

(** ** What the code does to the outside *)

Inductive event : Type :=
| Gql (operation : string) (variables : list (string * Json.json))
| Log (msg : string)
| SendWatch (channel : nat)       (* a call of [Channel.send_watch] *)
| Post (url : string)             (* the heartbeat POST *)
| SleepFor (seconds : Z).

(** ** Drops and campaigns *)

Module Drops.
Import Json.
Local Open Scope string_scope.
Local Open Scope Z_scope.

(** The [self] object of a drop in the API answer. *)
Record self_data : Type := {
  dropInstanceID : option string;
  isClaimed : option bool;
  currentMinutesWatched : option Z
}.

(** A drop in the API answer. *)
Record drop_data : Type := {
  d_id : string;
  d_self : option self_data;
  requiredMinutesWatched : Z
}.

Record TimedDrop : Type := {
  campaign : string;              (* the name of the owning campaign *)
  id : string;
  claim_id : option string;
  is_claimed : bool;
  current_minutes : Z;
  required_minutes : Z
}.

(** [data.get("self", {}).get(key, default)] *)
Definition self_get {A : Type} (data : drop_data) (field : self_data -> option A)
    (default : A) : A :=
  match d_self data with
  | Some s => match field s with Some v => v | None => default end
  | None => default
  end.

(** [TimedDrop.__init__] *)
Definition init_drop (campaign_name : string) (data : drop_data) : TimedDrop :=
  let claimed := self_get data isClaimed false in
  let current := self_get data currentMinutesWatched 0 in
  let required := requiredMinutesWatched data in
  {| campaign := campaign_name;
     id := d_id data;
     claim_id := match d_self data with Some s => dropInstanceID s | None => None end;
     is_claimed := claimed;
     current_minutes := if claimed then required else current;
     required_minutes := required |}.

(** [TimedDrop.can_earn], given [self.campaign.active] *)
Definition can_earn (active : bool) (d : TimedDrop) : bool :=
  negb (is_claimed d) && active && (current_minutes d <? required_minutes d).

(** [TimedDrop.can_claim] *)
Definition can_claim (d : TimedDrop) : bool :=
  match claim_id d with
  | Some _ => negb (is_claimed d)
  | None => false
  end.

(** How a call ends: it returns, or an exception leaves it. *)
Inductive ending : Type :=
| Returns
| Raises (e : pyexn).

(** [TimedDrop.claim].  [answer] is what [gql_request] does with the
    [ClaimDrop] operation: it returns the answer or raises. *)
Definition claim (answer : pyexn + json) (d : TimedDrop) : TimedDrop * list event * ending :=
  if negb (can_claim d) then (d, [], Returns)
  else
    let call :=
      Gql "ClaimDrop"
        [("input",
          JObj [("dropInstanceID",
                 match claim_id d with Some c => JStr c | None => JNull end)])] in
    match answer with
    | inr _ =>
        ({| campaign := campaign d;
            id := id d;
            claim_id := claim_id d;
            is_claimed := true;
            current_minutes := required_minutes d;
            required_minutes := required_minutes d |},
         [call; Log ("Claimed drop for '" ++ campaign d ++ "'")],
         Returns)
    | inl e =>
        if is_GQLException e
        then (d, [call; Log ("Failed to claim drop " ++ id d)], Returns)
        else (d, [call], Raises e)
    end.

(** The invariant of a drop: once claimed, the minutes watched are the
    minutes required. *)
Definition drop_inv (d : TimedDrop) : Prop :=
  is_claimed d = true -> current_minutes d = required_minutes d.

(** A campaign in the API answer; the two dates are given as seconds. *)
Record campaign_data : Type := {
  c_id : string;
  c_name : string;
  c_game : string;
  startAt : Z;
  endAt : Z;
  timeBasedDrops : list drop_data
}.

Record DropsCampaign : Type := {
  cid : string;
  name : string;
  game : string;
  linked : bool;
  starts_at : Z;
  ends_at : Z;
  timed_drops : gmap string TimedDrop
}.

(** [{d["id"]: TimedDrop(self, d) for d in raw_drops}]: a later drop with
    the same id replaces an earlier one. *)
Definition drops_dict (campaign_name : string) (raw_drops : list drop_data)
  : gmap string TimedDrop :=
  fold_left (fun m d => <[d_id d := init_drop campaign_name d]> m) raw_drops ∅.

(** [DropsCampaign.__init__] *)
Definition init_campaign (data : campaign_data) : DropsCampaign :=
  {| cid := c_id data;
     name := c_name data;
     game := c_game data;
     linked := true;
     starts_at := startAt data;
     ends_at := endAt data;
     timed_drops := drops_dict (c_name data) (timeBasedDrops data) |}.

(** [self.timed_drops.values()] *)
Definition drops_of (c : DropsCampaign) : list TimedDrop :=
  (map_to_list (timed_drops c)).*2.

(** [DropsCampaign.active], at the time [now] *)
Definition active (now : Z) (c : DropsCampaign) : bool :=
  (starts_at c <=? now) && (now <? ends_at c).

(** [DropsCampaign.finished]; the log lines it writes are left out. *)
Definition finished (c : DropsCampaign) : bool :=
  if bool_decide (timed_drops c = ∅) then false
  else forallb is_claimed (drops_of c).

(** [DropsCampaign.can_earn] *)
Definition campaign_can_earn (now : Z) (c : DropsCampaign) : bool :=
  active now c && negb (finished c).

(** The [ClaimDrop] requests in a trace. *)
Definition claim_requests (tr : list event) : nat :=
  length (List.filter
            (fun ev => match ev with Gql op _ => String.eqb op "ClaimDrop" | _ => false end)
            tr).

(** Example data: a drop already claimed, a drop ready to be claimed, and
    campaigns made of them. *)
Definition drop_done_data : drop_data :=
  {| d_id := "drop-1";
     d_self := Some {| dropInstanceID := Some "inst-1";
                       isClaimed := Some true;
                       currentMinutesWatched := Some 10 |};
     requiredMinutesWatched := 30 |}.

Definition drop_ready_data : drop_data :=
  {| d_id := "drop-2";
     d_self := Some {| dropInstanceID := Some "inst-2";
                       isClaimed := Some false;
                       currentMinutesWatched := Some 30 |};
     requiredMinutesWatched := 30 |}.

Definition campaign_done : DropsCampaign :=
  init_campaign
    {| c_id := "c-1"; c_name := "Camp"; c_game := "Game";
       startAt := 0; endAt := 7200; timeBasedDrops := [drop_done_data] |}.

Definition campaign_empty : DropsCampaign :=
  init_campaign
    {| c_id := "c-0"; c_name := "Empty"; c_game := "Game";
       startAt := 0; endAt := 7200; timeBasedDrops := [] |}.
End Drops.

(** ** Channels and the watch loop *)

Module Watch.
Import Text Json Spade.
Local Open Scope string_scope.

(** [WATCH_INTERVAL] *)
Definition WATCH_INTERVAL : Z := 60.

(** [str.lower] on one character (code points below 256). *)
Definition lower_char (c : ascii) : ascii :=
  let n := code c in
  if ((65 <=? n) && (n <=? 90) || (192 <=? n) && (n <=? 222) && negb (n =? 215))%N
  then Ascii.ascii_of_N (n + 32) else c.

Fixpoint lower (s : string) : string :=
  match s with
  | EmptyString => EmptyString
  | String c s' => String (lower_char c) (lower s')
  end.

Record Game : Type := {
  game_id : json;
  game_name : string;
  slug : json
}.

(** [Game.__init__]; the default of [data.get("name", ...)] is computed
    before the lookup. *)
Definition init_game (data : json) : pyexn + Game :=
  i <- item data "id" ;;
  n <- item data "displayName" ;;
  match n with
  | JStr display =>
      s <- get data "name" (JStr (replace " " "-" (lower display))) ;;
      inr {| game_id := i; game_name := display; slug := s |}
  | _ => inl AttributeError
  end.

Record Stream : Type := {
  broadcast_id : json;
  stream_game : option Game
}.

(** [Stream.__init__] *)
Definition init_stream (user_data : json) : pyexn + Stream :=
  stream <- get user_data "stream" empty_dict ;;
  bid <- get stream "id" (JStr "0") ;;
  settings <- get user_data "broadcastSettings" empty_dict ;;
  playing <- get settings "game" JNull ;;
  if truthy playing then
    settings' <- get user_data "broadcastSettings" empty_dict ;;
    data <- get settings' "game" empty_dict ;;
    g <- init_game data ;;
    inr {| broadcast_id := bid; stream_game := Some g |}
  else inr {| broadcast_id := bid; stream_game := None |}.

Record Channel : Type := {
  channel_id : Z;
  login : string;
  display_name : string;
  _stream : option Stream;
  _spade_url : option string
}.

Definition set_stream (c : Channel) (s : option Stream) : Channel :=
  {| channel_id := channel_id c; login := login c; display_name := display_name c;
     _stream := s; _spade_url := _spade_url c |}.

Definition set_spade_url (c : Channel) (u : string) : Channel :=
  {| channel_id := channel_id c; login := login c; display_name := display_name c;
     _stream := _stream c; _spade_url := Some u |}.

(** [res.get("data", {}).get("user", {}).get("stream")] *)
Definition stream_data_of (res : json) : pyexn + json :=
  data <- get res "data" empty_dict ;;
  user <- get data "user" empty_dict ;;
  get user "stream" JNull.

(** The request of [update_stream]:
    [GQL_OPERATIONS["GetStreamInfo"].with_variables({"channel": self.login})]. *)
Definition stream_info_call (c : Channel) : event :=
  Gql "GetStreamInfo" [("channel", JStr (login c))].

(** [Channel.update_stream].  [answer] is what [gql_request] does with the
    [GetStreamInfo] operation. *)
Definition update_stream (c : Channel) (answer : pyexn + json)
  : Channel * list event * (pyexn + bool) :=
  let call := stream_info_call c in
  match answer with
  | inl e =>
      if is_GQLException e then (set_stream c None, [call], inr false)
      else (c, [call], inl e)
  | inr res =>
      match stream_data_of res with
      | inl e => (c, [call], inl e)
      | inr stream_data =>
          if truthy stream_data then
            match (data <- item res "data" ;;
                   user <- item data "user" ;;
                   init_stream user) with
            | inr s => (set_stream c (Some s), [call], inr true)
            | inl e => (c, [call], inl e)
            end
          else (set_stream c None, [call], inr false)
      end
  end.

(** The message of the [MinerException] of a failed discovery. *)
Definition no_spade_url (c : Channel) : pyexn :=
  MinerException ("could not extract spade_url for " ++ login c).

(** [if self._spade_url]: a URL that is set and not empty. *)
Definition cached_spade_url (c : Channel) : option string :=
  match _spade_url c with
  | Some u => if String.eqb u EmptyString then None else Some u
  | None => None
  end.

(** [Channel.get_spade_url] *)
Definition get_spade_url (c : Channel) (net : discovery_net)
  : Channel * list event * (pyexn + string) :=
  match cached_spade_url c with
  | Some u => (c, [], inr u)
  | None =>
      match page net with
      | inl e => (c, [], inl e)
      | inr text =>
          match first_match [spade_pattern; segment_pattern] text with
          | Some (inr u) =>
              (set_spade_url c u, [Log ("found spade_url for " ++ login c)], inr u)
          | Some (inl e) => (c, [], inl e)
          | None =>
              let call :=
                Gql "PlaybackAccessToken"
                  [("login", JStr (login c)); ("isLive", JBool true);
                   ("vodID", JStr EmptyString); ("playerType", JStr "site")] in
              match token_fallback net with
              | inr (Some u) =>
                  (set_spade_url c u, [call; Log ("spade_url for " ++ login c)], inr u)
              | inr None => (c, [call], inl (no_spade_url c))
              | inl e =>
                  if is_Exception e
                  then (c, [call; Log ("fallback failed for " ++ login c)],
                        inl (no_spade_url c))
                  else (c, [call], inl e)
              end
          end
      end
  end.
(** The answers of the network to one call of [send_watch]: those of the
    discovery, and what the heartbeat POST does, a status or an exception. *)
Record beat_net : Type := {
  discovery : discovery_net;
  post : pyexn + Z
}.

(** [Channel.send_watch] *)
Definition send_watch (c : Channel) (net : beat_net)
  : Channel * list event * (pyexn + bool) :=
  match _stream c with
  | None => (c, [Log ("no stream for " ++ login c)], inr false)
  | Some _ =>
      (* if self._spade_url is None: self._spade_url = await self.get_spade_url() *)
      let '(c1, ev1, found) :=
        match _spade_url c with
        | None =>
            match get_spade_url c (discovery net) with
            | (c', ev, inr u) => (set_spade_url c' u, ev, inr u)
            | (c', ev, inl e) => (c', ev, inl e)
            end
        | Some u => (c, [], inr u)
        end in
      match found with
      | inl e =>
          if is_Exception e
          then (c1, (ev1 ++ [Log ("watch error for " ++ login c)])%list, inr false)
          else (c1, ev1, inl e)
      | inr url =>
          let ev2 := (ev1 ++ [Log ("sending watch for " ++ login c); Post url])%list in
          match post net with
          | inr status =>
              (c1, (ev2 ++ [Log ("watch answer for " ++ login c)])%list,
               inr ((status =? 204)%Z || (status =? 200)%Z))
          | inl e =>
              if is_Exception e
              then (c1, (ev2 ++ [Log ("watch error for " ++ login c)])%list, inr false)
              else (c1, ev2, inl e)
          end
      end
  end.

(** The fields of the worker that the loop reads and writes. *)
Record control : Type := {
  watching_channel : option nat;     (* a reference to a channel object *)
  _is_running : bool
}.

(** The world around one run of the loop: the answer to the first
    [GetStreamInfo], the answers to heartbeat [i], how the sleep of
    iteration [i] ends, and what other tasks do to the fields of the worker
    while the loop is suspended for the [k]-th time. *)
Record watch_net : Type := {
  stream_info : pyexn + json;
  beat : nat -> beat_net;
  tick : nat -> option pyexn;
  others : nat -> control -> control
}.

(** [self.watching_channel == channel]: channels compare by identity. *)
Definition is_current (ref : nat) (w : control) : bool :=
  match watching_channel w with
  | Some r => Nat.eqb r ref
  | None => false
  end.

(** The [finally] block. *)
Definition finally (ref : nat) (w : control) : control :=
  if is_current ref w
  then {| watching_channel := None; _is_running := _is_running w |}
  else w.

(** The two [except] clauses. *)
Definition handler (c : Channel) (e : pyexn) : list event :=
  match e with
  | CancelledError => [Log ("watch loop for " ++ display_name c ++ " cancelled")]
  | _ => [Log ("critical error in watch loop for " ++ display_name c)]
  end.

Inductive loop_state : Type :=
| Finished
| Running.        (* the loop has more iterations to do *)

(** The [while] loop, from iteration [i]. *)
Fixpoint heartbeats (fuel : nat) (net : watch_net) (ref : nat) (i : nat)
    (c : Channel) (w : control) : Channel * control * list event * loop_state :=
  match fuel with
  | O => (c, w, [], Running)
  | S fuel' =>
      if _is_running w && is_current ref w then
        let '(c1, ev1, sent) := send_watch c (beat net i) in
        let w1 := others net (2 * i + 1) w in
        match sent with
        | inl e => (c1, finally ref w1, (SendWatch ref :: ev1 ++ handler c e)%list, Finished)
        | inr success =>
            let ev2 :=
              (SendWatch ref :: ev1 ++
               (if success then [] else [Log ("watch failed for " ++ display_name c)]) ++
               [Log ("watch sent for " ++ display_name c); SleepFor WATCH_INTERVAL])%list in
            let w2 := others net (2 * i + 2) w1 in
            match tick net i with
            | Some e => (c1, finally ref w2, (ev2 ++ handler c e)%list, Finished)
            | None =>
                let '(c3, w3, ev3, st) := heartbeats fuel' net ref (S i) c1 w2 in
                (c3, w3, (ev2 ++ ev3)%list, st)
            end
        end
      else (c, finally ref w, [], Finished)
  end.

(** [AccountWorker._watch_loop] for the channel object at [ref]. *)
Definition _watch_loop (fuel : nat) (net : watch_net) (ref : nat)
    (c : Channel) (w : control) : Channel * control * list event * loop_state :=
  let '(c1, ev1, live) := update_stream c (stream_info net) in
  let w1 := others net 0 w in
  match live with
  | inl e => (c1, finally ref w1, (ev1 ++ handler c e)%list, Finished)
  | inr false =>
      (c1, finally ref w1, (ev1 ++ [Log (display_name c ++ " offline.")])%list, Finished)
  | inr true =>
      let '(c2, w2, ev2, st) := heartbeats fuel net ref 0 c1 w1 in
      (c2, w2, (ev1 ++ ev2)%list, st)
  end.

(** The heartbeats in a trace: calls of [send_watch], and POSTs. *)
Definition is_send (ev : event) : bool :=
  match ev with
  | SendWatch _ | Post _ => true
  | _ => false
  end.

Definition sends (tr : list event) : nat := length (List.filter is_send tr).

(** An example channel, and a world in which nothing else happens. *)
Definition channel_example : Channel :=
  {| channel_id := 42; login := "streamer"; display_name := "Streamer";
     _stream := None; _spade_url := None |}.

Definition quiet_net (answer : pyexn + json) : watch_net :=
  {| stream_info := answer;
     beat := fun _ =>
       {| discovery := {| page := inr EmptyString; token := inl OtherError; playlist := inr EmptyString |};
          post := inr 204%Z |};
     tick := fun _ => None;
     others := fun _ w => w |}.
End Watch.

(** * More of [core.py] *)

(** ** Traces of the retry loop *)

Module RequestTrace.
Import Request.

(** The delays slept, in order. *)
Definition sleeps (tr : list event) : list Z :=
  List.flat_map (fun ev => match ev with Sleep d => [d] | _ => [] end) tr.

(** A network that fails [n] times and then answers 404. *)
Definition fails_then_404 (n : nat) : nat -> attempt_outcome :=
  fun m => if Nat.ltb m n then ClientError else Response 404.
End RequestTrace.

(** ** Traces of the watch loop *)

Module WatchTrace.
Import Json Spade Watch.
Local Open Scope string_scope.

(** The calls of [send_watch] in a trace. *)
Definition heartbeat_calls (tr : list event) : nat :=
  length (List.filter (fun ev => match ev with SendWatch _ => true | _ => false end) tr).

(** The sleeps of [WATCH_INTERVAL] seconds in a trace. *)
Definition interval_sleeps (tr : list event) : nat :=
  length (List.filter
            (fun ev => match ev with SleepFor s => Z.eqb s WATCH_INTERVAL | _ => false end)
            tr).

(** Events that are neither a call of [send_watch] nor a sleep. *)
Definition plain (ev : event) : bool :=
  match ev with
  | SendWatch _ | SleepFor _ => false
  | _ => true
  end.

(** A channel that is live, with and without a cached endpoint. *)
Definition channel_live : Channel :=
  {| channel_id := 42; login := "streamer"; display_name := "Streamer";
     _stream := Some {| broadcast_id := JStr "7"; stream_game := None |};
     _spade_url := None |}.

Definition channel_cached : Channel :=
  set_spade_url channel_live "https://video-edge-a.example/ping".

(** A page that names the endpoint. *)
Definition page_with_spade : string :=
  String Text.dquote ("spade_url" ++ String Text.dquote (":" ++
    String Text.dquote ("https://video-edge-a.example/ping" ++
      String Text.dquote EmptyString))).

(** Answers of the network: a discovery that finds the endpoint in the
    page, one that finds nothing, and heartbeats built on them. *)
Definition discovery_found : discovery_net :=
  {| page := inr page_with_spade; token := inl OtherError; playlist := inr EmptyString |}.

Definition discovery_nothing : discovery_net :=
  {| page := inr EmptyString; token := inl OtherError; playlist := inr EmptyString |}.

Definition beat_with (d : discovery_net) (answer : pyexn + Z) : beat_net :=
  {| discovery := d; post := answer |}.

(** A world where every heartbeat is refused with status 403 and nothing
    else happens. *)
Definition refusing_net : watch_net :=
  {| stream_info := inr GqlRequest.answer_offline;
     beat := fun _ => beat_with discovery_nothing (inr 403%Z);
     tick := fun _ => None;
     others := fun _ w => w |}.
(** An answer for a channel that is live, and the same world behind it. *)
Definition answer_live : json :=
  JObj [("data", JObj [("user", JObj [("id", JStr "42");
                                      ("stream", JObj [("id", JStr "7")])])])].

Definition refusing_live_net : watch_net :=
  {| stream_info := inr answer_live;
     beat := fun _ => beat_with discovery_nothing (inr 403%Z);
     tick := fun _ => None;
     others := fun _ w => w |}.
End WatchTrace.

(** ** The session: cookies and fixed headers of get_session *)

Module Session.
Import Text.
Local Open Scope string_scope.

(** The text after the first occurrence of [sep]; with [before_first] this
    is [s.split(sep, 1)] for a text that contains [sep]. *)
Fixpoint after_first (sep s : string) : string :=
  if startswith sep s then drop (String.length sep) s
  else match s with
       | EmptyString => EmptyString
       | String _ s' => after_first sep s'
       end.

(** The character [c] occurs in [s]. *)
Fixpoint occurs (c : ascii) (s : string) : bool :=
  match s with
  | EmptyString => false
  | String x s' => Ascii.eqb c x || occurs c s'
  end.

(** The body of the loop over the items of the cookie string:
    [item = item.strip()], and for an item with an equals sign
    [key, value = item.split("=", 1); cookies[key] = value]. *)
Definition add_cookie (cookies : gmap string string) (item : string) : gmap string string :=
  let item := strip item in
  if contains "=" item
  then <[before_first "=" item := after_first "=" item]> cookies
  else cookies.

(** The cookies read from the raw cookie string of the configuration. *)
Definition parse_cookies (cookies_raw : string) : gmap string string :=
  fold_left add_cookie (split ";" cookies_raw) ∅.

(** The part of the account configuration that [get_session] reads, and the
    header values the worker has resolved. *)
Record session_config : Type := {
  cookies : option string;
  auth_token : option string;
  _client_integrity : option string;
  _client_version : option string;
  _device_id : option string
}.

(** The cookies loaded into the jar. *)
Definition session_cookies (config : session_config) : pyexn + gmap string string :=
  match cookies config with
  | Some cookies_raw => inr (parse_cookies cookies_raw)
  | None =>
      match auth_token config with
      | Some t => inr {[ "auth-token" := t ]}
      | None => inl (KeyError "auth_token")
      end
  end.



(** One cookie as it is written in a cookie string. *)
Definition cookie_item (kv : string * string) : string := fst kv ++ "=" ++ snd kv.

(** A name and a value that can be written in a cookie string and read
    back: no semicolon in either, no equals sign in the name, and no
    white space around the item. *)
Definition writable (kv : string * string) : Prop :=
  contains ";" (fst kv) = false /\
  contains ";" (snd kv) = false /\
  contains "=" (fst kv) = false /\
  strip (cookie_item kv) = cookie_item kv.
End Session.

(** ** Starting and stopping the watch task: watch, stop_watching, stop *)

Module Tasks.

(** A task made by [asyncio.create_task]: it runs, it has been asked to
    cancel and has not ended yet, or it has ended. *)
Inductive task_state : Type :=
| Live
| Cancelling
| Done.

Record task : Type := {
  t_channel : nat;                 (* the channel object of the loop *)
  t_state : task_state
}.

(** [task.cancel()]: a request, without effect on a task that has ended. *)
Definition cancel (t : task) : task :=
  match t_state t with
  | Live => {| t_channel := t_channel t; t_state := Cancelling |}
  | _ => t
  end.

(** The fields of the worker that [watch], [stop_watching] and [stop]
    use; a task is named by its index in [tasks]. *)
Record worker : Type := {
  watching_channel : option nat;
  _watching_task : option nat;
  tasks : list task;
  _is_running : bool
}.

(** The worker after [AccountWorker.__init__]. *)
Definition init : worker :=
  {| watching_channel := None; _watching_task := None; tasks := [];
     _is_running := true |}.

(** [if self._watching_task: self._watching_task.cancel()] *)
Definition cancel_current (w : worker) : list task :=
  match _watching_task w with
  | Some i => alter cancel i (tasks w)
  | None => tasks w
  end.

(** [AccountWorker.stop_watching] *)
Definition stop_watching (w : worker) : worker :=
  {| watching_channel := None;
     _watching_task := _watching_task w;
     tasks := cancel_current w;
     _is_running := _is_running w |}.

(** [AccountWorker.watch]; [ids r] is the [id] of the channel object [r]. *)
Definition watch (ids : nat -> Z) (w : worker) (channel : nat) : worker :=
  if match watching_channel w with
     | Some r => Z.eqb (ids r) (ids channel)
     | None => false
     end
  then w
  else
    let w1 := stop_watching w in
    {| watching_channel := Some channel;
       _watching_task := Some (length (tasks w1));
       tasks := (tasks w1 ++ [{| t_channel := channel; t_state := Live |}])%list;
       _is_running := _is_running w1 |}.

(** [AccountWorker.stop], as far as these fields go. *)
Definition stop (w : worker) : worker :=
  {| watching_channel := watching_channel w;
     _watching_task := _watching_task w;
     tasks := cancel_current w;
     _is_running := false |}.

(** The end of the loop of task [i]: its [finally] block, then the task is
    done. *)
Definition loop_exit (w : worker) (i : nat) : worker :=
  match tasks w !! i with
  | Some t =>
      match t_state t with
      | Done => w
      | _ =>
          {| watching_channel :=
               match watching_channel w with
               | Some r => if Nat.eqb r (t_channel t) then None else Some r
               | None => None
               end;
             _watching_task := _watching_task w;
             tasks := <[i := {| t_channel := t_channel t; t_state := Done |}]> (tasks w);
             _is_running := _is_running w |}
      end
  | None => w
  end.

(** What can happen to the worker, and a run of such steps. *)
Inductive op : Type :=
| Watch (channel : nat)
| StopWatching
| Stop
| LoopExit (i : nat).

Definition step (ids : nat -> Z) (w : worker) (o : op) : worker :=
  match o with
  | Watch channel => watch ids w channel
  | StopWatching => stop_watching w
  | Stop => stop w
  | LoopExit i => loop_exit w i
  end.

Definition run (ids : nat -> Z) (ops : list op) : worker :=
  fold_left (step ids) ops init.

(** Task [i] of the worker is running and has not been asked to cancel. *)
Definition is_live (w : worker) (i : nat) : Prop :=
  exists t, tasks w !! i = Some t /\ t_state t = Live.

(** Every live task is the current one. *)
Definition live_is_current (w : worker) : Prop :=
  forall i, is_live w i -> _watching_task w = Some i.
End Tasks.

(** ** fetch_inventory

    The API answers are given as typed values, as in [Drops]; the log
    lines of [fetch_inventory] are left out of the trace. *)

Module Inventory.
Import Drops.
Local Open Scope string_scope.

(** [except (MinerException, GQLException)]: the base class catches its
    subclasses. *)
Definition is_MinerException (e : pyexn) : bool :=
  match e with
  | MinerException _ | GQLException _ | RequestException _ => true
  | _ => false
  end.

(** A drop and a campaign of [dropCampaignsInProgress]. *)
Record progress_drop : Type := {
  pd_id : string;
  pd_self : option self_data
}.

Record progress_campaign : Type := {
  p_id : string;
  p_drops : list progress_drop
}.

(** A campaign of the dashboard: its [status] and what [DropsCampaign]
    reads. *)
Record dashboard_campaign : Type := {
  status : option string;
  data : campaign_data
}.

(** [{}] as the [self] of a drop. *)
Definition empty_self : self_data :=
  {| dropInstanceID := None; isClaimed := None; currentMinutesWatched := None |}.

(** [{c['id']: c for c in l}[key]], when [key] is there: the last entry
    with that id. *)
Definition dict_get {A : Type} (id_of : A -> string) (l : list A) (key : string) : option A :=
  last (List.filter (fun x => String.eqb (id_of x) key) l).

(** [campaign['timeBasedDrops'][i]['self'] = progress_drops[drop['id']].get('self', {})]
    for a drop whose id is in [progress_drops]. *)
Definition merge_drop (progress_drops : list progress_drop) (d : drop_data) : drop_data :=
  match dict_get pd_id progress_drops (d_id d) with
  | Some pd =>
      {| d_id := d_id d;
         d_self := Some (match pd_self pd with Some s => s | None => empty_self end);
         requiredMinutesWatched := requiredMinutesWatched d |}
  | None => d
  end.

(** The body of the loop over [all_campaigns_data]. *)
Definition merge_campaign (progress : list progress_campaign) (c : dashboard_campaign)
  : dashboard_campaign :=
  let cd := data c in
  if negb (String.eqb (c_id cd) EmptyString) then
    match dict_get p_id progress (c_id cd) with
    | Some p =>
        {| status := status c;
           data := {| c_id := c_id cd; c_name := c_name cd; c_game := c_game cd;
                      startAt := startAt cd; endAt := endAt cd;
                      timeBasedDrops := List.map (merge_drop (p_drops p))
                                          (timeBasedDrops cd) |} |}
    | None => c
    end
  else c.

(** [c.get("status") == "ACTIVE"] *)
Definition is_active_status (c : dashboard_campaign) : bool :=
  match status c with
  | Some s => String.eqb s "ACTIVE"
  | None => false
  end.

(** The keys of a dict in the order of iteration: each key at its first
    insertion. *)
Fixpoint dedup (seen : list string) (ids : list string) : list string :=
  match ids with
  | [] => []
  | x :: rest =>
      if existsb (String.eqb x) seen then dedup seen rest
      else x :: dedup (x :: seen) rest
  end.

(** A tracked campaign with the order of iteration of its drops. *)
Record tracked : Type := {
  tracked_campaign : DropsCampaign;
  drop_order : list string
}.

(** [DropsCampaign(self, c)] *)
Definition track (c : dashboard_campaign) : tracked :=
  {| tracked_campaign := init_campaign (data c);
     drop_order := dedup [] (List.map d_id (timeBasedDrops (data c))) |}.

(** The campaigns built: those of the merged list with status ACTIVE. *)
Definition build (dashboard : list dashboard_campaign) (progress : list progress_campaign)
  : list tracked :=
  List.map track (List.filter is_active_status (List.map (merge_campaign progress) dashboard)).

Definition set_drops (c : DropsCampaign) (m : gmap string TimedDrop) : DropsCampaign :=
  {| cid := cid c; name := name c; game := game c; linked := linked c;
     starts_at := starts_at c; ends_at := ends_at c; timed_drops := m |}.

(** [for drop in campaign.timed_drops.values(): if drop.can_claim: await
    drop.claim()].  [answers n] is what the [n]-th claim request of the
    batch does; the result carries the number of requests made so far. *)
Fixpoint claim_drops (answers : nat -> pyexn + Json.json) (n : nat) (order : list string)
    (m : gmap string TimedDrop)
  : gmap string TimedDrop * list event * nat * ending :=
  match order with
  | [] => (m, [], n, Returns)
  | k :: rest =>
      match m !! k with
      | Some d =>
          if can_claim d then
            let '(d', ev, e) := claim (answers n) d in
            match e with
            | Raises x => (<[k := d']> m, ev, S n, Raises x)
            | Returns =>
                let '(m', ev', n', e') := claim_drops answers (S n) rest (<[k := d']> m) in
                (m', (ev ++ ev')%list, n', e')
            end
          else claim_drops answers n rest m
      | None => claim_drops answers n rest m
      end
  end.

(** [for campaign in self.inventory: ...] *)
Fixpoint claim_all (answers : nat -> pyexn + Json.json) (n : nat) (cs : list tracked)
  : list tracked * list event * nat * ending :=
  match cs with
  | [] => ([], [], n, Returns)
  | c :: rest =>
      let '(m, ev, n1, e) :=
        claim_drops answers n (drop_order c) (timed_drops (tracked_campaign c)) in
      let c' := {| tracked_campaign := set_drops (tracked_campaign c) m;
                   drop_order := drop_order c |} in
      match e with
      | Raises x => (c' :: rest, ev, n1, Raises x)
      | Returns =>
          let '(rest', ev', n2, e') := claim_all answers n1 rest in
          (c' :: rest', (ev ++ ev')%list, n2, e')
      end
  end.

(** The answers of the network to one [fetch_inventory]: the campaigns of
    the dashboard answer ([dropCampaigns or []]), those of the inventory
    answer ([dropCampaignsInProgress or []]), each [inl e] when the request
    or the reading of the answer raises [e], and the answers to the claim
    requests. *)
Record inventory_net : Type := {
  dashboard : pyexn + list dashboard_campaign;
  in_progress : pyexn + list progress_campaign;
  claim_answers : nat -> pyexn + Json.json
}.

(** The [except] clause: a [MinerException] empties the inventory and is
    swallowed; another exception goes on with the inventory as it is. *)
Definition on_error (inventory : list DropsCampaign) (ev : list event) (e : pyexn)
  : list DropsCampaign * list event * ending :=
  if is_MinerException e then ([], ev, Returns) else (inventory, ev, Raises e).

(** [AccountWorker.fetch_inventory], from the inventory [old]. *)
Definition fetch_inventory (net : inventory_net) (old : list DropsCampaign)
  : list DropsCampaign * list event * ending :=
  let q1 := Gql "ViewerDropsDashboard" [] in
  let q2 := Gql "Inventory" [] in
  match dashboard net with
  | inl e => on_error old [q1] e
  | inr all_campaigns_data =>
      match in_progress net with
      | inl e => on_error old [q1; q2] e
      | inr progress =>
          let '(cs, ev, _, e) :=
            claim_all (claim_answers net) 0 (build all_campaigns_data progress) in
          let inventory := List.map tracked_campaign cs in
          match e with
          | Returns => (inventory, (q1 :: q2 :: ev)%list, Returns)
          | Raises x => on_error inventory (q1 :: q2 :: ev)%list x
          end
      end
  end.

(** Example answers: two campaigns, one ended; the inventory reports the
    drop of the first as ready to be claimed. *)
Definition dashboard_example : list dashboard_campaign :=
  [ {| status := Some "ACTIVE";
       data := {| c_id := "c-1"; c_name := "Camp"; c_game := "Game";
                  startAt := 0; endAt := 7200;
                  timeBasedDrops :=
                    [ {| d_id := "drop-2"; d_self := None;
                         requiredMinutesWatched := 30 |} ] |} |};
    {| status := Some "EXPIRED";
       data := {| c_id := "c-2"; c_name := "Old"; c_game := "Game";
                  startAt := 0; endAt := 10; timeBasedDrops := [] |} |} ].

Definition progress_example : list progress_campaign :=
  [ {| p_id := "c-1";
       p_drops := [ {| pd_id := "drop-2"; pd_self := d_self drop_ready_data |} ] |} ].

Definition net_example (answer : pyexn + Json.json) : inventory_net :=
  {| dashboard := inr dashboard_example;
     in_progress := inr progress_example;
     claim_answers := fun _ => answer |}.

(** The [ClaimDrop] requests of a trace. *)
Definition is_claim_call (ev : event) : bool :=
  match ev with
  | Gql op _ => String.eqb op "ClaimDrop"
  | _ => false
  end.

Definition claim_calls (tr : list event) : nat :=
  length (List.filter is_claim_call tr).

(** The drops of a campaign that can be claimed. *)
Definition claimable (c : DropsCampaign) : list TimedDrop :=
  List.filter can_claim (drops_of c).

(** A claim request that is answered, or refused with a [GQLException]. *)
Definition answered_or_refused (a : pyexn + Json.json) : bool :=
  match a with
  | inr _ => true
  | inl e => is_GQLException e
  end.

(** [can_claim] of the drop kept under a key. *)
Definition can_claim_key (m : gmap string TimedDrop) (k : string) : bool :=
  match m !! k with
  | Some d => can_claim d
  | None => false
  end.

(** The order of iteration holds each key of the dict, once. *)
Definition keys_in_order (c : tracked) : Prop :=
  NoDup (drop_order c) /\
  forall k, k ∈ drop_order c <-> is_Some (timed_drops (tracked_campaign c) !! k).

(** How many drops of a list of campaigns can be claimed. *)
Definition claimable_count (cs : list DropsCampaign) : nat :=
  list_sum (List.map (fun c => length (claimable c)) cs).
End Inventory.

(** ** fetch_channels

    The answers of the directory query are JSON values, read as the code
    reads them; the log lines are left out of the trace. *)

Module Channels.
Import Json Watch.
Local Open Scope string_scope.

(** A channel as [Channel.from_directory] builds it: the fields hold what
    the answer holds, whatever its type. *)
Record directory_channel : Type := {
  dc_id : Z;
  dc_login : json;
  dc_display_name : json;
  dc_game : Game
}.

(** The items of a string: its characters, each a string. *)
Fixpoint characters (s : string) : list json :=
  match s with
  | EmptyString => []
  | String c rest => JStr (String c EmptyString) :: characters rest
  end.

Section Python.
(** [int(x)] on a value of the answer. *)
Variable py_int : json -> pyexn + Z.
(** What [d[:10]] raises on a dict: [TypeError] up to Python 3.11, a
    [KeyError] of the slice since. *)
Variable slice_of_dict : pyexn.

(** [Channel.from_directory]; the arguments of the constructor are
    evaluated from left to right. *)
Definition from_directory (data : json) : pyexn + directory_channel :=
  broadcaster <- item data "broadcaster" ;;
  i <- item broadcaster "id" ;;
  n <- py_int i ;;
  l <- item broadcaster "login" ;;
  d <- item broadcaster "displayName" ;;
  g <- item data "game" ;;
  game <- init_game g ;;
  inr {| dc_id := n; dc_login := l; dc_display_name := d; dc_game := game |}.

(** [v[:10]], as a list of the items a [for] loop goes through. *)
Definition first_ten (v : json) : pyexn + list json :=
  match v with
  | JArr items => inr (firstn 10 items)
  | JStr s => inr (firstn 10 (characters s))
  | JObj _ => inl slice_of_dict
  | _ => inl TypeError
  end.

(** [res.get("data", {}).get("game", {}).get("streams", {}).get("edges", [])[:10]] *)
Definition streams_of (res : json) : pyexn + list json :=
  data <- get res "data" empty_dict ;;
  game <- get data "game" empty_dict ;;
  streams <- get game "streams" empty_dict ;;
  edges <- get streams "edges" (JArr []) ;;
  first_ten edges.

(** The body of [for stream in streams]: the channel to add, if any. *)
Definition channel_of (stream : json) : pyexn + option directory_channel :=
  node <- get stream "node" JNull ;;
  if truthy node then
    broadcaster <- get node "broadcaster" JNull ;;
    if truthy broadcaster then
      channel <- from_directory node ;;
      inr (Some channel)
    else inr None
  else inr None.

(** [for stream in streams: ...]: the channels afterwards and the
    exception that ended the loop, if any. *)
Fixpoint add_streams (streams : list json) (channels : gmap Z directory_channel)
  : gmap Z directory_channel * option pyexn :=
  match streams with
  | [] => (channels, None)
  | stream :: rest =>
      match channel_of stream with
      | inl e => (channels, Some e)
      | inr (Some channel) => add_streams rest (<[dc_id channel := channel]> channels)
      | inr None => add_streams rest channels
      end
  end.

(** The body of the [try] for one game, after the request: [answer] is
    what [gql_request] does. *)
Definition try_body (answer : pyexn + json) (channels : gmap Z directory_channel)
  : gmap Z directory_channel * option pyexn :=
  match (res <- answer ;; streams_of res) with
  | inl e => (channels, Some e)
  | inr streams => add_streams streams channels
  end.

(** The first campaign of the inventory with the game of that name gives
    the game; [games] are the games of the campaigns, in their order. *)
Definition find_game (games : list Game) (name : string) : option Game :=
  List.find (fun g => String.eqb (game_name g) name) games.

(** [GQL_OPERATIONS["GameDirectory"].with_variables({...})] *)
Definition directory_call (g : Game) : event :=
  Gql "GameDirectory"
    [("slug", slug g); ("options", JObj [("tags", JArr [JStr "Drops Enabled"])])].

(** [for game_name in priority_games: ...]; [answers n] is what the
    [n]-th request of the search does. *)
Fixpoint search (answers : nat -> pyexn + json) (n : nat) (games : list Game)
    (priority_games : list string) (channels : gmap Z directory_channel)
  : gmap Z directory_channel * list event * Drops.ending :=
  match priority_games with
  | [] => (channels, [], Drops.Returns)
  | name :: rest =>
      match find_game games name with
      | None => search answers n games rest channels
      | Some game_obj =>
          let '(channels1, raised) := try_body (answers n) channels in
          let go_on :=
            let '(channels2, ev, e) := search answers (S n) games rest channels1 in
            (channels2, directory_call game_obj :: ev, e) in
          match raised with
          | None => go_on
          | Some e =>
              if is_GQLException e then go_on
              else (channels1, [directory_call game_obj], Drops.Raises e)
          end
      end
  end.

(** [AccountWorker.fetch_channels]: [self.channels] afterwards, the
    requests made, and how the call ends. *)
Definition fetch_channels (answers : nat -> pyexn + json) (games : list Game)
    (priority_games : list string)
  : gmap Z directory_channel * list event * Drops.ending :=
  search answers 0 games priority_games ∅.
End Python.

(** The requests of the directory in a trace. *)
Definition is_directory_call (ev : event) : bool :=
  match ev with
  | Gql op _ => String.eqb op "GameDirectory"
  | _ => false
  end.

Definition directory_calls (tr : list event) : nat :=
  length (List.filter is_directory_call tr).

(** The priority games that a campaign of the inventory is for. *)
Definition known_games (games : list Game) (priority_games : list string) : list string :=
  List.filter (fun name => match find_game games name with Some _ => true | None => false end)
    priority_games.

(** An answer whose handling raises nothing but a [GQLException]. *)
Definition refused_or_read (py_int : json -> pyexn + Z) (slice_of_dict : pyexn)
    (answer : pyexn + json) : Prop :=
  forall channels,
    match snd (try_body py_int slice_of_dict answer channels) with
    | Some e => is_GQLException e = true
    | None => True
    end.

(** Example data: [int] on strings of one digit and on numbers. *)
Definition int_example (v : json) : pyexn + Z :=
  match v with
  | JNum n => inr n
  | JStr "7" => inr 7%Z
  | JStr "8" => inr 8%Z
  | JStr _ => inl OtherError
  | _ => inl TypeError
  end.

Definition game_example : Game :=
  {| game_id := JStr "1"; game_name := "Game"; slug := JStr "game" |}.

Definition edge_example (i : string) : json :=
  JObj [("node",
         JObj [("broadcaster",
                JObj [("id", JStr i); ("login", JStr "streamer");
                      ("displayName", JStr "Streamer")]);
               ("game", JObj [("id", JStr "1"); ("displayName", JStr "Game")])])].

Definition directory_example : json :=
  JObj [("data",
         JObj [("game",
                JObj [("streams",
                       JObj [("edges", JArr [edge_example "7"; edge_example "8"])])])])].

(** The answer for a slug the directory does not know. *)
Definition no_such_game : json := JObj [("data", JObj [("game", JNull)])].
End Channels.

(** ** _initialize_session *)

Module Identity.
Import Json.
Local Open Scope string_scope.

(** What [_initialize_session] writes: [self.user_id] and
    [self.username]; [None] is [JNull]. *)
Record identity : Type := {
  user_id : option Z;
  username : json
}.

(** The identity used when the query of the current user fails. *)
Definition default_user_id : Z := 1078207120.
Definition default_username : string := "psdpz51".

(** An account without name and user id, and one with a name. *)
Definition nobody : identity := {| user_id := None; username := JNull |}.
Definition named (n : string) : identity := {| user_id := None; username := JStr n |}.

(** The answers of the network: the status of the validation request, or
    the exception with which [self.request] fails; what
    [await resp.json()] gives there, or the exception that leaves the
    [async with] block when it fails; and what [gql_request] does with the
    [Current_user] operation. *)
Record identity_net : Type := {
  validate_status : pyexn + Z;
  validate_body : pyexn + json;
  current_user : pyexn + json
}.

Definition invalid_token : pyexn := MinerException "auth token invalid or expired".

Section Python.
(** [int(x)] on a value of the answer. *)
Variable py_int : json -> pyexn + Z.

(** The branch with an [auth_token]. *)
Definition validate (net : identity_net) (me : identity) : identity * Drops.ending :=
  match validate_status net with
  | inl e => (me, Drops.Raises e)
  | inr status =>
      if (status =? 401)%Z then (me, Drops.Raises invalid_token)
      else
        match (data <- validate_body net ;;
               i <- item data "user_id" ;;
               n <- py_int i ;;
               inr (data, n)) with
        | inl e => (me, Drops.Raises e)
        | inr (data, n) =>
            if negb (truthy (username me)) then
              match get data "login" JNull with
              | inl e => ({| user_id := Some n; username := username me |}, Drops.Raises e)
              | inr l => ({| user_id := Some n; username := l |}, Drops.Returns)
              end
            else ({| user_id := Some n; username := username me |}, Drops.Returns)
        end
  end.

(** The body of the [try] of the branch without an [auth_token]: the
    identity when it ends, and the exception that ends it, if any. *)
Definition ask_current_user (net : identity_net) (me : identity) : identity * option pyexn :=
  match (res <- current_user net ;;
         data <- item res "data" ;;
         user <- item data "currentUser" ;;
         i <- item user "id" ;;
         py_int i) with
  | inl e => (me, Some e)
  | inr n =>
      let me1 := {| user_id := Some n; username := username me |} in
      if negb (truthy (username me)) then
        match (res <- current_user net ;;
               data <- item res "data" ;;
               user <- item data "currentUser" ;;
               item user "login") with
        | inl e => (me1, Some e)
        | inr l => ({| user_id := Some n; username := l |}, None)
        end
      else (me1, None)
  end.

(** The branch without an [auth_token], with its [except Exception]. *)
Definition without_token (net : identity_net) (me : identity) : identity * Drops.ending :=
  match ask_current_user net me with
  | (me1, None) => (me1, Drops.Returns)
  | (me1, Some e) =>
      if is_Exception e
      then ({| user_id := Some default_user_id; username := JStr default_username |},
            Drops.Returns)
      else (me1, Drops.Raises e)
  end.

(** [AccountWorker._initialize_session]; [has_token] is
    ["auth_token" in self.config]. *)
Definition _initialize_session (has_token : bool) (net : identity_net) (me : identity)
  : identity * Drops.ending :=
  if has_token then validate net me else without_token net me.
End Python.
End Identity.

(** ** The browser headers of the worker *)

Module Headers.
Import Session.
Local Open Scope string_scope.

(** [bool(v)] for a value that is a string or [None]. *)
Definition truthy (v : option string) : bool :=
  match v with
  | Some s => negb (String.eqb s EmptyString)
  | None => false
  end.







End Headers.
(** * Theorems *)

(** ** ExponentialBackoff *)

Section BackoffFacts.
Import Backoff.
Local Open Scope Z_scope.

Lemma advance_fields (k : nat) (b : ExponentialBackoff) :
  advance k b = {| _base := _base b; _exp := _exp b + Z.of_nat k; _max := _max b |}.
Proof.
  revert b. induction k as [|k IH]; intros b.
  - destruct b; cbn. f_equal. lia.
  - cbn [advance]. rewrite IH. unfold next.
    destruct (float_of_int _); cbn; f_equal; lia.
Qed.

Lemma float_of_int_pow2 (e : Z) :
  0 <= e -> float_of_int (2 ^ e) = if 1024 <=? e then inl OverflowError else inr (2 ^ e).
Proof.
  intros He. unfold float_of_int.
  rewrite Z.abs_eq by (apply Z.pow_nonneg; lia).
  destruct (Z.leb_spec 1024 e) as [Hle|Hlt].
  - destruct (Z.leb_spec (2 ^ 1024) (2 ^ e)) as [_|H]; [reflexivity|].
    exfalso. assert (2 ^ 1024 <= 2 ^ e) by (apply Z.pow_le_mono_r; lia). lia.
  - destruct (Z.leb_spec (2 ^ 1024) (2 ^ e)) as [H|_]; [|reflexivity].
    exfalso. assert (2 ^ e < 2 ^ 1024) by (apply Z.pow_lt_mono_r; lia). lia.
Qed.

Lemma next_new_fields (e : Z) :
  0 <= e ->
  next {| _base := 1; _exp := e; _max := 60 |} =
    ({| _base := 1; _exp := e + 1; _max := 60 |},
     if 1024 <=? e + 1 then NextRaises OverflowError
     else Next (Z.min (1 * 2 ^ (e + 1)) 60)).
Proof.
  intros He. unfold next. cbn [_base _exp _max].
  rewrite float_of_int_pow2 by lia.
  destruct (1024 <=? e + 1); reflexivity.
Qed.

(** Up to call 1023 the iterator yields [min(base * 2^k, cap)]. *)
Lemma delay_of_attempt_in_range (k : nat) :
  (1 <= k <= 1023)%nat ->
  delay_of_attempt k = Next (Z.min (1 * 2 ^ Z.of_nat k) 60).
Proof.
  intros Hk. destruct k as [|k]; [lia|].
  unfold delay_of_attempt. rewrite advance_fields. cbn [new _base _exp _max].
  rewrite next_new_fields by lia. cbn [snd].
  replace (0 + Z.of_nat k + 1) with (Z.of_nat (S k)) by lia.
  destruct (Z.leb_spec 1024 (Z.of_nat (S k))); [lia|reflexivity].
Qed.

(** From call 1024 on, every call raises. *)
Lemma delay_of_attempt_beyond (k : nat) :
  (1024 <= k)%nat -> delay_of_attempt k = NextRaises OverflowError.
Proof.
  intros Hk. destruct k as [|k]; [lia|].
  unfold delay_of_attempt. rewrite advance_fields. cbn [new _base _exp _max].
  rewrite next_new_fields by lia. cbn [snd].
  destruct (Z.leb_spec 1024 (0 + Z.of_nat k + 1)); [reflexivity|lia].
Qed.

(** The iterator never signals its end. *)
Lemma next_never_stops (b : ExponentialBackoff) : snd (next b) <> StopIteration.
Proof. unfold next. destruct (float_of_int _); cbn; discriminate. Qed.
End BackoffFacts.

(** C3: the delays of attempts 1 to 5 are [2, 4, 8, 16, 32], but the delay
  of attempt [k] is not [min(2^k, 60)] for every [k >= 1]: call number 1024
  of [__next__] raises [OverflowError] where the claim promises 60. *)
Theorem backoff_overflows_at_attempt_1024 :
Backoff.take_delays 5 Backoff.new = [2; 4; 8; 16; 32]%Z /\
Backoff.delay_of_attempt 1023 = Backoff.Next 60%Z /\
Backoff.delay_of_attempt 1024 = Backoff.NextRaises OverflowError /\
Backoff.delay_of_attempt 1024 <> Backoff.Next (Z.min (1 * 2 ^ 1024) 60)%Z.
Proof.
split; [vm_compute; reflexivity|].
split; [rewrite delay_of_attempt_in_range by lia; vm_compute; reflexivity|].
rewrite delay_of_attempt_beyond by lia. split; [reflexivity|discriminate].
Qed.

(** ** The retry loop *)

Section RequestFacts.
Import Backoff Request.
Local Open Scope Z_scope.

Variable net : nat -> attempt_outcome.

(** One unrolling of the loop on a transient outcome. *)
Lemma retry_loop_transient {St : Type} (nxt : St -> St * next_result)
    (fuel n : nat) (b b' : St) (delay : Z) :
  nxt b = (b', Next delay) ->
  transient (net n) = true ->
  retry_loop nxt net (S fuel) n b =
    (Issue n :: Sleep delay :: fst (retry_loop nxt net fuel (S n) b'),
     snd (retry_loop nxt net fuel (S n) b')).
Proof.
  intros Hnxt Htr. cbn [retry_loop]. rewrite Hnxt.
  destruct (net n) as [status| |]; cbn [transient] in Htr.
  - rewrite Htr. destruct (retry_loop nxt net fuel (S n) b'); reflexivity.
  - destruct (retry_loop nxt net fuel (S n) b'); reflexivity.
  - destruct (retry_loop nxt net fuel (S n) b'); reflexivity.
Qed.

(** One unrolling of the loop on any other outcome. *)
Lemma retry_loop_yield {St : Type} (nxt : St -> St * next_result)
    (fuel n : nat) (b b' : St) (delay status : Z) :
  nxt b = (b', Next delay) ->
  net n = Response status ->
  status < 500 ->
  retry_loop nxt net (S fuel) n b = ([Issue n], Yielded n status).
Proof.
  intros Hnxt Hnet Hst. cbn [retry_loop]. rewrite Hnxt, Hnet.
  destruct (Z.leb_spec 500 status); [lia|reflexivity].
Qed.

(** An unrolling that has a delay starts with an attempt. *)
Lemma retry_loop_issues_first {St : Type} (nxt : St -> St * next_result)
    (fuel n : nat) (b b' : St) (delay : Z) :
  nxt b = (b', Next delay) ->
  exists tr, fst (retry_loop nxt net (S fuel) n b) = Issue n :: tr.
Proof.
  intros Hnxt. cbn [retry_loop]. rewrite Hnxt.
  destruct (net n) as [status| |].
  - destruct (500 <=? status).
    + destruct (retry_loop nxt net fuel (S n) b'). eexists. reflexivity.
    + eexists. reflexivity.
  - destruct (retry_loop nxt net fuel (S n) b'). eexists. reflexivity.
  - destruct (retry_loop nxt net fuel (S n) b'). eexists. reflexivity.
Qed.

Hypothesis all_transient : forall n, transient (net n) = true.

(** With every attempt failing, the loop started with exponent [e] runs
    until the iterator raises, [1023 - e] attempts later. *)
Lemma retry_loop_all_transient (fuel : nat) :
  forall (n : nat) (e : Z), 0 <= e <= 1023 ->
  let r := retry_loop Backoff.next net fuel n {| _base := 1; _exp := e; _max := 60 |} in
  (Z.of_nat fuel <= 1023 - e ->
     snd r = Retrying /\ issues (fst r) = fuel) /\
  (1023 - e < Z.of_nat fuel ->
     snd r = Raised OverflowError /\ Z.of_nat (issues (fst r)) = 1023 - e).
Proof.
  induction fuel as [|fuel IH]; intros n e He r; subst r.
  - cbn. split; [auto|lia].
  - destruct (Z.eq_dec e 1023) as [->|Hne].
    + cbn [retry_loop]. rewrite next_new_fields by lia.
      change (1024 <=? 1023 + 1) with true. cbv iota. cbn.
      split; [lia|auto].
    + assert (Hnx : Backoff.next {| _base := 1; _exp := e; _max := 60 |} =
                ({| _base := 1; _exp := e + 1; _max := 60 |},
                 Next (Z.min (1 * 2 ^ (e + 1)) 60))).
      { rewrite next_new_fields by lia.
        destruct (Z.leb_spec 1024 (e + 1)); [lia|reflexivity]. }
      rewrite (retry_loop_transient _ _ _ _ _ _ Hnx (all_transient n)).
      cbn [fst snd]. specialize (IH (S n) (e + 1) ltac:(lia)). cbv zeta in IH.
      destruct IH as [IH1 IH2]. unfold issues in *. cbn [List.filter List.length].
      split; intros H.
      * destruct IH1 as [-> Hlen]; [lia|]. rewrite Hlen. auto.
      * destruct IH2 as [-> Hlen]; [lia|]. split; [reflexivity|lia].
Qed.
End RequestFacts.

(** C1: when every attempt fails transiently the retry loop does stop after
    finitely many attempts, but never with [RequestException]: after 1023
    attempts the delay iterator raises [OverflowError], and before that the
    loop is still retrying.  The [raise RequestException] after the loop is
    not reached. *)
Theorem request_all_transient_never_exhausted (net : nat -> Request.attempt_outcome) :
  (forall n, Request.transient (net n) = true) ->
  (forall fuel msg,
     snd (Request.request fuel net) <> Request.Raised (RequestException msg)) /\
  (forall fuel, (fuel < 1024)%nat ->
     snd (Request.request fuel net) = Request.Retrying /\
     Request.issues (fst (Request.request fuel net)) = fuel) /\
  (forall fuel, (1024 <= fuel)%nat ->
     snd (Request.request fuel net) = Request.Raised OverflowError /\
     Request.issues (fst (Request.request fuel net)) = 1023%nat).
Proof.
  intros Hall.
  assert (H := fun fuel => retry_loop_all_transient net Hall fuel 0%nat 0%Z ltac:(lia)).
  cbv zeta in H. fold Backoff.new in H.
  change (forall fuel,
    (Z.of_nat fuel <= 1023 - 0 ->
       snd (Request.request fuel net) = Request.Retrying /\
       Request.issues (fst (Request.request fuel net)) = fuel) /\
    (1023 - 0 < Z.of_nat fuel ->
       snd (Request.request fuel net) = Request.Raised OverflowError /\
       Z.of_nat (Request.issues (fst (Request.request fuel net))) = 1023 - 0))%Z in H.
  split; [|split].
  - intros fuel msg. destruct (H fuel) as [H1 H2].
    destruct (Nat.lt_ge_cases fuel 1024) as [Hlt|Hge].
    + destruct H1 as [-> _]; [lia|discriminate].
    + destruct H2 as [-> _]; [lia|discriminate].
  - intros fuel Hlt. apply (H fuel). lia.
  - intros fuel Hge. destruct (H fuel) as [_ [-> Hn]]; [lia|]. split; [reflexivity|lia].
Qed.

Lemma request_all_transient_never_exhausted_witness :
  (forall n, Request.transient (Request.always_503 n) = true) /\
  snd (Request.request 2000 Request.always_503) = Request.Raised OverflowError /\
  Request.issues (fst (Request.request 2000 Request.always_503)) = 1023%nat.
Proof.
  split; [intros n; reflexivity|].
  apply (request_all_transient_never_exhausted Request.always_503); [intros n; reflexivity|lia].
Defined.

(** One attempt of the loop, for any state of the iterator that gives a
    delay: a status of 500 or more, or a network or timeout error, is
    answered by a sleep of that delay, and the next attempt is issued when
    the iterator gives a delay again; any other status is yielded on that
    attempt, with no sleep. *)
Lemma retry_loop_attempt_step
    (net : nat -> Request.attempt_outcome) (fuel n : nat)
    (b b' : Backoff.ExponentialBackoff) (delay : Z) :
  Backoff.next b = (b', Backoff.Next delay) ->
  (Request.transient (net n) = true ->
     Request.retry_loop Backoff.next net (S fuel) n b =
       (Request.Issue n :: Request.Sleep delay ::
          fst (Request.retry_loop Backoff.next net fuel (S n) b'),
        snd (Request.retry_loop Backoff.next net fuel (S n) b'))) /\
  (Request.transient (net n) = true ->
     forall b'' delay', Backoff.next b' = (b'', Backoff.Next delay') ->
     exists tr,
       fst (Request.retry_loop Backoff.next net (S (S fuel)) n b) =
         Request.Issue n :: Request.Sleep delay :: Request.Issue (S n) :: tr) /\
  (forall status, net n = Request.Response status -> (status < 500)%Z ->
     Request.retry_loop Backoff.next net (S fuel) n b =
       ([Request.Issue n], Request.Yielded n status)).
Proof.
  intros Hnxt. split; [|split].
  - intros Htr. exact (retry_loop_transient net Backoff.next fuel n b b' delay Hnxt Htr).
  - intros Htr b'' delay' Hnxt'.
    rewrite (retry_loop_transient net Backoff.next (S fuel) n b b' delay Hnxt Htr).
    destruct (retry_loop_issues_first net Backoff.next fuel (S n) b' b'' delay' Hnxt')
      as [tr Htr'].
    exists tr. cbn [fst]. now rewrite Htr'.
  - intros status Hnet Hst.
    exact (retry_loop_yield net Backoff.next fuel n b b' delay status Hnxt Hnet Hst).
Qed.

Section RequestPrefix.
Import Backoff Request.
Local Open Scope Z_scope.

Variable net : nat -> attempt_outcome.

Lemma next_in_range (e : Z) :
  0 <= e < 1023 ->
  Backoff.next {| _base := 1; _exp := e; _max := 60 |} =
    ({| _base := 1; _exp := e + 1; _max := 60 |}, Next (Z.min (1 * 2 ^ (e + 1)) 60)).
Proof.
  intros He. rewrite next_new_fields by lia.
  destruct (Z.leb_spec 1024 (e + 1)); [lia|reflexivity].
Qed.

(** A run of [k] failing attempts, from exponent [e]: the loop makes them
    and goes on from attempt [n0 + k] with exponent [e + k]. *)
Lemma retry_loop_prefix (k : nat) :
  forall (fuel n0 : nat) (e : Z),
  0 <= e -> e + Z.of_nat k <= 1023 ->
  (forall m, (n0 <= m < n0 + k)%nat -> transient (net m) = true) ->
  exists pre,
    issues pre = k /\
    retry_loop Backoff.next net (k + fuel) n0 {| _base := 1; _exp := e; _max := 60 |} =
      (pre ++ fst (retry_loop Backoff.next net fuel (n0 + k)
                     {| _base := 1; _exp := e + Z.of_nat k; _max := 60 |}),
       snd (retry_loop Backoff.next net fuel (n0 + k)
              {| _base := 1; _exp := e + Z.of_nat k; _max := 60 |})).
Proof.
  induction k as [|k IH]; intros fuel n0 e He Hbound Hfail.
  - exists []. split; [reflexivity|].
    rewrite Nat.add_0_r, Z.add_0_r. cbn [Nat.add app].
    now destruct (retry_loop _ _ _ _ _).
  - cbn [Nat.add].
    rewrite (retry_loop_transient net Backoff.next (k + fuel) n0 _ _ _
               (next_in_range e ltac:(lia)) (Hfail n0 ltac:(lia))).
    destruct (IH fuel (S n0) (e + 1)) as (pre & Hiss & Hrun); try lia.
    { intros m Hm. apply Hfail. lia. }
    rewrite Hrun. cbn [fst snd].
    replace (S n0 + k)%nat with (n0 + S k)%nat by lia.
    replace (e + 1 + Z.of_nat k) with (e + Z.of_nat (S k)) by lia.
    exists (Issue n0 :: Sleep (Z.min (1 * 2 ^ (e + 1)) 60) :: pre).
    split; [|reflexivity].
    unfold issues in *. cbn [List.filter List.length]. now rewrite Hiss.
Qed.
End RequestPrefix.

(** C4: on an attempt of [request] that is reached (every attempt before
    it failed), a status below 500 is yielded on that attempt, with no
    sleep, no retry and no error; a status of 500 or more, or a network or
    timeout error, is answered by a sleep of the current delay and a new
    attempt on each of the attempts 1 to 1022.  On attempt 1023 it is not:
    the loop sleeps 60 seconds and then, where the claim has a retry, the
    iterator raises [OverflowError], which leaves [request]; attempt 1024
    is never issued. *)
Theorem request_attempt_1023_not_retried (net : nat -> Request.attempt_outcome) (n : nat) :
  (n <= 1022)%nat ->
  (forall m, (m < n)%nat -> Request.transient (net m) = true) ->
  (forall status, net n = Request.Response status -> (status < 500)%Z ->
     forall fuel, (n < fuel)%nat ->
     exists pre,
       Request.request fuel net =
         (pre ++ [Request.Issue n], Request.Yielded n status) /\
       Request.issues pre = n) /\
  (Request.transient (net n) = true -> (n < 1022)%nat ->
     forall fuel, (S n < fuel)%nat ->
     exists pre post,
       fst (Request.request fuel net) =
         pre ++ Request.Issue n :: Request.Sleep (Z.min (2 ^ Z.of_nat (S n)) 60) ::
                Request.Issue (S n) :: post /\
       Request.issues pre = n) /\
  (Request.transient (net n) = true -> n = 1022%nat ->
     forall fuel, (1023 < fuel)%nat ->
     exists pre,
       Request.request fuel net =
         (pre ++ [Request.Issue 1022; Request.Sleep 60], Request.Raised OverflowError) /\
       Request.issues pre = 1022%nat).
Proof.
  intros Hn Hfail.
  assert (Hpre : forall fuel, exists pre,
            Request.issues pre = n /\
            Request.request (n + fuel) net =
              (pre ++ fst (Request.retry_loop Backoff.next net fuel n
                             {| Backoff._base := 1; Backoff._exp := Z.of_nat n;
                                Backoff._max := 60 |}),
               snd (Request.retry_loop Backoff.next net fuel n
                      {| Backoff._base := 1; Backoff._exp := Z.of_nat n;
                         Backoff._max := 60 |}))).
  { intros fuel.
    destruct (retry_loop_prefix net n fuel 0 0%Z) as (pre & Hiss & Hrun); try lia.
    { intros m Hm. apply Hfail. lia. }
    exists pre. split; [exact Hiss|]. exact Hrun. }
  split; [|split].
  - intros status Hnet Hst fuel Hfuel.
    destruct (Hpre (fuel - n)%nat) as (pre & Hiss & Hrun).
    replace (n + (fuel - n))%nat with fuel in Hrun by lia.
    destruct (fuel - n)%nat as [|fuel'] eqn:Hf; [lia|].
    rewrite (retry_loop_yield net Backoff.next fuel' n _ _ _ status
               (next_in_range (Z.of_nat n) ltac:(lia)) Hnet Hst) in Hrun.
    exists pre. split; [exact Hrun|exact Hiss].
  - intros Htr Hlt fuel Hfuel.
    destruct (Hpre (fuel - n)%nat) as (pre & Hiss & Hrun).
    replace (n + (fuel - n))%nat with fuel in Hrun by lia.
    destruct (fuel - n)%nat as [|[|fuel']] eqn:Hf; [lia|lia|].
    rewrite (retry_loop_transient net Backoff.next (S fuel') n _ _ _
               (next_in_range (Z.of_nat n) ltac:(lia)) Htr) in Hrun.
    destruct (retry_loop_issues_first net Backoff.next fuel' (S n) _ _ _
                (next_in_range (Z.of_nat n + 1) ltac:(lia))) as [post Hpost].
    rewrite Hrun. cbn [fst]. rewrite Hpost.
    exists pre, post. split; [|exact Hiss].
    replace (Z.of_nat n + 1)%Z with (Z.of_nat (S n)) by lia.
    now rewrite Z.mul_1_l.
  - intros Htr -> fuel Hfuel.
    destruct (Hpre (fuel - 1022)%nat) as (pre & Hiss & Hrun).
    replace (1022 + (fuel - 1022))%nat with fuel in Hrun by lia.
    destruct (fuel - 1022)%nat as [|[|fuel']] eqn:Hf; [lia|lia|].
    rewrite (retry_loop_transient net Backoff.next (S fuel') 1022 _ _ _
               (next_in_range (Z.of_nat 1022) ltac:(lia)) Htr) in Hrun.
    cbn [Request.retry_loop] in Hrun.
    rewrite (next_new_fields (Z.of_nat 1022 + 1)) in Hrun by lia.
    change (1024 <=? Z.of_nat 1022 + 1 + 1)%Z with true in Hrun. cbv iota in Hrun.
    cbn [fst snd] in Hrun.
    replace (Z.min (1 * 2 ^ (Z.of_nat 1022 + 1)) 60)%Z with 60%Z in Hrun
      by (vm_compute; reflexivity).
    exists pre. split; [exact Hrun|exact Hiss].
Qed.

Lemma request_attempt_1023_not_retried_witness :
  exists pre,
    Request.request 2000 Request.always_503 =
      (pre ++ [Request.Issue 1022; Request.Sleep 60], Request.Raised OverflowError) /\
    Request.issues pre = 1022%nat.
Proof.
  destruct (request_attempt_1023_not_retried Request.always_503 1022)
    as (_ & _ & Hlast); [lia|intros m Hm; reflexivity|].
  apply Hlast; [reflexivity|reflexivity|lia].
Defined.

(** ** Text operations *)

Section TextFacts.
Import Text.
Local Open Scope string_scope.
Local Arguments String.append !_ _ / : simpl nomatch.

Lemma append_empty_r (s : string) : s ++ EmptyString = s.
Proof. induction s as [|c s IH]; cbn [String.append]; [reflexivity|now rewrite IH]. Qed.

Lemma append_assoc (a b c : string) : (a ++ b) ++ c = a ++ (b ++ c).
Proof.
  induction a as [|x a IH]; cbn [String.append String.length Nat.add];
    [reflexivity|now rewrite IH].
Qed.

Lemma append_length (a b : string) :
  String.length (a ++ b) = (String.length a + String.length b)%nat.
Proof.
  induction a as [|x a IH]; cbn [String.append String.length Nat.add];
    [reflexivity|now rewrite IH].
Qed.

Lemma drop_append (p s : string) : drop (String.length p) (p ++ s) = s.
Proof.
  induction p as [|x p IH]; cbn [String.append String.length drop];
    [reflexivity|exact IH].
Qed.

Lemma startswith_append (sep rest : string) : startswith sep (sep ++ rest) = true.
Proof.
  unfold startswith.
  induction sep as [|x sep IH]; cbn [String.append String.prefix];
    [destruct rest; reflexivity|].
  destruct (Ascii.ascii_dec x x) as [_|Hne]; [exact IH|congruence].
Qed.

(** The first piece of a split is the text before the first separator. *)
Lemma split_go_first (sep s cur : string) :
  first_item (split_go sep 0 cur s) = inr (cur ++ before_first sep s).
Proof.
  revert cur. induction s as [|c s IH]; intros cur.
  - cbn [split_go first_item before_first].
    destruct (startswith sep EmptyString); cbv iota; now rewrite append_empty_r.
  - cbn [split_go before_first].
    destruct (startswith sep (String c s)).
    + cbn [first_item]. now rewrite append_empty_r.
    + rewrite IH, append_assoc. reflexivity.
Qed.

Lemma split_first (sep s : string) :
  first_item (split sep s) = inr (before_first sep s).
Proof. unfold split. now rewrite split_go_first. Qed.

Lemma before_first_unfold (sep s : string) :
  before_first sep s =
    if startswith sep s then EmptyString
    else match s with
         | EmptyString => EmptyString
         | String c s' => String c (before_first sep s')
         end.
Proof. destruct s; reflexivity. Qed.

(** [before_first] finds the first occurrence: when [s] is [p], then [sep],
    then anything, and [sep] starts nowhere inside [p], the result is [p]. *)
Lemma before_first_decompose (sep p rest : string) :
  (forall i, (i < String.length p)%nat ->
     startswith sep (drop i (p ++ sep ++ rest)) = false) ->
  before_first sep (p ++ sep ++ rest) = p.
Proof.
  induction p as [|c p IH]; intros Hfirst.
  - cbn [String.append]. rewrite before_first_unfold, startswith_append. reflexivity.
  - cbn [String.append before_first].
    assert (H0 := Hfirst 0%nat ltac:(cbn; lia)). cbn [drop String.append] in H0.
    rewrite H0. f_equal. apply IH. intros i Hi.
    apply (Hfirst (S i)). cbn. lia.
Qed.

(** Without any occurrence of [sep], nothing is cut. *)
Lemma before_first_absent (sep s : string) :
  contains sep s = false -> before_first sep s = s.
Proof.
  induction s as [|c s IH]; cbn [contains before_first]; intros H.
  - now destruct (startswith sep EmptyString).
  - destruct (startswith sep (String c s)); [discriminate|].
    now rewrite IH.
Qed.
End TextFacts.

(** ** Endpoint discovery *)

(** When the page has no match and the fallback finds [u], the discovery
    returns [u] and caches it. *)
Lemma get_spade_url_from_fallback (c : Watch.Channel) (net : Spade.discovery_net)
    (text u : string) :
  Watch.cached_spade_url c = None ->
  Spade.page net = inr text ->
  Spade.first_match [Spade.spade_pattern; Spade.segment_pattern] text = None ->
  Spade.token_fallback net = inr (Some u) ->
  snd (Watch.get_spade_url c net) = inr u /\
  Watch._spade_url (fst (fst (Watch.get_spade_url c net))) = Some u.
Proof.
  intros Hcache Hpage Hmatch Hfall. unfold Watch.get_spade_url.
  rewrite Hcache, Hpage, Hmatch, Hfall. split; reflexivity.
Qed.

(** C2, as the code has it: for a playlist with no [spade_url] field whose
    last line is not a comment and is a [video-edge-] URL, the endpoint is
    that URL cut at its FIRST [/index] (all of it when there is none), with
    [/ping] appended. *)
Theorem spade_url_from_last_line (playlist_text stream_url : string) :
  Regex.search Spade.spade_pattern playlist_text = None ->
  Text.last_item (Text.split Text.newline (Text.strip playlist_text)) = inr stream_url ->
  Text.startswith "#" stream_url = false ->
  Text.contains "video-edge-" stream_url = true ->
  Spade.from_playlist playlist_text =
    inr (Some (Text.before_first "/index" stream_url ++ "/ping")%string).
Proof.
  intros Hsearch Hlast Hcomment Hedge.
  unfold Spade.from_playlist, Spade.derive_from_last_line.
  rewrite Hsearch.
  destruct (Text.split Text.newline (Text.strip playlist_text)) as [|l ls] eqn:Hlines.
  - discriminate Hlast.
  - rewrite Hlast. cbn [bind_exn]. rewrite Hcomment, Hedge. cbn [negb].
    rewrite split_first. reflexivity.
Qed.

Lemma spade_url_from_last_line_witness :
  Spade.from_playlist Spade.playlist_usual =
    inr (Some "https://video-edge-c2a.fra02.abs.hls.ttvnw.net/v1/playlist/chunked/ping"%string).
Proof.
  exact (spade_url_from_last_line Spade.playlist_usual
           "https://video-edge-c2a.fra02.abs.hls.ttvnw.net/v1/playlist/chunked/index-dvr.m3u8"
           eq_refl eq_refl eq_refl eq_refl).
Defined.

(** C2, as it is worded, fails: on a stream URL with [/index] twice the code
    cuts at the first one, not at the last. *)
Lemma spade_url_not_at_last_index : ~ Spade.derives_at_last_index.
Proof.
  intros H.
  specialize (H Spade.playlist_two_index
                "https://video-edge-a.example/index/chunked/index-dvr.m3u8"%string
                eq_refl eq_refl eq_refl).
  vm_compute in H. discriminate H.
Qed.

(** ** The operation registry *)

Section RegistryFacts.
Import Registry Json.

Lemma insert_last (st : list obj) (x y : obj) :
  <[length st := x]> (st ++ [y]) = st ++ [x].
Proof. rewrite insert_app_r_alt by lia. now rewrite Nat.sub_diag. Qed.

Lemma lookup_two_more (st : list obj) (x y : obj) (l : nat) :
  l < length st -> ((st ++ [x]) ++ [y]) !! l = st !! l.
Proof.
  intros Hl. rewrite lookup_app_l by (rewrite ?length_app; simpl; lia).
  now rewrite lookup_app_l.
Qed.

Lemma lookup_last (st : list obj) (x : obj) : (st ++ [x]) !! length st = Some x.
Proof. now apply list_lookup_middle. Qed.

Lemma variables_of_two_more (st : list obj) (x y : obj) (self : nat)
    (d : gmap string json) :
  variables_of st self = Some d -> variables_of ((st ++ [x]) ++ [y]) self = Some d.
Proof.
  unfold variables_of. intros H.
  destruct (st !! self) as [[n s [l|]| items]|] eqn:Hself; try discriminate.
  - destruct (st !! l) as [[| items]|] eqn:Hl; try discriminate.
    rewrite lookup_two_more, Hself by (eapply lookup_lt_Some; eauto).
    rewrite lookup_two_more, Hl by (eapply lookup_lt_Some; eauto). exact H.
  - rewrite lookup_two_more, Hself by (eapply lookup_lt_Some; eauto). exact H.
Qed.

End RegistryFacts.

(** C8: [with_variables] returns a new operation with the same name and the
    same hash, whose variables are the base variables overlaid by [extra]
    ([extra] wins on a key both have); the new operation and its variables
    are new objects, and no object of the store, the operation and its
    variables among them, is changed. *)
Theorem with_variables_overlay (st : list Registry.obj) (self : nat) (name sha : string)
    (vars : option nat) (extra d : gmap string Json.json) :
  st !! self = Some (Registry.OpObj name sha vars) ->
  Registry.variables_of st self = Some d ->
  exists (st' : list Registry.obj) (new nv : nat),
    Registry.with_variables st self extra = inr (st', new) /\
    st' !! new = Some (Registry.OpObj name sha (Some nv)) /\
    st' !! nv = Some (Registry.DictObj (extra ∪ d)) /\
    (forall k, (extra ∪ d) !! k =
               match extra !! k with Some v => Some v | None => d !! k end) /\
    length st <= new /\ length st <= nv /\
    (forall l, l < length st -> st' !! l = st !! l) /\
    Registry.variables_of st' self = Some d.
Proof.
  intros Hself Hvars.
  assert (Hunion : forall k, (extra ∪ d) !! k =
               match extra !! k with Some v => Some v | None => d !! k end).
  { intros k. rewrite lookup_union. destruct (extra !! k), (d !! k); reflexivity. }
  assert (Hvars' := Hvars).
  unfold Registry.variables_of in Hvars. rewrite Hself in Hvars.
  unfold Registry.with_variables. rewrite Hself.
  destruct vars as [l|].
  - destruct (st !! l) as [[| items]|] eqn:Hl; try discriminate.
    injection Hvars as ->.
    cbv beta iota zeta delta [Registry.alloc Registry.GQLOperation].
    rewrite insert_last.
    eexists _, _, _. split; [reflexivity|].
    split; [apply lookup_last|].
    split; [rewrite lookup_app_l by (rewrite ?length_app; simpl; lia); apply lookup_last|].
    split; [exact Hunion|].
    split; [rewrite ?length_app; simpl; lia|].
    split; [lia|].
    split; [intros l0 Hl0; now apply lookup_two_more|].
    now apply variables_of_two_more.
  - injection Hvars as <-.
    cbv beta iota zeta delta [Registry.alloc Registry.GQLOperation].
    rewrite lookup_last. rewrite insert_last.
    assert (Hlt : self < length st) by (eapply lookup_lt_Some; eauto).
    eexists _, _, _. split; [reflexivity|].
    split; [apply lookup_last|].
    split; [rewrite lookup_app_l by (rewrite ?length_app; simpl; lia); apply lookup_last|].
    split; [exact Hunion|].
    split; [rewrite ?length_app; simpl; lia|].
    split; [rewrite ?length_app; simpl; lia|].
    assert (Hold : forall l, l < length st ->
              (((st ++ [Registry.DictObj ∅]) ++ [Registry.DictObj (extra ∪ ∅)]) ++
               [Registry.OpObj name sha (Some (length (st ++ [Registry.DictObj ∅])))]) !! l = st !! l).
    { intros l Hl. rewrite lookup_app_l by (rewrite ?length_app; simpl; lia).
      now apply lookup_two_more. }
    split; [exact Hold|].
    unfold Registry.variables_of. rewrite Hold, Hself by exact Hlt. reflexivity.
Qed.

Lemma with_variables_overlay_witness :
  exists (st' : list Registry.obj) (new nv : nat),
    Registry.with_variables Registry.store_with_slug 9
      {[ "slug" := Json.JStr "new" ]} = inr (st', new) /\
    st' !! new =
      Some (Registry.OpObj "DirectoryPage_Game"
              "c7c9d5aad09155c4161d2382092dc44610367f3536aac39019ec2582ae5065f9"
              (Some nv)) /\
    st' !! nv =
      Some (Registry.DictObj
              ({[ "slug" := Json.JStr "new" ]} ∪
               {[ "slug" := Json.JStr "old"; "limit" := Json.JNum 30 ]})) /\
    Registry.variables_of st' 9 =
      Some {[ "slug" := Json.JStr "old"; "limit" := Json.JNum 30 ]}.
Proof.
  destruct (with_variables_overlay Registry.store_with_slug 9
              "DirectoryPage_Game"
              "c7c9d5aad09155c4161d2382092dc44610367f3536aac39019ec2582ae5065f9"
              (Some 8%nat) {[ "slug" := Json.JStr "new" ]}
              {[ "slug" := Json.JStr "old"; "limit" := Json.JNum 30 ]}
              eq_refl eq_refl)
    as (st' & new & nv & Hrun & Hnew & Hnv & _ & _ & _ & _ & Hself).
  exists st', new, nv. auto.
Defined.

(** ** Drops and campaigns *)

Section DropsFacts.
Import Drops Json.

Lemma drops_of_all (c : DropsCampaign) (P : TimedDrop -> bool) :
  forallb P (drops_of c) = true <->
  map_Forall (fun _ d => P d = true) (timed_drops c).
Proof.
  unfold drops_of. rewrite forallb_forall. split.
  - intros H k d Hk. apply H. apply list_elem_of_In.
    apply list_elem_of_fmap. exists (k, d). split; [reflexivity|].
    now apply elem_of_map_to_list.
  - intros H d Hd. apply list_elem_of_In in Hd.
    apply list_elem_of_fmap in Hd as [[k d'] [-> Hkd]].
    apply elem_of_map_to_list in Hkd. exact (H k d' Hkd).
Qed.

(** A drop that cannot be claimed is left alone, and nothing is sent. *)
Lemma claim_noop (answer : pyexn + json) (d : TimedDrop) :
  can_claim d = false -> claim answer d = (d, [], Returns).
Proof. intros H. unfold claim. now rewrite H. Qed.

Lemma can_claim_unclaimed (d : TimedDrop) : can_claim d = true -> is_claimed d = false.
Proof.
  unfold can_claim. destruct (claim_id d); [|discriminate].
  now destruct (is_claimed d).
Qed.
End DropsFacts.

(** C5: a campaign with at least one drop is finished exactly when every
    drop of it is claimed; a campaign with no drop is not finished. *)
Theorem finished_iff_all_claimed (c : Drops.DropsCampaign) :
  (Drops.timed_drops c <> ∅ ->
     (Drops.finished c = true <->
      forall k d, Drops.timed_drops c !! k = Some d -> Drops.is_claimed d = true)) /\
  (Drops.timed_drops c = ∅ -> Drops.finished c = false).
Proof.
  unfold Drops.finished. split.
  - intros Hne. rewrite bool_decide_eq_false_2 by exact Hne.
    apply drops_of_all.
  - intros He. now rewrite bool_decide_eq_true_2.
Qed.

Lemma finished_iff_all_claimed_witness :
  Drops.finished Drops.campaign_done = true /\
  Drops.finished Drops.campaign_empty = false.
Proof.
  split.
  - apply (proj1 (finished_iff_all_claimed Drops.campaign_done)).
    + change (Drops.timed_drops Drops.campaign_done)
        with (<["drop-1" := Drops.init_drop "Camp" Drops.drop_done_data]>
                (∅ : gmap string Drops.TimedDrop)).
      apply insert_non_empty.
    + change (Drops.timed_drops Drops.campaign_done)
        with (<["drop-1" := Drops.init_drop "Camp" Drops.drop_done_data]>
                (∅ : gmap string Drops.TimedDrop)).
      intros k d H. apply lookup_insert_Some in H as [[_ <-]|[_ H]].
      * reflexivity.
      * rewrite lookup_empty in H. discriminate H.
  - apply (proj2 (finished_iff_all_claimed Drops.campaign_empty)). reflexivity.
Defined.

(** C6: [claim] does nothing, and sends nothing, when [can_claim] is false;
    when the request succeeds the drop is claimed with its minutes watched
    equal to its minutes required, one request was sent, and a second call
    does nothing; when the request fails with an API-level error the drop is
    as it was, unclaimed. *)
Theorem claim_cases (d : Drops.TimedDrop) :
  (Drops.can_claim d = false ->
     forall answer, Drops.claim answer d = (d, [], Drops.Returns)) /\
  (Drops.can_claim d = true ->
     forall res,
       let d' := fst (fst (Drops.claim (inr res) d)) in
       snd (Drops.claim (inr res) d) = Drops.Returns /\
       Drops.claim_requests (snd (fst (Drops.claim (inr res) d))) = 1%nat /\
       Drops.is_claimed d' = true /\
       Drops.current_minutes d' = Drops.required_minutes d' /\
       Drops.required_minutes d' = Drops.required_minutes d /\
       Drops.id d' = Drops.id d /\
       Drops.claim_id d' = Drops.claim_id d /\
       Drops.campaign d' = Drops.campaign d /\
       forall answer, Drops.claim answer d' = (d', [], Drops.Returns)) /\
  (Drops.can_claim d = true ->
     forall msg,
       fst (fst (Drops.claim (inl (GQLException msg)) d)) = d /\
       snd (Drops.claim (inl (GQLException msg)) d) = Drops.Returns /\
       Drops.is_claimed d = false).
Proof.
  split; [|split].
  - intros H answer. now apply claim_noop.
  - intros H res. unfold Drops.claim at 1 2 3. rewrite H. cbn [negb fst snd].
    repeat split.
    intros answer. apply claim_noop. unfold Drops.can_claim. cbn.
    now destruct (Drops.claim_id d).
  - intros H msg. unfold Drops.claim. rewrite H. cbn [negb is_GQLException fst snd].
    repeat split. now apply can_claim_unclaimed.
Qed.

Lemma claim_cases_witness :
  Drops.is_claimed
    (fst (fst (Drops.claim (inr Json.JNull)
                 (Drops.init_drop "Camp" Drops.drop_ready_data)))) = true /\
  Drops.claim (inr Json.JNull) (Drops.init_drop "Camp" Drops.drop_done_data) =
    (Drops.init_drop "Camp" Drops.drop_done_data, [], Drops.Returns) /\
  fst (fst (Drops.claim (inl (GQLException "service error"))
              (Drops.init_drop "Camp" Drops.drop_ready_data))) =
    Drops.init_drop "Camp" Drops.drop_ready_data.
Proof.
  destruct (claim_cases (Drops.init_drop "Camp" Drops.drop_ready_data))
    as (_ & Hok & Hfail).
  destruct (claim_cases (Drops.init_drop "Camp" Drops.drop_done_data))
    as (Hnoop & _ & _).
  split; [|split].
  - exact (proj1 (proj2 (proj2 (Hok eq_refl Json.JNull)))).
  - exact (Hnoop eq_refl (inr Json.JNull)).
  - exact (proj1 (Hfail eq_refl "service error")).
Defined.

(** C7: a claimed drop has its minutes watched equal to its minutes
    required.  The constructor establishes it: it takes the minutes required
    as they are in the answer, and for a drop that the answer gives as
    claimed it sets the minutes watched to them, whatever the answer has
    for the minutes watched; for another drop it takes the minutes watched
    of the answer.  [claim], the one operation that writes to a drop, keeps
    it, whatever the request does: it never changes the minutes required,
    and when it marks the drop as claimed it sets the minutes watched to
    them. *)
Theorem drop_invariant :
  (forall campaign_name data, Drops.drop_inv (Drops.init_drop campaign_name data)) /\
  (forall answer d,
     Drops.drop_inv d -> Drops.drop_inv (fst (fst (Drops.claim answer d)))) /\
  (forall campaign_name data,
     Drops.required_minutes (Drops.init_drop campaign_name data) =
       Drops.requiredMinutesWatched data /\
     Drops.is_claimed (Drops.init_drop campaign_name data) =
       Drops.self_get data Drops.isClaimed false /\
     Drops.current_minutes (Drops.init_drop campaign_name data) =
       (if Drops.self_get data Drops.isClaimed false
        then Drops.requiredMinutesWatched data
        else Drops.self_get data Drops.currentMinutesWatched 0%Z)) /\
  (forall answer d,
     Drops.required_minutes (fst (fst (Drops.claim answer d))) = Drops.required_minutes d /\
     (Drops.is_claimed d = false ->
      Drops.is_claimed (fst (fst (Drops.claim answer d))) = true ->
      Drops.current_minutes (fst (fst (Drops.claim answer d))) = Drops.required_minutes d)).
Proof.
  split; [|split; [|split]].
  - intros campaign_name data. unfold Drops.drop_inv, Drops.init_drop.
    cbn [Drops.is_claimed Drops.current_minutes Drops.required_minutes].
    now intros ->.
  - intros answer d Hinv. unfold Drops.claim.
    destruct (Drops.can_claim d); cbn [negb]; [|exact Hinv].
    destruct answer as [e|res]; [destruct (is_GQLException e); exact Hinv|].
    unfold Drops.drop_inv. reflexivity.
  - intros campaign_name data. unfold Drops.init_drop.
    cbn [Drops.is_claimed Drops.current_minutes Drops.required_minutes].
    repeat split.
  - intros answer d. unfold Drops.claim.
    destruct (Drops.can_claim d); cbn [negb].
    + destruct answer as [e|res]; [destruct (is_GQLException e)|]; cbn [fst];
        (split; [reflexivity|]); try congruence.
      intros _ _. reflexivity.
    + cbn [fst]. split; [reflexivity|congruence].
Qed.

Lemma drop_invariant_witness :
  Drops.drop_inv (Drops.init_drop "Camp" Drops.drop_done_data) /\
  Drops.drop_inv
    (fst (fst (Drops.claim (inr Json.JNull)
                 (Drops.init_drop "Camp" Drops.drop_ready_data)))) /\
  Drops.current_minutes (Drops.init_drop "Camp" Drops.drop_done_data) = 30%Z /\
  Drops.required_minutes (Drops.init_drop "Camp" Drops.drop_done_data) = 30%Z.
Proof.
  destruct drop_invariant as (Hinit & Hclaim & Hbuilt & _).
  split; [apply Hinit|]. split.
  - apply Hclaim. intros H. vm_compute in H. discriminate H.
  - destruct (Hbuilt "Camp"%string Drops.drop_done_data) as (Hreq & _ & Hcur).
    split; [exact Hcur|exact Hreq].
Defined.

(** ** Channels and the watch loop *)

Section WatchFacts.
Import Json Watch.
Local Open Scope string_scope.

(** Whenever [update_stream] returns [False] it has set the stream to
    [None] and sent its one request. *)
Lemma update_stream_false (c : Channel) (answer : pyexn + json) :
  snd (update_stream c answer) = inr false ->
  update_stream c answer = (set_stream c None, [Watch.stream_info_call c], inr false).
Proof.
  unfold update_stream. destruct answer as [e|res].
  - destruct (is_GQLException e); cbn [snd]; [reflexivity|discriminate].
  - destruct (stream_data_of res) as [e|sd]; cbn [snd]; [discriminate|].
    destruct (truthy sd); [|reflexivity].
    destruct (bind_exn _ _); cbn [snd]; discriminate.
Qed.

Lemma update_stream_gql_error (c : Channel) (msg : string) :
  update_stream c (inl (GQLException msg)) =
    (set_stream c None, [Watch.stream_info_call c], inr false).
Proof. reflexivity. Qed.

Lemma update_stream_not_live (c : Channel) (res sd : json) :
  stream_data_of res = inr sd -> truthy sd = false ->
  update_stream c (inr res) = (set_stream c None, [Watch.stream_info_call c], inr false).
Proof. intros Hsd Hfalse. unfold update_stream. now rewrite Hsd, Hfalse. Qed.

(** The loop on a channel whose first check returns [False]. *)
Lemma watch_loop_not_live (fuel : nat) (net : watch_net) (ref : nat)
    (c : Channel) (w : control) :
  snd (update_stream c (stream_info net)) = inr false ->
  _watch_loop fuel net ref c w =
    (set_stream c None, finally ref (others net 0 w),
     [Watch.stream_info_call c; Log (display_name c ++ " offline.")], Finished).
Proof.
  intros H. unfold _watch_loop. rewrite (update_stream_false _ _ H). reflexivity.
Qed.

(** The [finally] block selects nothing: it clears the current channel or
    leaves the field alone. *)
Lemma finally_selects_nothing (ref : nat) (w : control) :
  _is_running (finally ref w) = _is_running w /\
  (watching_channel (finally ref w) = None \/
   watching_channel (finally ref w) = watching_channel w) /\
  watching_channel (finally ref w) <> Some ref.
Proof.
  unfold finally, is_current.
  destruct (watching_channel w) as [r|] eqn:Hw; cbn.
  - destruct (Nat.eqb_spec r ref) as [->|Hne]; cbn.
    + repeat split; [now left|discriminate].
    + rewrite Hw. repeat split; [now right|congruence].
  - rewrite Hw. repeat split; [now left|discriminate].
Qed.
End WatchFacts.

(** C9: when the first [update_stream] of the loop reports the channel
    offline, the loop ends at once: it logs, sends no heartbeat, and leaves
    the worker with no channel selected by it (the current channel is
    cleared if it is this one, otherwise untouched). *)
Theorem watch_loop_offline_no_heartbeat (fuel : nat) (net : Watch.watch_net)
    (ref : nat) (c : Watch.Channel) (w : Watch.control) :
  snd (Watch.update_stream c (Watch.stream_info net)) = inr false ->
  let r := Watch._watch_loop fuel net ref c w in
  snd r = Watch.Finished /\
  fst (fst (fst r)) = Watch.set_stream c None /\
  Watch.sends (snd (fst r)) = 0%nat /\
  snd (fst r) =
    [Watch.stream_info_call c; Log (Watch.display_name c ++ " offline.")%string] /\
  snd (fst (fst r)) = Watch.finally ref (Watch.others net 0 w) /\
  Watch._is_running (snd (fst (fst r))) = Watch._is_running (Watch.others net 0 w) /\
  (Watch.watching_channel (snd (fst (fst r))) = None \/
   Watch.watching_channel (snd (fst (fst r))) =
     Watch.watching_channel (Watch.others net 0 w)).
Proof.
  intros H r. subst r. rewrite (watch_loop_not_live fuel net ref c w H).
  cbn [fst snd].
  destruct (finally_selects_nothing ref (Watch.others net 0 w)) as (Hrun & Hsel & _).
  repeat split; assumption.
Qed.

Lemma watch_loop_offline_no_heartbeat_witness :
  Watch._watch_loop 5 (Watch.quiet_net (inr GqlRequest.answer_offline)) 0
    Watch.channel_example
    {| Watch.watching_channel := Some 0%nat; Watch._is_running := true |} =
  (Watch.channel_example,
   {| Watch.watching_channel := None; Watch._is_running := true |},
   [Watch.stream_info_call Watch.channel_example; Log "Streamer offline."],
   Watch.Finished).
Proof.
  pose proof (watch_loop_offline_no_heartbeat 5
                (Watch.quiet_net (inr GqlRequest.answer_offline)) 0
                Watch.channel_example
                {| Watch.watching_channel := Some 0%nat; Watch._is_running := true |}
                eq_refl) as H.
  cbv zeta in H. destruct H as (Hst & Hc & _ & Htr & Hw & _).
  destruct (Watch._watch_loop 5 _ 0 _ _) as [[[c' w'] tr] st].
  cbn [fst snd] in *. subst. reflexivity.
Defined.

(** C10: [update_stream] returns [False] with the stream set to [None] both
    when the answer has no live stream and when the request raises a
    [GQLException]; the loop cannot tell the two apart: it ends in the same
    state with the same trace, and no heartbeat. *)
Theorem update_stream_error_as_offline (c : Watch.Channel) (res sd : Json.json)
    (msg : string) :
  Watch.stream_data_of res = inr sd ->
  Json.truthy sd = false ->
  Watch.update_stream c (inr res) =
    (Watch.set_stream c None, [Watch.stream_info_call c], inr false) /\
  Watch.update_stream c (inl (GQLException msg)) =
    (Watch.set_stream c None, [Watch.stream_info_call c], inr false) /\
  Watch._stream (Watch.set_stream c None) = None /\
  forall fuel beat tick others ref w,
    Watch._watch_loop fuel
      {| Watch.stream_info := inl (GQLException msg);
         Watch.beat := beat; Watch.tick := tick; Watch.others := others |} ref c w =
    Watch._watch_loop fuel
      {| Watch.stream_info := inr res;
         Watch.beat := beat; Watch.tick := tick; Watch.others := others |} ref c w /\
    snd (Watch._watch_loop fuel
           {| Watch.stream_info := inl (GQLException msg);
              Watch.beat := beat; Watch.tick := tick; Watch.others := others |}
           ref c w) = Watch.Finished /\
    Watch.sends
      (snd (fst (Watch._watch_loop fuel
                   {| Watch.stream_info := inl (GQLException msg);
                      Watch.beat := beat; Watch.tick := tick; Watch.others := others |}
                   ref c w))) = 0%nat.
Proof.
  intros Hsd Hfalse.
  pose proof (update_stream_not_live c res sd Hsd Hfalse) as Hoff.
  pose proof (update_stream_gql_error c msg) as Herr.
  split; [exact Hoff|]. split; [exact Herr|]. split; [reflexivity|].
  intros fuel beat tick others ref w.
  rewrite !watch_loop_not_live.
  - repeat split.
  - cbn [Watch.stream_info]. now rewrite Hoff.
  - cbn [Watch.stream_info]. now rewrite Herr.
Qed.

Lemma update_stream_error_as_offline_witness :
  Watch.update_stream Watch.channel_example (inr GqlRequest.answer_offline) =
  Watch.update_stream Watch.channel_example
    (GqlRequest.gql_request (inr (GqlRequest.BodyJson GqlRequest.answer_with_error))).
Proof.
  destruct (update_stream_error_as_offline Watch.channel_example
              GqlRequest.answer_offline Json.JNull "service error" eq_refl eq_refl)
    as (Hoff & Herr & _).
  rewrite Hoff. symmetry. exact Herr.
Defined.

(** * More of [core.py] *)

(** ** The retry loop, further *)

Section RequestMore.
Import Backoff Request RequestTrace.
Local Open Scope Z_scope.

Variable net : nat -> attempt_outcome.

(** Whatever the iterator, a yield reports the answer of the attempt it
    names, that answer is below 500, and every attempt before it failed. *)
Lemma retry_loop_yield_inv {St : Type} (nxt : St -> St * next_result) (fuel : nat) :
  forall (n0 : nat) (b : St) (n : nat) (status : Z),
  snd (retry_loop nxt net fuel n0 b) = Yielded n status ->
  status < 500 /\ net n = Response status /\ (n0 <= n)%nat /\
  (forall m, (n0 <= m < n)%nat -> transient (net m) = true).
Proof.
  induction fuel as [|fuel IH]; intros n0 b n status H; [discriminate H|].
  cbn [retry_loop] in H.
  destruct (nxt b) as [b' [delay| |e]]; cbn [snd] in H; try discriminate H.
  assert (Hstep : transient (net n0) = true ->
            snd (retry_loop nxt net fuel (S n0) b') = Yielded n status ->
            status < 500 /\ net n = Response status /\ (n0 <= n)%nat /\
            (forall m, (n0 <= m < n)%nat -> transient (net m) = true)).
  { intros Htr Hrec. destruct (IH _ _ _ _ Hrec) as (H1 & H2 & H3 & H4).
    repeat split; [assumption|assumption|lia|].
    intros m Hm. destruct (Nat.eq_dec m n0) as [->|Hne]; [exact Htr|].
    apply H4. lia. }
  destruct (net n0) as [st| |] eqn:Hnet.
  - destruct (Z.leb_spec 500 st) as [Hge|Hlt].
    + destruct (retry_loop nxt net fuel (S n0) b') as [tr r] eqn:Hrec.
      cbn [snd] in H. subst r. apply Hstep.
      * cbn. now apply Z.leb_le.
      * reflexivity.
    + cbn [snd] in H. injection H as <- <-.
      repeat split; [assumption|assumption|lia|intros m Hm; lia].
  - destruct (retry_loop nxt net fuel (S n0) b') as [tr r] eqn:Hrec.
    cbn [snd] in H. subst r. apply Hstep; reflexivity.
  - destruct (retry_loop nxt net fuel (S n0) b') as [tr r] eqn:Hrec.
    cbn [snd] in H. subst r. apply Hstep; reflexivity.
Qed.
End RequestMore.

(** X1: [request] never hands a server error to its caller: the response it
    yields has a status below 500, it is the answer of the attempt that is
    reported, and every earlier attempt failed transiently. *)
Theorem request_yields_only_below_500 (fuel : nat) (net : nat -> Request.attempt_outcome)
    (n : nat) (status : Z) :
  snd (Request.request fuel net) = Request.Yielded n status ->
  (status < 500)%Z /\ net n = Request.Response status /\
  (forall m, (m < n)%nat -> Request.transient (net m) = true).
Proof.
  intros H. unfold Request.request in H.
  destruct (retry_loop_yield_inv net Backoff.next fuel 0 Backoff.new n status H)
    as (H1 & H2 & _ & H4).
  repeat split; [assumption|assumption|]. intros m Hm. apply H4. lia.
Qed.

Lemma request_yields_only_below_500_witness :
  (404 < 500)%Z /\
  RequestTrace.fails_then_404 3 3 = Request.Response 404 /\
  (forall m, (m < 3)%nat -> Request.transient (RequestTrace.fails_then_404 3 m) = true).
Proof.
  exact (request_yields_only_below_500 10 (RequestTrace.fails_then_404 3) 3 404 eq_refl).
Defined.

Section RequestFirstGood.
Import Backoff Request RequestTrace.
Local Open Scope Z_scope.

Variable net : nat -> attempt_outcome.
Variable status : Z.
Hypothesis status_ok : status < 500.

(** The delays of attempts [1] to [n], counted from exponent [e]. *)
Lemma retry_loop_first_good (n : nat) :
  forall (fuel n0 : nat) (e : Z),
  0 <= e -> e + Z.of_nat n + 1 <= 1023 ->
  (forall m, (n0 <= m < n0 + n)%nat -> transient (net m) = true) ->
  net (n0 + n)%nat = Response status ->
  (n < fuel)%nat ->
  exists tr,
    retry_loop Backoff.next net fuel n0 {| _base := 1; _exp := e; _max := 60 |} =
      (tr, Yielded (n0 + n) status) /\
    sleeps tr = List.map (fun i => Z.min (2 ^ (e + Z.of_nat i)) 60) (seq 1 n) /\
    issues tr = S n.
Proof.
  induction n as [|n IH]; intros fuel n0 e He Hbound Hfail Hgood Hfuel.
  - destruct fuel as [|fuel]; [lia|].
    assert (Hnx : Backoff.next {| _base := 1; _exp := e; _max := 60 |} =
              ({| _base := 1; _exp := e + 1; _max := 60 |},
               Next (Z.min (1 * 2 ^ (e + 1)) 60))).
    { rewrite next_new_fields by lia.
      destruct (Z.leb_spec 1024 (e + 1)); [lia|reflexivity]. }
    rewrite Nat.add_0_r in *.
    rewrite (retry_loop_yield net Backoff.next fuel n0 _ _ _ status Hnx Hgood status_ok).
    eexists. split; [reflexivity|]. split; reflexivity.
  - destruct fuel as [|fuel]; [lia|].
    assert (Hnx : Backoff.next {| _base := 1; _exp := e; _max := 60 |} =
              ({| _base := 1; _exp := e + 1; _max := 60 |},
               Next (Z.min (1 * 2 ^ (e + 1)) 60))).
    { rewrite next_new_fields by lia.
      destruct (Z.leb_spec 1024 (e + 1)); [lia|reflexivity]. }
    rewrite (retry_loop_transient net Backoff.next fuel n0 _ _ _ Hnx (Hfail n0 ltac:(lia))).
    destruct (IH fuel (S n0) (e + 1)) as (tr & Hrun & Hsl & Hiss); try lia.
    + intros m Hm. apply Hfail. lia.
    + replace (S n0 + n)%nat with (n0 + S n)%nat by lia. exact Hgood.
    + rewrite Hrun. cbn [fst snd].
      replace (S n0 + n)%nat with (n0 + S n)%nat by lia.
      eexists. split; [reflexivity|]. split.
      * cbn [sleeps flat_map app]. fold (sleeps tr). rewrite Hsl.
        cbn [seq List.map]. f_equal.
        -- f_equal. f_equal. lia. 
        -- rewrite <- (seq_shift n 1), List.map_map. apply List.map_ext.
           intros i. f_equal. f_equal. lia.
      * unfold issues in *. cbn [List.filter List.length]. now rewrite Hiss.
Qed.
End RequestFirstGood.

(** X2: [request] yields at the first attempt that does not fail: after [n]
    transient failures (at most 1022) and an answer below 500, it yields
    that answer, having made [n + 1] attempts and slept the delays
    [min(2^i, 60)] for [i] from 1 to [n], in that order. *)
Theorem request_yields_first_good (net : nat -> Request.attempt_outcome)
    (n : nat) (status : Z) (fuel : nat) :
  (n <= 1022)%nat ->
  (forall m, (m < n)%nat -> Request.transient (net m) = true) ->
  net n = Request.Response status ->
  (status < 500)%Z ->
  (n < fuel)%nat ->
  exists tr,
    Request.request fuel net = (tr, Request.Yielded n status) /\
    RequestTrace.sleeps tr =
      List.map (fun i => Z.min (2 ^ Z.of_nat i) 60) (seq 1 n) /\
    Request.issues tr = S n.
Proof.
  intros Hn Hfail Hgood Hst Hfuel.
  destruct (retry_loop_first_good net status Hst n fuel 0 0%Z) as (tr & H1 & H2 & H3);
    try lia.
  - intros m Hm. apply Hfail. lia.
  - exact Hgood.
  - exists tr. split; [exact H1|]. split; [|exact H3].
    rewrite H2. apply List.map_ext. intros i. reflexivity.
Qed.

Lemma request_yields_first_good_witness :
  exists tr,
    Request.request 10 (RequestTrace.fails_then_404 3) = (tr, Request.Yielded 3 404) /\
    RequestTrace.sleeps tr = [2; 4; 8]%Z /\
    Request.issues tr = 4%nat.
Proof.
  destruct (request_yields_first_good (RequestTrace.fails_then_404 3) 3 404 10)
    as (tr & H1 & H2 & H3); try lia.
  - intros m Hm. destruct m as [|[|[|m]]]; [reflexivity|reflexivity|reflexivity|lia].
  - reflexivity.
  - exists tr. repeat split; assumption.
Defined.

(** X3: on a fresh iterator the delays of calls 1 to 1023 never go down,
    never leave the interval from 2 to 60, and are 60 from call 6 on. *)
Theorem backoff_delays_bounded_monotone (k k' : nat) :
  (1 <= k)%nat -> (k <= k')%nat -> (k' <= 1023)%nat ->
  exists d d' : Z,
    Backoff.delay_of_attempt k = Backoff.Next d /\
    Backoff.delay_of_attempt k' = Backoff.Next d' /\
    (2 <= d)%Z /\ (d <= d')%Z /\ (d' <= 60)%Z /\
    ((6 <= k)%nat -> d = 60%Z).
Proof.
  intros H1 H2 H3.
  rewrite !delay_of_attempt_in_range by lia.
  eexists _, _. split; [reflexivity|]. split; [reflexivity|].
  rewrite !Z.mul_1_l.
  assert (Hk : (2 ^ 1 <= 2 ^ Z.of_nat k)%Z) by (apply Z.pow_le_mono_r; lia).
  assert (Hkk : (2 ^ Z.of_nat k <= 2 ^ Z.of_nat k')%Z) by (apply Z.pow_le_mono_r; lia).
  change (2 ^ 1)%Z with 2%Z in Hk.
  repeat split; try lia.
  intros H6.
  assert (H64 : (2 ^ 6 <= 2 ^ Z.of_nat k)%Z) by (apply Z.pow_le_mono_r; lia).
  change (2 ^ 6)%Z with 64%Z in H64. lia.
Qed.

Lemma backoff_delays_bounded_monotone_witness :
  exists d d' : Z,
    Backoff.delay_of_attempt 3 = Backoff.Next d /\
    Backoff.delay_of_attempt 7 = Backoff.Next d' /\
    (2 <= d)%Z /\ (d <= d')%Z /\ (d' <= 60)%Z /\
    ((6 <= 3)%nat -> d = 60%Z).
Proof.
  apply (backoff_delays_bounded_monotone 3 7); lia.
Defined.

(** ** gql_request *)

(** X4: what [gql_request] returns is the body of the response, unchanged,
    and it carries no error list: a dict that is returned has no [errors]
    entry, or a false one. *)
Theorem gql_request_returns_clean (entered : pyexn + GqlRequest.body) (j : Json.json) :
  GqlRequest.gql_request entered = inr j ->
  entered = inr (GqlRequest.BodyJson j) /\
  (forall fields errs,
     j = Json.JObj fields -> Json.assoc "errors" fields = Some errs ->
     Json.truthy errs = false).
Proof.
  unfold GqlRequest.gql_request. intros H.
  destruct entered as [e|[resp|text]]; try discriminate H.
  destruct resp as [| | | | |fields]; cbn in H;
    try (injection H as <-; split; [reflexivity|intros ? ? [=]]).
  destruct (Json.assoc "errors" fields) as [errs|] eqn:Herrs; cbn in H.
  - destruct (Json.truthy errs) eqn:Htr.
    + destruct (GqlRequest.first_of errs) as [e|first]; cbn in H; [discriminate H|].
      destruct (Json.get first "message" _) as [e|[| | |m| |]]; cbn in H; discriminate H.
    + injection H as <-. split; [reflexivity|].
      intros fields' errs' [= <-] Herrs'. congruence.
  - injection H as <-. split; [reflexivity|].
    intros fields' errs' [= <-] Herrs'. congruence.
Qed.

Lemma gql_request_returns_clean_witness :
  inr (GqlRequest.BodyJson GqlRequest.answer_offline) =
    (inr (GqlRequest.BodyJson GqlRequest.answer_offline) : pyexn + GqlRequest.body) /\
  (forall fields errs,
     GqlRequest.answer_offline = Json.JObj fields ->
     Json.assoc "errors" fields = Some errs -> Json.truthy errs = false).
Proof.
  exact (gql_request_returns_clean (inr (GqlRequest.BodyJson GqlRequest.answer_offline))
           GqlRequest.answer_offline eq_refl).
Defined.

(** X5: an answer whose [errors] is a non-empty list raises [GQLException]
    with the message of the first error, whatever else the answer holds; an
    answer that is not JSON raises [GQLException] too, and an exception of
    the request passes through unchanged. *)
Theorem gql_request_first_error (fields : list (string * Json.json))
    (first : Json.json) (rest : list Json.json) (msg : string) :
  Json.assoc "errors" fields = Some (Json.JArr (first :: rest)) ->
  Json.get first "message" (Json.JStr "unknown GQL error") = inr (Json.JStr msg) ->
  GqlRequest.gql_request (inr (GqlRequest.BodyJson (Json.JObj fields))) =
    inl (GQLException msg) /\
  (forall text, is_GQLException
     match GqlRequest.gql_request (inr (GqlRequest.BodyText text)) with
     | inl e => e | inr _ => OtherError end = true) /\
  (forall e, GqlRequest.gql_request (inl e) = inl e).
Proof.
  intros Herrs Hmsg. split; [|split; [reflexivity|reflexivity]].
  unfold GqlRequest.gql_request. cbn [Json.get bind_exn]. rewrite Herrs.
  cbn [Json.truthy GqlRequest.first_of bind_exn]. now rewrite Hmsg.
Qed.

Lemma gql_request_first_error_witness :
  GqlRequest.gql_request (inr (GqlRequest.BodyJson GqlRequest.answer_with_error)) =
    inl (GQLException "service error").
Proof.
  exact (proj1 (gql_request_first_error
                  [("errors", Json.JArr [Json.JObj [("message", Json.JStr "service error")]])]
                  (Json.JObj [("message", Json.JStr "service error")]) []
                  "service error" eq_refl eq_refl)).
Defined.

(** X6: a first error whose message is not a string is not reported as a
    [GQLException]: [gql_request] raises [AttributeError], which
    [update_stream] does not catch, so the channel is left as it was and the
    error goes on to the caller. *)
Theorem gql_request_malformed_error (fields : list (string * Json.json))
    (first m : Json.json) (rest : list Json.json) (c : Watch.Channel) :
  Json.assoc "errors" fields = Some (Json.JArr (first :: rest)) ->
  Json.get first "message" (Json.JStr "unknown GQL error") = inr m ->
  (forall s, m <> Json.JStr s) ->
  GqlRequest.gql_request (inr (GqlRequest.BodyJson (Json.JObj fields))) =
    inl AttributeError /\
  Watch.update_stream c
    (GqlRequest.gql_request (inr (GqlRequest.BodyJson (Json.JObj fields)))) =
    (c, [Watch.stream_info_call c], inl AttributeError).
Proof.
  intros Herrs Hmsg Hnot.
  assert (H : GqlRequest.gql_request (inr (GqlRequest.BodyJson (Json.JObj fields))) =
              inl AttributeError).
  { unfold GqlRequest.gql_request. cbn [Json.get bind_exn]. rewrite Herrs.
    cbn [Json.truthy GqlRequest.first_of bind_exn]. rewrite Hmsg. cbn [bind_exn].
    destruct m; try reflexivity. exfalso. eapply Hnot. reflexivity. }
  split; [exact H|]. rewrite H. reflexivity.
Qed.

Lemma gql_request_malformed_error_witness :
  Watch.update_stream Watch.channel_example
    (GqlRequest.gql_request
       (inr (GqlRequest.BodyJson
               (Json.JObj [("errors", Json.JArr [Json.JObj [("message", Json.JNull)]])])))) =
    (Watch.channel_example, [Watch.stream_info_call Watch.channel_example],
     inl AttributeError).
Proof.
  refine (proj2 (gql_request_malformed_error
                   [("errors", Json.JArr [Json.JObj [("message", Json.JNull)]])]
                   (Json.JObj [("message", Json.JNull)]) Json.JNull []
                   Watch.channel_example eq_refl eq_refl _)).
  intros s H. discriminate H.
Defined.

(** ** send_watch and the discovery *)

Section SendWatchFacts.
Import Json Spade Watch WatchTrace.
Local Open Scope string_scope.

Lemma not_Exception (e : pyexn) : is_Exception e = false -> e = CancelledError.
Proof. destruct e; cbn; congruence. Qed.

(** The discovery either fails and leaves the channel alone, or returns a
    URL and has stored it; its trace holds no heartbeat. *)
Lemma get_spade_url_cases (c : Channel) (net : discovery_net) :
  (exists e, snd (get_spade_url c net) = inl e /\ fst (fst (get_spade_url c net)) = c) \/
  (exists u, snd (get_spade_url c net) = inr u /\
             _stream (fst (fst (get_spade_url c net))) = _stream c /\
             (_spade_url c = None ->
              _spade_url (fst (fst (get_spade_url c net))) = Some u)).
Proof.
  unfold get_spade_url.
  destruct (cached_spade_url c) as [u|] eqn:Hc.
  - right. exists u. cbn. repeat split.
    intros Hnone. unfold cached_spade_url in Hc. rewrite Hnone in Hc. discriminate Hc.
  - destruct (page net) as [e|text]; [left; exists e; split; reflexivity|].
    destruct (first_match _ text) as [[e|u]|].
    + left. exists e. split; reflexivity.
    + right. exists u. cbn. repeat split.
    + destruct (token_fallback net) as [e|[u|]].
      * destruct (is_Exception e); left; eexists; split; reflexivity.
      * right. exists u. cbn. repeat split.
      * left. eexists. split; reflexivity.
Qed.

Lemma get_spade_url_no_post (c : Channel) (net : discovery_net) (u : string) :
  ~ In (Post u) (snd (fst (get_spade_url c net))).
Proof.
  unfold get_spade_url.
  destruct (cached_spade_url c); [cbn; tauto|].
  destruct (page net) as [e|text]; [cbn; tauto|].
  destruct (first_match _ text) as [[e|u']|]; cbn; try tauto.
  - intros [H|[]]; discriminate H.
  - destruct (token_fallback net) as [e|[u'|]]; [destruct (is_Exception e)|..]; cbn;
      intuition discriminate.
Qed.
End SendWatchFacts.

(** What escapes [send_watch] is a cancellation. *)
Lemma send_watch_raises_cancel (c : Watch.Channel) (net : Watch.beat_net) (e : pyexn) :
  snd (Watch.send_watch c net) = inl e -> e = CancelledError.
Proof.
  unfold Watch.send_watch. destruct (Watch._stream c); [|discriminate].
  destruct (Watch._spade_url c) as [u|].
  - destruct (Watch.post net) as [e'|status]; [|discriminate].
    destruct (is_Exception e') eqn:He; cbn [snd]; [discriminate|].
    intros [= <-]. now apply not_Exception.
  - destruct (Watch.get_spade_url c (Watch.discovery net)) as [[c' ev] [e'|u]].
    + destruct (is_Exception e') eqn:He; cbn [snd]; [discriminate|].
      intros [= <-]. now apply not_Exception.
    + destruct (Watch.post net) as [e'|status]; [|discriminate].
      destruct (is_Exception e') eqn:He; cbn [snd]; [discriminate|].
      intros [= <-]. now apply not_Exception.
Qed.

(** X7: no [Exception] leaves [send_watch]: a failure of the discovery or
    of the POST that is an [Exception] is turned into the answer [False].
    What does leave it is outside [Exception], as a cancellation is, and is
    what the POST or the discovery raised. *)
Theorem send_watch_only_cancel_escapes (c : Watch.Channel) (net : Watch.beat_net)
    (e : pyexn) :
  snd (Watch.send_watch c net) = inl e ->
  is_Exception e = false /\
  (Watch.post net = inl e \/
   snd (Watch.get_spade_url c (Watch.discovery net)) = inl e).
Proof.
  unfold Watch.send_watch. destruct (Watch._stream c); [|discriminate].
  destruct (Watch._spade_url c) as [u|].
  - destruct (Watch.post net) as [e'|status]; [|discriminate].
    destruct (is_Exception e') eqn:He; cbn [snd]; [discriminate|].
    intros [= <-]. split; [exact He|now left].
  - destruct (Watch.get_spade_url c (Watch.discovery net)) as [[c' ev] [e'|u]].
    + destruct (is_Exception e') eqn:He; cbn [snd]; [discriminate|].
      intros [= <-]. split; [exact He|now right].
    + destruct (Watch.post net) as [e'|status]; [|discriminate].
      destruct (is_Exception e') eqn:He; cbn [snd]; [discriminate|].
      intros [= <-]. split; [exact He|now left].
Qed.

Lemma send_watch_only_cancel_escapes_witness :
  snd (Watch.send_watch WatchTrace.channel_cached
         (WatchTrace.beat_with WatchTrace.discovery_nothing (inl CancelledError))) =
    inl CancelledError /\
  is_Exception CancelledError = false.
Proof.
  split; [reflexivity|].
  exact (proj1 (send_watch_only_cancel_escapes WatchTrace.channel_cached
                  (WatchTrace.beat_with WatchTrace.discovery_nothing (inl CancelledError))
                  CancelledError eq_refl)).
Defined.

(** X8: [send_watch] answers [True] only for a live channel whose heartbeat
    was posted and answered with status 200 or 204; the URL posted to is
    then the one the channel keeps. *)
Theorem send_watch_true_means_posted (c : Watch.Channel) (net : Watch.beat_net) :
  snd (Watch.send_watch c net) = inr true ->
  exists url status,
    In (Post url) (snd (fst (Watch.send_watch c net))) /\
    Watch.post net = inr status /\
    (status = 200 \/ status = 204)%Z /\
    Watch._spade_url (fst (fst (Watch.send_watch c net))) = Some url /\
    Watch._stream c <> None.
Proof.
  unfold Watch.send_watch. destruct (Watch._stream c) as [s|] eqn:Hs; [|discriminate].
  assert (Hstatus : forall status,
            (status =? 204)%Z || (status =? 200)%Z = true ->
            (status = 200 \/ status = 204)%Z).
  { intros status H. apply orb_true_iff in H as [H|H]; apply Z.eqb_eq in H; auto. }
  destruct (Watch._spade_url c) as [u|] eqn:Hu.
  - destruct (Watch.post net) as [e'|status]; [destruct (is_Exception e'); discriminate|].
    cbn [fst snd]. intros [= H]. exists u, status.
    repeat split; [|auto|assumption|discriminate].
    apply in_or_app. left. cbn. auto.
  - destruct (Watch.get_spade_url c (Watch.discovery net)) as [[c' ev] [e'|u]].
    + destruct (is_Exception e'); discriminate.
    + destruct (Watch.post net) as [e'|status]; [destruct (is_Exception e'); discriminate|].
      cbn [fst snd]. intros [= H]. exists u, status.
      repeat split; [|auto|discriminate].
      apply in_or_app. left. apply in_or_app. right. cbn. auto.
Qed.

Lemma send_watch_true_means_posted_witness :
  exists url status,
    In (Post url)
       (snd (fst (Watch.send_watch WatchTrace.channel_live
                    (WatchTrace.beat_with WatchTrace.discovery_found (inr 204%Z))))) /\
    Watch.post (WatchTrace.beat_with WatchTrace.discovery_found (inr 204%Z)) = inr status /\
    (status = 200 \/ status = 204)%Z /\
    Watch._spade_url
      (fst (fst (Watch.send_watch WatchTrace.channel_live
                   (WatchTrace.beat_with WatchTrace.discovery_found (inr 204%Z))))) =
      Some url /\
    Watch._stream WatchTrace.channel_live <> None.
Proof.
  exact (send_watch_true_means_posted WatchTrace.channel_live
           (WatchTrace.beat_with WatchTrace.discovery_found (inr 204%Z)) eq_refl).
Defined.

Ltac tail_no_post :=
  let x := fresh "x" in
  let Hx := fresh "Hx" in
  intros x Hx; cbn in Hx;
  repeat (destruct Hx as [<-|Hx]; [discriminate|]);
  destruct Hx.

(** X9: the endpoint is discovered once: after a call of [send_watch] that
    posted a heartbeat, a later call never runs the discovery again.  Its
    outcome is fixed by the answer to its POST alone, it posts to the same
    URL, and it leaves the channel as it is. *)
Theorem send_watch_discovers_once (c : Watch.Channel) (net : Watch.beat_net)
    (url : string) :
  In (Post url) (snd (fst (Watch.send_watch c net))) ->
  let c' := fst (fst (Watch.send_watch c net)) in
  Watch._spade_url c' = Some url /\
  forall net1 net2 : Watch.beat_net,
    Watch.post net1 = Watch.post net2 ->
    Watch.send_watch c' net1 = Watch.send_watch c' net2 /\
    fst (fst (Watch.send_watch c' net1)) = c' /\
    In (Post url) (snd (fst (Watch.send_watch c' net1))).
Proof.
  intros Hpost c'.
  assert (Hc' : Watch._spade_url c' = Some url /\ Watch._stream c' <> None).
  { subst c'. revert Hpost. unfold Watch.send_watch.
    destruct (Watch._stream c) as [s|] eqn:Hs; [|cbn; intuition discriminate].
    destruct (Watch._spade_url c) as [u|] eqn:Hu.
    - assert (Hin : forall tail, In (Post url)
                      (([] ++ [Log ("sending watch for " ++ Watch.login c)%string; Post u])
                       ++ tail) ->
                    (forall x, In x tail -> x <> Post url) -> u = url).
      { intros tail H Htail. cbn in H. destruct H as [H|[H|H]]; try discriminate H.
        - now injection H.
        - exfalso. exact (Htail _ H eq_refl). }
      destruct (Watch.post net) as [e'|status]; [destruct (is_Exception e')|]; cbn [fst snd];
        intros H.
      + rewrite (Hin _ H) in Hu by tail_no_post.
        rewrite Hu, Hs. split; [reflexivity|discriminate].
      + rewrite (Hin [] ltac:(now rewrite app_nil_r)) in Hu by tail_no_post.
        rewrite Hu, Hs. split; [reflexivity|discriminate].
      + rewrite (Hin _ H) in Hu by tail_no_post.
        rewrite Hu, Hs. split; [reflexivity|discriminate].
    - pose proof (get_spade_url_no_post c (Watch.discovery net) url) as Hno.
      pose proof (get_spade_url_cases c (Watch.discovery net)) as Hcases.
      destruct (Watch.get_spade_url c (Watch.discovery net)) as [[c1 ev] [e'|u]];
        cbn [fst snd] in *.
      + destruct (is_Exception e'); cbn [fst snd]; intros H.
        * apply in_app_or in H as [H|H]; [tauto|]. cbn in H. intuition discriminate.
        * tauto.
      + destruct Hcases as [(e & He & _)|(u' & Hu' & Hstream & _)]; [discriminate He|].
        assert (Hin : forall tail, In (Post url)
                      ((ev ++ [Log ("sending watch for " ++ Watch.login c)%string; Post u])
                       ++ tail) ->
                    (forall x, In x tail -> x <> Post url) -> u = url).
        { intros tail H Htail. apply in_app_or in H as [H|H].
          - apply in_app_or in H as [H|H]; [tauto|].
            cbn in H. destruct H as [H|[H|[]]]; [discriminate H|now injection H].
          - exfalso. exact (Htail _ H eq_refl). }
        assert (Hlive : Watch._stream (Watch.set_spade_url c1 u) <> None).
        { cbn. rewrite Hstream, Hs. discriminate. }
        destruct (Watch.post net) as [e'|status]; [destruct (is_Exception e')|];
          cbn [fst snd]; intros H.
        * rewrite <- (Hin _ H) by tail_no_post. split; [reflexivity|exact Hlive].
        * rewrite <- (Hin [] ltac:(now rewrite app_nil_r)) by tail_no_post.
          split; [reflexivity|exact Hlive].
        * rewrite <- (Hin _ H) by tail_no_post. split; [reflexivity|exact Hlive]. }
  destruct Hc' as [Hurl Hlive]. split; [exact Hurl|].
  intros net1 net2 Heq. unfold Watch.send_watch.
  destruct (Watch._stream c') as [s|]; [|contradiction].
  rewrite Hurl, Heq.
  destruct (Watch.post net2) as [e'|status]; [destruct (is_Exception e')|]; cbn [fst snd];
    (split; [reflexivity|split; [reflexivity|]]);
    cbn; auto.
Qed.

Lemma send_watch_discovers_once_witness :
  Watch._spade_url
    (fst (fst (Watch.send_watch WatchTrace.channel_live
                 (WatchTrace.beat_with WatchTrace.discovery_found (inr 204%Z))))) =
    Some "https://video-edge-a.example/ping"%string /\
  Watch.send_watch WatchTrace.channel_cached
    (WatchTrace.beat_with WatchTrace.discovery_nothing (inr 204%Z)) =
  Watch.send_watch WatchTrace.channel_cached
    (WatchTrace.beat_with WatchTrace.discovery_found (inr 204%Z)).
Proof.
  destruct (send_watch_discovers_once WatchTrace.channel_live
              (WatchTrace.beat_with WatchTrace.discovery_found (inr 204%Z))
              "https://video-edge-a.example/ping")
    as [Hurl Hsame].
  - vm_compute. right. right. left. reflexivity.
  - split; [exact Hurl|].
    exact (proj1 (Hsame (WatchTrace.beat_with WatchTrace.discovery_nothing (inr 204%Z))
                        (WatchTrace.beat_with WatchTrace.discovery_found (inr 204%Z))
                        eq_refl)).
Defined.

(** ** The heartbeat loop *)

Section LoopFacts.
Import Json Spade Watch WatchTrace.

Lemma plain_counts (tr : list event) :
  forallb plain tr = true -> heartbeat_calls tr = 0 /\ interval_sleeps tr = 0.
Proof.
  unfold heartbeat_calls, interval_sleeps.
  induction tr as [|ev tr IH]; cbn [forallb List.filter]; [auto|].
  intros H. apply andb_true_iff in H as [Hev Htr].
  destruct ev; cbn in Hev; try discriminate Hev; exact (IH Htr).
Qed.

Lemma heartbeat_calls_app (a b : list event) :
  heartbeat_calls (a ++ b) = heartbeat_calls a + heartbeat_calls b.
Proof. unfold heartbeat_calls. now rewrite List.filter_app, List.length_app. Qed.

Lemma interval_sleeps_app (a b : list event) :
  interval_sleeps (a ++ b) = interval_sleeps a + interval_sleeps b.
Proof. unfold interval_sleeps. now rewrite List.filter_app, List.length_app. Qed.

Lemma get_spade_url_plain (c : Channel) (net : discovery_net) :
  forallb plain (snd (fst (get_spade_url c net))) = true.
Proof.
  unfold get_spade_url.
  destruct (cached_spade_url c); [reflexivity|].
  destruct (page net) as [e|text]; [reflexivity|].
  destruct (first_match _ text) as [[e|u]|]; try reflexivity.
  destruct (token_fallback net) as [e|[u|]]; [destruct (is_Exception e)|..]; reflexivity.
Qed.

Lemma send_watch_plain (c : Channel) (net : beat_net) :
  forallb plain (snd (fst (send_watch c net))) = true.
Proof.
  unfold send_watch. destruct (_stream c); [|reflexivity].
  destruct (_spade_url c) as [u|].
  - destruct (post net) as [e|status]; [destruct (is_Exception e)|]; reflexivity.
  - pose proof (get_spade_url_plain c (discovery net)) as Hd.
    destruct (get_spade_url c (discovery net)) as [[c' ev] [e|u]]; cbn [fst snd] in *.
    + destruct (is_Exception e); cbn [fst snd]; rewrite ?forallb_app, ?Hd; reflexivity.
    + destruct (post net) as [e|status]; [destruct (is_Exception e)|]; cbn [fst snd];
        rewrite ?forallb_app, ?Hd; reflexivity.
Qed.

Lemma handler_plain (c : Channel) (e : pyexn) : forallb plain (handler c e) = true.
Proof. destruct e; reflexivity. Qed.


(** In the [while] loop the calls of [send_watch] never outnumber the
    sleeps by more than one. *)
Lemma heartbeats_paced (fuel : nat) (net : watch_net) (ref : nat) :
  forall (i : nat) (c : Channel) (w : control),
  let tr := snd (fst (heartbeats fuel net ref i c w)) in
  (snd (heartbeats fuel net ref i c w) = Running ->
     heartbeat_calls tr = interval_sleeps tr) /\
  heartbeat_calls tr <= interval_sleeps tr + 1.
Proof.
  induction fuel as [|fuel IH]; intros i c w; [cbn; auto|].
  cbn [heartbeats].
  destruct (_is_running w && is_current ref w); [|cbn; split; [discriminate|lia]].
  pose proof (send_watch_plain c (beat net i)) as Hplain.
  destruct (send_watch c (beat net i)) as [[c1 ev1] [e|success]]; cbn [fst snd] in *.
  - cbn zeta. cbn [fst snd]. split; [discriminate|].
    change (SendWatch ref :: ev1 ++ handler c e) with ([SendWatch ref] ++ ev1 ++ handler c e).
    rewrite !heartbeat_calls_app, !interval_sleeps_app.
    destruct (plain_counts _ Hplain) as [-> ->].
    destruct (plain_counts _ (handler_plain c e)) as [-> ->]. cbn. lia.
  - set (tail := (if success then [] else [Log ("watch failed for " ++ display_name c)%string])).
    assert (Htail : heartbeat_calls tail = 0 /\ interval_sleeps tail = 0).
    { subst tail. destruct success; split; reflexivity. }
    destruct Htail as [Ht1 Ht2].
    destruct (tick net i) as [e|].
    + cbn zeta. cbn [fst snd]. split; [discriminate|].
      change (SendWatch ref :: ev1 ++ tail ++
                [Log ("watch sent for " ++ display_name c)%string; SleepFor WATCH_INTERVAL])
        with ([SendWatch ref] ++ ev1 ++ tail ++
                [Log ("watch sent for " ++ display_name c)%string; SleepFor WATCH_INTERVAL]).
      rewrite !heartbeat_calls_app, !interval_sleeps_app, Ht1, Ht2.
      destruct (plain_counts _ Hplain) as [-> ->].
      destruct (plain_counts _ (handler_plain c e)) as [-> ->]. cbn. lia.
    + specialize (IH (S i) c1 (others net (2 * i + 2) (others net (2 * i + 1) w))).
      destruct (heartbeats fuel net ref (S i) c1 _) as [[[c3 w3] ev3] st].
      cbn zeta in IH. cbn [fst snd] in *.
      change (SendWatch ref :: ev1 ++ tail ++
                [Log ("watch sent for " ++ display_name c)%string; SleepFor WATCH_INTERVAL])
        with ([SendWatch ref] ++ ev1 ++ tail ++
                [Log ("watch sent for " ++ display_name c)%string; SleepFor WATCH_INTERVAL]).
      rewrite !heartbeat_calls_app, !interval_sleeps_app, Ht1, Ht2.
      destruct (plain_counts _ Hplain) as [-> ->].
      destruct IH as [IH1 IH2]. cbn. split; [intros Hst; rewrite (IH1 Hst)|]; lia.
Qed.

(** With nothing cancelled and nobody else writing to the worker, the loop
    of a running worker on its current channel goes on, whatever the
    heartbeats answer. *)
Lemma heartbeats_go_on (net : watch_net) (ref : nat) (w : control) :
  is_current ref w = true ->
  _is_running w = true ->
  (forall k x, others net k x = x) ->
  (forall i, tick net i = None) ->
  (forall i c, snd (send_watch c (beat net i)) <> inl CancelledError) ->
  forall (fuel i : nat) (c : Channel),
    snd (heartbeats fuel net ref i c w) = Running /\
    snd (fst (fst (heartbeats fuel net ref i c w))) = w /\
    heartbeat_calls (snd (fst (heartbeats fuel net ref i c w))) = fuel /\
    interval_sleeps (snd (fst (heartbeats fuel net ref i c w))) = fuel.
Proof.
  intros Hcur Hrun Hothers Htick Hsend.
  induction fuel as [|fuel IH]; intros i c; [cbn; auto|].
  cbn [heartbeats]. rewrite Hrun, Hcur. cbn [andb].
  pose proof (send_watch_plain c (beat net i)) as Hplain.
  pose proof (Hsend i c) as Hnc.
  pose proof (send_watch_raises_cancel c (beat net i)) as Honly.
  destruct (send_watch c (beat net i)) as [[c1 ev1] [e|success]]; cbn [fst snd] in *.
  - exfalso. apply Hnc. now rewrite (Honly e eq_refl).
  - rewrite Htick, !Hothers.
    specialize (IH (S i) c1).
    destruct (heartbeats fuel net ref (S i) c1 w) as [[[c3 w3] ev3] st].
    cbn [fst snd] in *. destruct IH as (-> & -> & Hcalls & Hsleeps).
    split; [reflexivity|]. split; [reflexivity|].
    set (tail := (if success then [] else [Log ("watch failed for " ++ display_name c)%string])).
    assert (Htail : heartbeat_calls tail = 0 /\ interval_sleeps tail = 0).
    { subst tail. destruct success; split; reflexivity. }
    destruct Htail as [Ht1 Ht2].
    change (SendWatch ref :: ev1 ++ tail ++
              [Log ("watch sent for " ++ display_name c)%string; SleepFor WATCH_INTERVAL])
      with ([SendWatch ref] ++ ev1 ++ tail ++
              [Log ("watch sent for " ++ display_name c)%string; SleepFor WATCH_INTERVAL]).
    rewrite !heartbeat_calls_app, !interval_sleeps_app, Ht1, Ht2, Hcalls, Hsleeps.
    destruct (plain_counts _ Hplain) as [-> ->]. cbn. split; lia.
Qed.
End LoopFacts.



(** X11: the loop never sends two heartbeats without a sleep of
    [WATCH_INTERVAL] seconds between them: in every trace of it the calls of
    [send_watch] outnumber those sleeps by one at most. *)
Theorem watch_loop_paced (fuel : nat) (net : Watch.watch_net) (ref : nat)
    (c : Watch.Channel) (w : Watch.control) :
  WatchTrace.heartbeat_calls (snd (fst (Watch._watch_loop fuel net ref c w))) <=
  WatchTrace.interval_sleeps (snd (fst (Watch._watch_loop fuel net ref c w))) + 1.
Proof.
  unfold Watch._watch_loop.
  assert (Hup : forallb WatchTrace.plain
                  (snd (fst (Watch.update_stream c (Watch.stream_info net)))) = true).
  { unfold Watch.update_stream.
    destruct (Watch.stream_info net) as [e|res]; [destruct (is_GQLException e); reflexivity|].
    destruct (Watch.stream_data_of res) as [e|sd]; [reflexivity|].
    destruct (Json.truthy sd); [|reflexivity].
    destruct (bind_exn _ _); reflexivity. }
  destruct (Watch.update_stream c (Watch.stream_info net)) as [[c1 ev1] [e|[|]]];
    cbn [fst snd] in *.
  - rewrite heartbeat_calls_app, interval_sleeps_app.
    destruct (plain_counts _ Hup) as [-> ->].
    destruct (plain_counts _ (handler_plain c e)) as [-> ->]. lia.
  - pose proof (heartbeats_paced fuel net ref 0 c1 (Watch.others net 0 w)) as H.
    destruct (Watch.heartbeats fuel net ref 0 c1 _) as [[[c2 w2] ev2] st].
    cbn zeta in H. cbn [fst snd] in *.
    rewrite heartbeat_calls_app, interval_sleeps_app.
    destruct (plain_counts _ Hup) as [-> ->]. lia.
  - rewrite heartbeat_calls_app, interval_sleeps_app.
    destruct (plain_counts _ Hup) as [-> ->]. cbn. lia.
Qed.

(** X12: a heartbeat that fails does not stop the loop.  For a live
    channel that stays the current one of a running worker, with no
    cancellation, the loop goes on for as long as it is run, one call of
    [send_watch] and one sleep per round, whatever the heartbeats answer. *)
Theorem watch_loop_survives_failed_heartbeats (net : Watch.watch_net) (ref : nat)
    (c : Watch.Channel) (w : Watch.control) :
  snd (Watch.update_stream c (Watch.stream_info net)) = inr true ->
  Watch.is_current ref w = true ->
  Watch._is_running w = true ->
  (forall k x, Watch.others net k x = x) ->
  (forall i, Watch.tick net i = None) ->
  (forall i c', snd (Watch.send_watch c' (Watch.beat net i)) <> inl CancelledError) ->
  forall fuel,
    snd (Watch._watch_loop fuel net ref c w) = Watch.Running /\
    snd (fst (fst (Watch._watch_loop fuel net ref c w))) = w /\
    WatchTrace.heartbeat_calls (snd (fst (Watch._watch_loop fuel net ref c w))) = fuel /\
    WatchTrace.interval_sleeps (snd (fst (Watch._watch_loop fuel net ref c w))) = fuel.
Proof.
  intros Hlive Hcur Hrun Hothers Htick Hsend fuel.
  unfold Watch._watch_loop.
  assert (Hup : forallb WatchTrace.plain
                  (snd (fst (Watch.update_stream c (Watch.stream_info net)))) = true).
  { unfold Watch.update_stream.
    destruct (Watch.stream_info net) as [e|res]; [destruct (is_GQLException e); reflexivity|].
    destruct (Watch.stream_data_of res) as [e|sd]; [reflexivity|].
    destruct (Json.truthy sd); [|reflexivity].
    destruct (bind_exn _ _); reflexivity. }
  destruct (Watch.update_stream c (Watch.stream_info net)) as [[c1 ev1] live];
    cbn [fst snd] in *. subst live. rewrite Hothers.
  pose proof (heartbeats_go_on net ref w Hcur Hrun Hothers Htick Hsend fuel 0 c1) as H.
  destruct (Watch.heartbeats fuel net ref 0 c1 w) as [[[c2 w2] ev2] st].
  cbn [fst snd] in *. destruct H as (-> & -> & Hc & Hs).
  rewrite heartbeat_calls_app, interval_sleeps_app, Hc, Hs.
  destruct (plain_counts _ Hup) as [-> ->]. auto.
Qed.

Lemma watch_loop_survives_failed_heartbeats_witness :
  snd (Watch._watch_loop 4 WatchTrace.refusing_live_net 0 Watch.channel_example
         {| Watch.watching_channel := Some 0%nat; Watch._is_running := true |}) =
    Watch.Running /\
  WatchTrace.heartbeat_calls
    (snd (fst (Watch._watch_loop 4 WatchTrace.refusing_live_net 0 Watch.channel_example
                 {| Watch.watching_channel := Some 0%nat; Watch._is_running := true |}))) =
    4%nat.
Proof.
  destruct (watch_loop_survives_failed_heartbeats WatchTrace.refusing_live_net 0
              Watch.channel_example
              {| Watch.watching_channel := Some 0%nat; Watch._is_running := true |})
    with (fuel := 4%nat) as (H1 & _ & H2 & _); try reflexivity.
  - intros i [cid lg dn [s|] [u|]]; vm_compute; discriminate.
  - split; assumption.
Defined.

(** ** Drops and campaigns, further *)

Section DropsMore.
Import Drops.

Lemma drops_fold_lookup (campaign_name : string) (raw : list drop_data) :
  forall (m : gmap string TimedDrop) (k : string),
  fold_left (fun m d => <[d_id d := init_drop campaign_name d]> m) raw m !! k =
    match last (List.filter (fun d => String.eqb (d_id d) k) raw) with
    | Some d => Some (init_drop campaign_name d)
    | None => m !! k
    end.
Proof.
  induction raw as [|d raw IH]; intros m k; [reflexivity|].
  cbn [fold_left List.filter]. rewrite IH.
  destruct (String.eqb_spec (d_id d) k) as [->|Hne].
  - rewrite last_cons.
    destruct (last (List.filter _ raw)); [reflexivity|].
    now rewrite lookup_insert_eq.
  - destruct (last (List.filter _ raw)); [reflexivity|].
    now rewrite lookup_insert_ne.
Qed.

Lemma forallb_false {A : Type} (P : A -> bool) (l : list A) :
  forallb P l = false <-> exists x, In x l /\ P x = false.
Proof.
  induction l as [|a l IH]; cbn.
  - split; [discriminate|intros (x & [] & _)].
  - destruct (P a) eqn:Ha; cbn.
    + rewrite IH. split.
      * intros (x & Hx & Hpx). eauto.
      * intros (x & [->|Hx] & Hpx); [congruence|eauto].
    + split; [eauto|reflexivity].
Qed.
End DropsMore.

(** X13: the drops of a campaign are kept under their ids, and of several
    drops with one id the last one of the answer is the one kept: looking up
    an id gives the drop built from the last entry with that id, and nothing
    when there is none. *)
Theorem drops_dict_lookup (campaign_name : string) (raw : list Drops.drop_data)
    (k : string) :
  Drops.drops_dict campaign_name raw !! k =
    Drops.init_drop campaign_name <$>
      last (List.filter (fun d => String.eqb (Drops.d_id d) k) raw).
Proof.
  unfold Drops.drops_dict. rewrite drops_fold_lookup.
  destruct (last _); [reflexivity|]. now rewrite lookup_empty.
Qed.

(** X14: a campaign can be earned from exactly when the time is inside
    [starts_at, ends_at) and the campaign has no drops at all or has a drop
    that is not claimed. *)
Theorem campaign_can_earn_iff (now : Z) (c : Drops.DropsCampaign) :
  Drops.campaign_can_earn now c = true <->
  (Drops.starts_at c <= now < Drops.ends_at c)%Z /\
  (Drops.timed_drops c = ∅ \/
   exists k d, Drops.timed_drops c !! k = Some d /\ Drops.is_claimed d = false).
Proof.
  unfold Drops.campaign_can_earn, Drops.active, Drops.finished.
  rewrite andb_true_iff, andb_true_iff, Z.leb_le, Z.ltb_lt, negb_true_iff.
  apply and_iff_compat_l.
  destruct (bool_decide_reflect (Drops.timed_drops c = ∅)) as [He|Hne].
  - split; [now left|reflexivity].
  - rewrite forallb_false. split.
    + intros (d & Hd & Hcl). right. unfold Drops.drops_of in Hd.
      apply list_elem_of_In, list_elem_of_fmap in Hd as [[k d'] [-> Hkd]].
      apply elem_of_map_to_list in Hkd. eauto.
    + intros [He|(k & d & Hk & Hcl)]; [contradiction|].
      exists d. split; [|exact Hcl]. unfold Drops.drops_of.
      apply list_elem_of_In, list_elem_of_fmap. exists (k, d). split; [reflexivity|].
      now apply elem_of_map_to_list.
Qed.

Lemma campaign_can_earn_iff_witness :
  Drops.campaign_can_earn 100 Drops.campaign_empty = true /\
  Drops.campaign_can_earn 7200 Drops.campaign_empty = false.
Proof.
  split.
  - apply (proj2 (campaign_can_earn_iff 100 Drops.campaign_empty)).
    split; [cbn; lia|left; reflexivity].
  - destruct (Drops.campaign_can_earn 7200 Drops.campaign_empty) eqn:H; [|reflexivity].
    apply (proj1 (campaign_can_earn_iff 7200 Drops.campaign_empty)) in H.
    destruct H as [[_ H] _]. cbn in H. lia.
Defined.

(** ** Cookies *)

Section CookieFacts.
Import Text Session.
Local Open Scope string_scope.
Local Arguments String.append !_ _ / : simpl nomatch.

Lemma startswith_char (c x : ascii) (s : string) :
  startswith (String c EmptyString) (String x s) = Ascii.eqb c x.
Proof.
  unfold startswith. cbn [String.prefix].
  destruct (Ascii.ascii_dec c x) as [->|Hne].
  - rewrite Ascii.eqb_refl. now destruct s.
  - symmetry. now apply Ascii.eqb_neq.
Qed.

Lemma contains_char (c : ascii) (s : string) :
  contains (String c EmptyString) s = occurs c s.
Proof.
  induction s as [|x s IH]; [reflexivity|].
  cbn [contains occurs]. rewrite startswith_char, IH.
  now destruct (Ascii.eqb c x).
Qed.

Lemma occurs_app (c : ascii) (a b : string) :
  occurs c (a ++ b) = occurs c a || occurs c b.
Proof.
  induction a as [|x a IH]; cbn [String.append occurs]; [reflexivity|].
  rewrite IH. now rewrite orb_assoc.
Qed.

Lemma occurs_lstrip (c : ascii) (s : string) :
  occurs c s = false -> occurs c (lstrip s) = false.
Proof.
  induction s as [|x s IH]; cbn [lstrip occurs]; [auto|].
  intros H. apply orb_false_iff in H as [Hx Hs].
  destruct (is_space x); [auto|]. cbn [occurs]. now rewrite Hx, Hs.
Qed.

Lemma occurs_rstrip (c : ascii) (s : string) :
  occurs c s = false -> occurs c (rstrip s) = false.
Proof.
  induction s as [|x s IH]; cbn [rstrip occurs]; [auto|].
  intros H. apply orb_false_iff in H as [Hx Hs]. specialize (IH Hs).
  destruct (rstrip s) as [|y r].
  - destruct (is_space x); cbn [occurs]; [reflexivity|now rewrite Hx].
  - cbn [occurs] in *. now rewrite Hx, IH.
Qed.

Lemma occurs_strip (c : ascii) (s : string) :
  occurs c s = false -> occurs c (strip s) = false.
Proof. intros H. unfold strip. now apply occurs_rstrip, occurs_lstrip. Qed.

Lemma occurs_before_first (c : ascii) (sep s : string) :
  occurs c s = false -> occurs c (before_first sep s) = false.
Proof.
  induction s as [|x s IH]; cbn [before_first occurs].
  - now destruct (startswith sep EmptyString).
  - intros H. apply orb_false_iff in H as [Hx Hs].
    destruct (startswith sep (String x s)); [reflexivity|].
    cbn [occurs]. now rewrite Hx, IH.
Qed.

Lemma occurs_drop (c : ascii) (n : nat) (s : string) :
  occurs c s = false -> occurs c (drop n s) = false.
Proof.
  revert s. induction n as [|n IH]; intros s H; [exact H|].
  destruct s as [|x s]; [reflexivity|]. cbn [drop]. apply IH.
  cbn [occurs] in H. now apply orb_false_iff in H as [_ Hs].
Qed.

Lemma occurs_after_first (c : ascii) (sep s : string) :
  occurs c s = false -> occurs c (after_first sep s) = false.
Proof.
  induction s as [|x s IH]; cbn [after_first]; intros H.
  - destruct (startswith sep EmptyString); [now apply occurs_drop|reflexivity].
  - destruct (startswith sep (String x s)); [now apply occurs_drop|].
    apply IH. cbn [occurs] in H. now apply orb_false_iff in H as [_ Hs].
Qed.

(** The first piece of an equals sign split has no equals sign. *)
Lemma before_first_char_free (c : ascii) (s : string) :
  occurs c (before_first (String c EmptyString) s) = false.
Proof.
  induction s as [|x s IH]; [reflexivity|].
  cbn [before_first]. rewrite startswith_char.
  destruct (Ascii.eqb c x) eqn:Hx; [reflexivity|].
  cbn [occurs]. now rewrite Hx, IH.
Qed.

(** Splitting at a character: the pieces do not hold it. *)
Lemma split_go_pieces (c : ascii) (s : string) :
  forall cur, occurs c cur = false ->
  Forall (fun piece => occurs c piece = false) (split_go (String c EmptyString) 0 cur s).
Proof.
  induction s as [|x s IH]; intros cur Hcur; cbn [split_go].
  - now constructor.
  - rewrite startswith_char. cbn [String.length Nat.sub].
    destruct (Ascii.eqb c x) eqn:Hx.
    + constructor; [exact Hcur|]. now apply IH.
    + apply IH. rewrite occurs_app. cbn [occurs]. now rewrite Hcur, Hx.
Qed.

(** Splitting a text that starts with a piece free of the character. *)
Lemma split_go_piece (c : ascii) (item rest : string) :
  occurs c item = false ->
  forall cur,
  split_go (String c EmptyString) 0 cur (item ++ String c rest) =
    (cur ++ item) :: split_go (String c EmptyString) 0 EmptyString rest.
Proof.
  induction item as [|x item IH]; intros Hitem cur.
  - cbn [String.append split_go]. rewrite startswith_char, Ascii.eqb_refl.
    cbn [String.length Nat.sub]. now rewrite append_empty_r.
  - cbn [occurs] in Hitem. apply orb_false_iff in Hitem as [Hx Hitem].
    cbn [String.append split_go]. rewrite startswith_char, Hx.
    rewrite (IH Hitem). now rewrite append_assoc.
Qed.

Lemma split_go_last (c : ascii) (item : string) :
  occurs c item = false ->
  forall cur, split_go (String c EmptyString) 0 cur item = [cur ++ item].
Proof.
  induction item as [|x item IH]; intros Hitem cur.
  - cbn [split_go]. now rewrite append_empty_r.
  - cbn [occurs] in Hitem. apply orb_false_iff in Hitem as [Hx Hitem].
    cbn [split_go]. rewrite startswith_char, Hx.
    rewrite (IH Hitem). now rewrite append_assoc.
Qed.

(** Reading back one item. *)
Lemma item_key (k v : string) :
  occurs "=" k = false ->
  contains "=" (k ++ String "=" v) = true /\
  before_first "=" (k ++ String "=" v) = k /\
  after_first "=" (k ++ String "=" v) = v.
Proof.
  induction k as [|x k IH]; intros Hk.
  - cbn [String.append contains before_first after_first].
    rewrite startswith_char, Ascii.eqb_refl. cbn [String.length drop]. repeat split.
  - cbn [occurs] in Hk. apply orb_false_iff in Hk as [Hx Hk].
    destruct (IH Hk) as (H1 & H2 & H3).
    cbn [String.append contains before_first after_first].
    rewrite startswith_char, Hx. now rewrite H1, H2, H3.
Qed.

Lemma add_cookie_item (m : gmap string string) (p : string) (kv : string * string) :
  p = EmptyString \/ p = " " ->
  writable kv ->
  add_cookie m (p ++ cookie_item kv) = <[fst kv := snd kv]> m.
Proof.
  intros Hp (_ & _ & Hk & Hstrip). unfold add_cookie.
  assert (Hs : strip (p ++ cookie_item kv) = cookie_item kv).
  { destruct Hp as [-> | ->]; [exact Hstrip|].
    unfold strip in *. cbn [String.append lstrip]. exact Hstrip. }
  rewrite Hs. unfold cookie_item. rewrite contains_char in Hk.
  change (fst kv ++ "=" ++ snd kv) with (fst kv ++ String "=" (snd kv)).
  destruct (item_key (fst kv) (snd kv) Hk) as (-> & -> & ->). reflexivity.
Qed.

Lemma writable_item_free (kv : string * string) :
  writable kv -> occurs ";" (cookie_item kv) = false.
Proof.
  intros (Hk & Hv & _ & _). rewrite contains_char in Hk, Hv.
  unfold cookie_item. rewrite !occurs_app, Hk, Hv. reflexivity.
Qed.

(** Reading back a list of items written one after the other. *)
Lemma fold_cookies_joined (rest : list (string * string)) :
  forall (kv : string * string) (p : string) (m : gmap string string),
  p = EmptyString \/ p = " " ->
  Forall writable (kv :: rest) ->
  fold_left add_cookie
    (split ";" (p ++ String.concat "; " (List.map cookie_item (kv :: rest)))) m =
  fold_left (fun m kv => <[fst kv := snd kv]> m) (kv :: rest) m.
Proof.
  induction rest as [|kv2 rest IH]; intros kv p m Hp Hall.
  - cbn [List.map String.concat fold_left].
    assert (Hfree : occurs ";" (p ++ cookie_item kv) = false).
    { rewrite occurs_app, writable_item_free by (now inversion Hall).
      destruct Hp as [-> | ->]; reflexivity. }
    unfold split. rewrite (split_go_last _ _ Hfree). cbn [String.append fold_left].
    apply add_cookie_item; [assumption|now inversion Hall].
  - inversion Hall as [|? ? Hkv Hrest]; subst.
    change (String.concat "; " (List.map cookie_item (kv :: kv2 :: rest)))
      with (cookie_item kv ++ "; " ++ String.concat "; " (List.map cookie_item (kv2 :: rest))).
    assert (Hfree : occurs ";" (p ++ cookie_item kv) = false).
    { rewrite occurs_app, writable_item_free by assumption.
      destruct Hp as [-> | ->]; reflexivity. }
    replace (p ++ cookie_item kv ++ "; " ++
               String.concat "; " (List.map cookie_item (kv2 :: rest)))
      with ((p ++ cookie_item kv) ++
              String ";" (" " ++ String.concat "; " (List.map cookie_item (kv2 :: rest))))
      by (rewrite append_assoc; reflexivity).
    unfold split. rewrite (split_go_piece _ _ _ Hfree). cbn [String.append fold_left].
    rewrite add_cookie_item by assumption.
    exact (IH kv2 " " _ (or_intror eq_refl) Hrest).
Qed.

(** An item with an equals sign is its name, the sign and its value. *)
Lemma item_rebuilt (s : string) :
  contains "=" s = true ->
  before_first "=" s ++ String "=" (after_first "=" s) = s.
Proof.
  induction s as [|x s IH]; [discriminate|].
  cbn [contains before_first after_first]. rewrite startswith_char.
  destruct (Ascii.eqb_spec "="%char x) as [<-|Hne].
  - intros _. reflexivity.
  - intros H. cbn [String.append]. now rewrite (IH H).
Qed.

(** Every cookie of the result was in the dict before or comes from an
    item. *)
Lemma fold_add_cookie_origin (items : list string) :
  forall (m : gmap string string) (k v : string),
  fold_left add_cookie items m !! k = Some v ->
  m !! k = Some v \/
  exists item, In item items /\ contains "=" (strip item) = true /\
               k = before_first "=" (strip item) /\
               v = after_first "=" (strip item).
Proof.
  induction items as [|item items IH]; intros m k v H; [now left|].
  cbn [fold_left] in H. apply IH in H as [H|(item' & Hin & Hrest)].
  - unfold add_cookie in H.
    destruct (contains "=" (strip item)) eqn:Hc; [|now left].
    apply lookup_insert_Some in H as [[<- <-]|[_ H]]; [|now left].
    right. exists item. split; [now left|auto].
  - right. exists item'. split; [now right|exact Hrest].
Qed.
End CookieFacts.

(** X15: a cookie string written from a list of names and values is read
    back as the dict of that list ([dict(pairs)]: a later pair replaces an
    earlier one with the same name), provided each name and value can be
    written: no semicolon in them, no equals sign in the name, no white
    space around the item.  A value may hold equals signs. *)
Theorem parse_cookies_round_trip (kvs : list (string * string)) :
  Forall Session.writable kvs ->
  Session.parse_cookies (String.concat "; " (List.map Session.cookie_item kvs)) =
    fold_left (fun m kv => <[fst kv := snd kv]> m) kvs ∅.
Proof.
  intros Hall. unfold Session.parse_cookies.
  destruct kvs as [|kv rest]; [reflexivity|].
  exact (fold_cookies_joined rest kv EmptyString ∅ (or_introl eq_refl) Hall).
Qed.

Lemma parse_cookies_round_trip_witness :
  Session.parse_cookies "auth-token=abc; sid=y=z; auth-token=new" =
    <["auth-token" := "new"%string]>
      (<["sid" := "y=z"%string]> (<["auth-token" := "abc"%string]> ∅)).
Proof.
  apply (parse_cookies_round_trip
           [("auth-token", "abc"); ("sid", "y=z"); ("auth-token", "new")]%string).
  repeat constructor.
Defined.

(** X16: every cookie that [get_session] reads from the cookie string comes
    from one of its items: the item, stripped, is the name, an equals sign
    and the value.  So a name holds neither a semicolon nor an equals sign,
    a value holds no semicolon, and an item without an equals sign gives no
    cookie. *)
Theorem parse_cookies_sound (cookies_raw k v : string) :
  Session.parse_cookies cookies_raw !! k = Some v ->
  (exists item,
     In item (Text.split ";" cookies_raw) /\
     Text.strip item = (k ++ "=" ++ v)%string) /\
  Text.contains ";" k = false /\
  Text.contains "=" k = false /\
  Text.contains ";" v = false.
Proof.
  intros H. unfold Session.parse_cookies in H.
  apply fold_add_cookie_origin in H as [H|(item & Hin & Hc & -> & ->)];
    [rewrite lookup_empty in H; discriminate H|].
  assert (Hfree : Session.occurs ";" (Text.strip item) = false).
  { apply occurs_strip.
    pose proof (split_go_pieces ";" cookies_raw EmptyString eq_refl) as Hall.
    rewrite Forall_forall in Hall. apply Hall. apply list_elem_of_In. exact Hin. }
  split; [|split; [|split]].
  - exists item. split; [exact Hin|]. symmetry. exact (item_rebuilt _ Hc).
  - rewrite contains_char. now apply occurs_before_first.
  - rewrite contains_char. apply before_first_char_free.
  - rewrite contains_char. now apply occurs_after_first.
Qed.

Lemma parse_cookies_sound_witness :
  (exists item,
     In item (Text.split ";" "auth-token=abc; junk ;sid=y=z") /\
     Text.strip item = ("sid" ++ "=" ++ "y=z")%string) /\
  Text.contains ";" "sid" = false /\
  Text.contains "=" "sid" = false /\
  Text.contains ";" "y=z" = false.
Proof.
  exact (parse_cookies_sound "auth-token=abc; junk ;sid=y=z" "sid" "y=z" eq_refl).
Defined.


(** ** Starting and stopping the watch task *)

Section TaskFacts.
Import Tasks.

Lemma cancel_not_live (t : task) : t_state (cancel t) <> Live.
Proof. unfold cancel. destruct (t_state t) eqn:H; cbn; congruence. Qed.

(** After the current task is cancelled, no task is live. *)
Lemma cancel_current_none_live (w : worker) :
  live_is_current w ->
  forall i t, cancel_current w !! i = Some t -> t_state t <> Live.
Proof.
  intros Hinv i t Hi Hlive. unfold cancel_current in Hi.
  destruct (_watching_task w) as [i0|] eqn:Hcur.
  - destruct (Nat.eq_dec i0 i) as [->|Hne].
    + rewrite list_lookup_alter_eq in Hi.
      destruct (tasks w !! i) as [t0|]; [|discriminate Hi].
      injection Hi as <-. exact (cancel_not_live t0 Hlive).
    + rewrite list_lookup_alter_ne in Hi by exact Hne.
      assert (H : _watching_task w = Some i) by (apply Hinv; exists t; auto).
      congruence.
  - assert (H : _watching_task w = Some i) by (apply Hinv; exists t; auto).
    congruence.
Qed.

Lemma step_live_is_current (ids : nat -> Z) (w : worker) (o : op) :
  live_is_current w -> live_is_current (step ids w o).
Proof.
  intros Hinv. destruct o as [channel| | |i]; cbn [step].
  - unfold watch.
    destruct (match watching_channel w with
              | Some r => Z.eqb (ids r) (ids channel) | None => false end); [exact Hinv|].
    intros j (t & Hj & Hlive). cbn [tasks _watching_task stop_watching] in *.
    apply lookup_app_Some in Hj as [Hj|[Hlen Hj]].
    + exfalso. exact (cancel_current_none_live w Hinv j t Hj Hlive).
    + apply list_lookup_singleton_Some in Hj as [Hj _]. f_equal. lia.
  - intros j (t & Hj & Hlive). cbn [tasks stop_watching] in Hj.
    exfalso. exact (cancel_current_none_live w Hinv j t Hj Hlive).
  - intros j (t & Hj & Hlive). cbn [tasks stop] in Hj.
    exfalso. exact (cancel_current_none_live w Hinv j t Hj Hlive).
  - unfold loop_exit. destruct (tasks w !! i) as [ti|] eqn:Hi; [|exact Hinv].
    destruct (t_state ti) eqn:Hst; try exact Hinv;
      intros j (t & Hj & Hlive); cbn [tasks _watching_task] in *;
      apply list_lookup_insert_Some in Hj as [(-> & <- & _)|[Hne Hj]];
      try discriminate Hlive; apply Hinv; exists t; auto.
Qed.

Lemma run_live_is_current (ids : nat -> Z) (ops : list op) :
  live_is_current (run ids ops).
Proof.
  unfold run.
  assert (H : forall w, live_is_current w -> live_is_current (fold_left (step ids) ops w)).
  { induction ops as [|o ops IH]; intros w Hw; [exact Hw|].
    cbn [fold_left]. apply IH. now apply step_live_is_current. }
  apply H. intros i (t & Hi & _). cbn in Hi. rewrite lookup_nil in Hi. discriminate Hi.
Qed.
End TaskFacts.

(** X17: a worker never has two watch loops that run without having been
    cancelled: after any sequence of [watch], [stop_watching], [stop] and
    loop exits, two live tasks are the same task, and a live task is the one
    the worker holds as its current task. *)
Theorem at_most_one_live_task (ids : nat -> Z) (ops : list Tasks.op) (i j : nat) :
  Tasks.is_live (Tasks.run ids ops) i ->
  Tasks.is_live (Tasks.run ids ops) j ->
  i = j /\ Tasks._watching_task (Tasks.run ids ops) = Some i.
Proof.
  intros Hi Hj.
  pose proof (run_live_is_current ids ops i Hi) as Hci.
  pose proof (run_live_is_current ids ops j Hj) as Hcj.
  split; [congruence|exact Hci].
Qed.

Lemma at_most_one_live_task_witness :
  2%nat = 2%nat /\
  Tasks._watching_task
    (Tasks.run (fun r => Z.of_nat r)
       [Tasks.Watch 5; Tasks.Watch 6; Tasks.LoopExit 0; Tasks.Watch 5]) = Some 2%nat.
Proof.
  apply at_most_one_live_task; eexists; split; reflexivity.
Defined.



(** X19: the loop sends no heartbeat for a channel that is no longer the
    current one, or for a worker that was stopped, by the time the first
    stream check has answered: it ends at once, even if the channel is
    live. *)
Theorem watch_loop_respects_switch (fuel : nat) (net : Watch.watch_net) (ref : nat)
    (c : Watch.Channel) (w : Watch.control) :
  Watch.is_current ref (Watch.others net 0 w) = false \/
  Watch._is_running (Watch.others net 0 w) = false ->
  Watch.sends (snd (fst (Watch._watch_loop (S fuel) net ref c w))) = 0%nat /\
  snd (Watch._watch_loop (S fuel) net ref c w) = Watch.Finished /\
  snd (fst (fst (Watch._watch_loop (S fuel) net ref c w))) =
    Watch.finally ref (Watch.others net 0 w).
Proof.
  intros Hoff. unfold Watch._watch_loop.
  assert (Hev : snd (fst (Watch.update_stream c (Watch.stream_info net))) =
                [Watch.stream_info_call c]).
  { unfold Watch.update_stream.
    destruct (Watch.stream_info net) as [e|res]; [destruct (is_GQLException e); reflexivity|].
    destruct (Watch.stream_data_of res) as [e|sd]; [reflexivity|].
    destruct (Json.truthy sd); [|reflexivity].
    destruct (bind_exn _ _); reflexivity. }
  destruct (Watch.update_stream c (Watch.stream_info net)) as [[c1 ev1] [e|[|]]];
    cbn [fst snd] in *; subst ev1.
  - destruct e; repeat split.
  - cbn [Watch.heartbeats].
    assert (Hcond : Watch._is_running (Watch.others net 0 w) &&
                    Watch.is_current ref (Watch.others net 0 w) = false).
    { destruct Hoff as [-> | ->]; [apply andb_false_r|reflexivity]. }
    rewrite Hcond. repeat split.
  - repeat split.
Qed.

Lemma watch_loop_respects_switch_witness :
  Watch.sends
    (snd (fst (Watch._watch_loop 3 WatchTrace.refusing_live_net 0 Watch.channel_example
                 {| Watch.watching_channel := Some 1%nat;
                    Watch._is_running := true |}))) = 0%nat.
Proof.
  apply (watch_loop_respects_switch 2 WatchTrace.refusing_live_net 0
           Watch.channel_example
           {| Watch.watching_channel := Some 1%nat; Watch._is_running := true |}).
  left. reflexivity.
Defined.

(** ** fetch_inventory *)

Section InventoryFacts.
Import Drops Inventory.

Lemma existsb_eqb_elem (x : string) (seen : list string) :
  existsb (String.eqb x) seen = true <-> x ∈ seen.
Proof.
  rewrite existsb_exists. split.
  - intros (y & Hy & Heq). apply String.eqb_eq in Heq as ->. now apply list_elem_of_In.
  - intros H. exists x. split; [now apply list_elem_of_In|apply String.eqb_refl].
Qed.

Lemma dedup_elem (ids : list string) :
  forall (seen : list string) (k : string),
  k ∈ dedup seen ids <-> k ∈ ids /\ k ∉ seen.
Proof.
  induction ids as [|x rest IH]; intros seen k; cbn [dedup].
  - split; [intros H; inversion H|intros [H _]; inversion H].
  - destruct (existsb (String.eqb x) seen) eqn:Hx.
    + apply existsb_eqb_elem in Hx. rewrite IH, elem_of_cons.
      split; [tauto|]. intros [[->|H] Hs]; [contradiction|tauto].
    + assert (Hn : x ∉ seen).
      { intros H. apply existsb_eqb_elem in H. congruence. }
      rewrite elem_of_cons, IH, !elem_of_cons. 
      destruct (decide (k = x)) as [->|Hne]; [tauto|]. tauto.
Qed.

Lemma dedup_NoDup (ids : list string) : forall seen, NoDup (dedup seen ids).
Proof.
  induction ids as [|x rest IH]; intros seen; cbn [dedup]; [constructor|].
  destruct (existsb (String.eqb x) seen); [apply IH|].
  constructor; [|apply IH].
  rewrite dedup_elem, elem_of_cons. tauto.
Qed.

Lemma track_keys_in_order (c : dashboard_campaign) : keys_in_order (track c).
Proof.
  split; cbn; [apply dedup_NoDup|].
  intros k. rewrite dedup_elem. unfold drops_dict. rewrite drops_fold_lookup.
  rewrite lookup_empty. split.
  - intros [Hk _]. apply list_elem_of_fmap in Hk as (d & -> & Hd).
    destruct (last (List.filter (fun d0 => String.eqb (d_id d0) (d_id d)) (timeBasedDrops (data c)))) eqn:Hl; [eauto|].
    apply last_None in Hl.
    assert (Hin : d ∈ List.filter (fun d0 => String.eqb (d_id d0) (d_id d)) (timeBasedDrops (data c))).
    { apply list_elem_of_In, filter_In. split; [now apply list_elem_of_In|apply String.eqb_refl]. }
    rewrite Hl in Hin. inversion Hin.
  - intros Hs. split; [|intros H; inversion H].
    destruct (last _) as [d|] eqn:Hl; [|destruct Hs; discriminate].
    apply last_Some in Hl as [l' Hl].
    assert (Hin : In d (List.filter (fun d0 => String.eqb (d_id d0) k) (timeBasedDrops (data c)))).
    { rewrite Hl. apply in_or_app. right. now left. }
    apply filter_In in Hin as [Hin Heq]. apply String.eqb_eq in Heq as <-.
    apply list_elem_of_fmap. exists d. split; [reflexivity|now apply list_elem_of_In].
Qed.

Lemma claim_keeps_key (a : pyexn + Json.json) (d : TimedDrop) (m : gmap string TimedDrop)
    (k k' : string) :
  m !! k = Some d ->
  (is_Some (<[k := fst (fst (claim a d))]> m !! k') <-> is_Some (m !! k')).
Proof.
  intros Hk. destruct (decide (k = k')) as [<-|Hne].
  - rewrite lookup_insert_eq, Hk. split; eauto.
  - now rewrite lookup_insert_ne.
Qed.

(** Claiming keeps the keys of the dict. *)
Lemma claim_drops_keys (answers : nat -> pyexn + Json.json) (order : list string) :
  forall (n : nat) (m : gmap string TimedDrop) (k : string),
  is_Some (fst (fst (fst (claim_drops answers n order m))) !! k) <-> is_Some (m !! k).
Proof.
  induction order as [|k0 rest IH]; intros n m k; cbn [claim_drops]; [reflexivity|].
  destruct (m !! k0) as [d|] eqn:Hk0; [|apply IH].
  destruct (can_claim d); [|apply IH].
  pose proof (claim_keeps_key (answers n) d m k0 k Hk0) as Hkeep.
  destruct (claim (answers n) d) as [[d' ev] [|x]]; cbn [fst] in *.
  - specialize (IH (S n) (<[k0 := d']> m) k).
    destruct (claim_drops answers (S n) rest _) as [[[m' ev'] n'] e'].
    cbn [fst] in *. now rewrite IH.
  - exact Hkeep.
Qed.

Lemma claim_answered (a : pyexn + Json.json) (d : TimedDrop) :
  answered_or_refused a = true ->
  can_claim d = true ->
  snd (claim a d) = Returns /\ claim_calls (snd (fst (claim a d))) = 1.
Proof.
  intros Ha Hd. unfold claim. rewrite Hd. cbn [negb].
  destruct a as [e|j]; [|split; reflexivity].
  cbn in Ha. rewrite Ha. split; reflexivity.
Qed.

Lemma filter_can_claim_insert (m : gmap string TimedDrop) (k : string) (d : TimedDrop)
    (l : list string) :
  k ∉ l ->
  List.filter (can_claim_key (<[k := d]> m)) l = List.filter (can_claim_key m) l.
Proof.
  intros Hk. apply filter_ext_in. intros x Hx. unfold can_claim_key.
  rewrite lookup_insert_ne; [reflexivity|].
  intros ->. apply Hk. now apply list_elem_of_In.
Qed.

Lemma claim_calls_app (a b : list event) :
  claim_calls (a ++ b) = claim_calls a + claim_calls b.
Proof. unfold claim_calls. now rewrite List.filter_app, List.length_app. Qed.

(** With every request answered or refused, the loop over the drops of a
    campaign makes one request for each drop that can be claimed. *)
Lemma claim_drops_count (answers : nat -> pyexn + Json.json) :
  (forall n, answered_or_refused (answers n) = true) ->
  forall (order : list string) (n : nat) (m : gmap string TimedDrop),
  NoDup order ->
  snd (claim_drops answers n order m) = Returns /\
  claim_calls (snd (fst (fst (claim_drops answers n order m)))) =
    length (List.filter (can_claim_key m) order).
Proof.
  intros Hfine. induction order as [|k0 rest IH]; intros n m Hnd; cbn [claim_drops].
  - split; reflexivity.
  - apply NoDup_cons in Hnd as [Hk0 Hnd]. cbn [List.filter].
    unfold can_claim_key at 1.
    destruct (m !! k0) as [d|] eqn:Hm; [|exact (IH n m Hnd)].
    destruct (can_claim d) eqn:Hd; [|exact (IH n m Hnd)].
    destruct (claim_answered (answers n) d (Hfine n) Hd) as [He Hc].
    destruct (claim (answers n) d) as [[d' ev] e]. cbn [fst snd] in *. subst e.
    destruct (IH (S n) (<[k0 := d']> m) Hnd) as [IHe IHc].
    destruct (claim_drops answers (S n) rest _) as [[[m' ev'] n'] e'].
    cbn [fst snd] in *. split; [exact IHe|].
    rewrite claim_calls_app, Hc, IHc, filter_can_claim_insert by exact Hk0.
    reflexivity.
Qed.

Lemma claim_done (j : Json.json) (d : TimedDrop) :
  can_claim d = true ->
  snd (claim (inr j) d) = Returns /\ can_claim (fst (fst (claim (inr j) d))) = false.
Proof.
  intros Hd. unfold claim. rewrite Hd. cbn. split; [reflexivity|].
  unfold can_claim. cbn. now destruct (claim_id d).
Qed.

(** With every request answered, the loop leaves no drop of its keys that
    can be claimed, and leaves the other drops as they are. *)
Lemma claim_drops_done (answers : nat -> pyexn + Json.json) :
  (forall n, exists j, answers n = inr j) ->
  forall (order : list string) (n : nat) (m : gmap string TimedDrop) (k : string)
    (d : TimedDrop),
  fst (fst (fst (claim_drops answers n order m))) !! k = Some d ->
  (k ∈ order -> can_claim d = false) /\ (k ∉ order -> m !! k = Some d).
Proof.
  intros Hall. induction order as [|k0 rest IH]; intros n m k d; cbn [claim_drops].
  - cbn. intros H. split; [intros Hin; inversion Hin|auto].
  - assert (Hskip : fst (fst (fst (claim_drops answers n rest m))) !! k = Some d ->
                    can_claim_key m k0 = false ->
                    (k ∈ k0 :: rest -> can_claim d = false) /\
                    (k ∉ k0 :: rest -> m !! k = Some d)).
    { intros H Hk0. destruct (IH n m k d H) as [IH1 IH2].
      rewrite elem_of_cons. split; [|intros Hn; apply IH2; tauto].
      destruct (decide (k ∈ rest)) as [Hin|Hout]; [auto|].
      intros [->|Hin]; [|contradiction].
      unfold can_claim_key in Hk0. now rewrite (IH2 Hout) in Hk0. }
    destruct (m !! k0) as [d0|] eqn:Hm.
    2: { intros H. apply Hskip; [exact H|]. unfold can_claim_key. now rewrite Hm. }
    destruct (can_claim d0) eqn:Hd0.
    2: { intros H. apply Hskip; [exact H|]. unfold can_claim_key. now rewrite Hm. }
    clear Hskip. destruct (Hall n) as [j ->].
    destruct (claim_done j d0 Hd0) as [He Hc].
    destruct (claim (inr j) d0) as [[d' ev] e]. cbn [fst snd] in *. subst e.
    specialize (IH (S n) (<[k0 := d']> m) k d).
    destruct (claim_drops answers (S n) rest _) as [[[m' ev'] n'] e'].
    cbn [fst snd] in *. intros H. destruct (IH H) as [IH1 IH2].
    rewrite elem_of_cons. split.
    + destruct (decide (k ∈ rest)) as [Hin|Hout]; [auto|].
      intros [->|Hin]; [|contradiction].
      specialize (IH2 Hout). rewrite lookup_insert_eq in IH2. congruence.
    + intros Hn. assert (Hout : k ∉ rest) by tauto. specialize (IH2 Hout).
      rewrite lookup_insert_ne in IH2; [exact IH2|]. intros ->. tauto.
Qed.

Lemma filter_length_Permutation {A : Type} (f : A -> bool) (l l' : list A) :
  l ≡ₚ l' -> length (List.filter f l) = length (List.filter f l').
Proof.
  induction 1 as [|x l l' _ IH|x y l|l l' l'' _ IH1 _ IH2]; cbn [List.filter].
  - reflexivity.
  - destruct (f x); cbn; congruence.
  - destruct (f x), (f y); reflexivity.
  - congruence.
Qed.

Lemma filter_keys_values (m : gmap string TimedDrop) (l : list (string * TimedDrop)) :
  (forall k d, (k, d) ∈ l -> m !! k = Some d) ->
  length (List.filter (can_claim_key m) l.*1) = length (List.filter can_claim l.*2).
Proof.
  induction l as [|[k d] l IH]; intros Hl; [reflexivity|].
  cbn [fmap list_fmap fst snd List.filter]. unfold can_claim_key at 1.
  rewrite (Hl k d) by apply list_elem_of_here.
  assert (IH' := IH (fun k' d' H => Hl k' d' (list_elem_of_further _ _ _ H))).
  change (list_fmap _ _ fst l) with (l.*1). change (list_fmap _ _ snd l) with (l.*2).
  destruct (can_claim d); cbn [length]; now rewrite IH'.
Qed.

(** The drops that can be claimed, counted along the order of iteration. *)
Lemma claimable_by_keys (c : tracked) :
  keys_in_order c ->
  length (claimable (tracked_campaign c)) =
    length (List.filter (can_claim_key (timed_drops (tracked_campaign c))) (drop_order c)).
Proof.
  intros [Hnd Hkeys]. unfold claimable, drops_of.
  set (m := timed_drops (tracked_campaign c)) in *.
  rewrite <- (filter_keys_values m (map_to_list m)).
  2: { intros k d H. now apply elem_of_map_to_list. }
  apply filter_length_Permutation, NoDup_Permutation.
  - apply NoDup_fst_map_to_list.
  - exact Hnd.
  - intros k. rewrite Hkeys. split.
    + intros H. apply list_elem_of_fmap in H as ([k' d] & -> & H).
      apply elem_of_map_to_list in H. eauto.
    + intros [d H]. apply list_elem_of_fmap. exists (k, d).
      split; [reflexivity|now apply elem_of_map_to_list].
Qed.

(** What the claim loop keeps of each campaign, however it ends. *)
Lemma claim_all_shape (answers : nat -> pyexn + Json.json) (cs : list tracked) :
  forall n : nat,
  Forall2 (fun c' c =>
             cid (tracked_campaign c') = cid (tracked_campaign c) /\
             forall k, is_Some (timed_drops (tracked_campaign c') !! k) <->
                       is_Some (timed_drops (tracked_campaign c) !! k))
          (fst (fst (fst (claim_all answers n cs)))) cs.
Proof.
  induction cs as [|c rest IH]; intros n; cbn [claim_all]; [constructor|].
  pose proof (claim_drops_keys answers (drop_order c) n (timed_drops (tracked_campaign c)))
    as Hkeys.
  destruct (claim_drops answers n (drop_order c) _) as [[[m ev] n1] [|x]]; cbn [fst] in *.
  - specialize (IH n1). destruct (claim_all answers n1 rest) as [[[rest' ev'] n2] e'].
    cbn [fst] in *. constructor; [|exact IH]. split; [reflexivity|exact Hkeys].
  - constructor; [split; [reflexivity|exact Hkeys]|].
    clear. induction rest; constructor; [split; reflexivity|assumption].
Qed.

(** With every request answered or refused, the claim loop goes through
    all the campaigns and makes one request for each drop that can be
    claimed. *)
Lemma claim_all_count (answers : nat -> pyexn + Json.json) :
  (forall n, answered_or_refused (answers n) = true) ->
  forall (cs : list tracked) (n : nat),
  Forall keys_in_order cs ->
  snd (claim_all answers n cs) = Returns /\
  claim_calls (snd (fst (fst (claim_all answers n cs)))) =
    claimable_count (List.map tracked_campaign cs).
Proof.
  intros Hfine. induction cs as [|c rest IH]; intros n Hwf; cbn [claim_all].
  - split; reflexivity.
  - apply Forall_cons in Hwf as [Hc Hrest].
    destruct (claim_drops_count answers Hfine (drop_order c) n
                (timed_drops (tracked_campaign c)) (proj1 Hc)) as [He Hn].
    destruct (claim_drops answers n (drop_order c) _) as [[[m ev] n1] e]; cbn [fst snd] in *.
    subst e. destruct (IH n1 Hrest) as [IHe IHn].
    destruct (claim_all answers n1 rest) as [[[rest' ev'] n2] e']; cbn [fst snd] in *.
    split; [exact IHe|].
    unfold claimable_count in *. cbn [List.map list_sum].
    now rewrite claim_calls_app, Hn, IHn, claimable_by_keys.
Qed.

(** With every request answered, the claim loop leaves no drop that can be
    claimed. *)
Lemma claim_all_done (answers : nat -> pyexn + Json.json) :
  (forall n, exists j, answers n = inr j) ->
  forall (cs : list tracked) (n : nat),
  Forall keys_in_order cs ->
  Forall (fun c => forall k d, timed_drops (tracked_campaign c) !! k = Some d ->
                               can_claim d = false)
         (fst (fst (fst (claim_all answers n cs)))).
Proof.
  intros Hall. assert (Hfine : forall n, answered_or_refused (answers n) = true).
  { intros n. now destruct (Hall n) as [j ->]. }
  induction cs as [|c rest IH]; intros n Hwf; cbn [claim_all]; [constructor|].
  apply Forall_cons in Hwf as [Hc Hrest].
  destruct (claim_drops_count answers Hfine (drop_order c) n
              (timed_drops (tracked_campaign c)) (proj1 Hc)) as [He _].
  pose proof (claim_drops_done answers Hall (drop_order c) n
                (timed_drops (tracked_campaign c))) as Hdone.
  destruct (claim_drops answers n (drop_order c) _) as [[[m ev] n1] e]; cbn [fst snd] in *.
  subst e. specialize (IH n1 Hrest).
  destruct (claim_all answers n1 rest) as [[[rest' ev'] n2] e']; cbn [fst snd] in *.
  constructor; [|exact IH]. cbn. intros k d Hk.
  destruct (Hdone k d Hk) as [Hin Hout].
  destruct (decide (k ∈ drop_order c)) as [H|H]; [auto|].
  exfalso. apply H, (proj2 Hc). rewrite (Hout H). eauto.
Qed.

Lemma build_keys_in_order (ds : list dashboard_campaign) (ps : list progress_campaign) :
  Forall keys_in_order (build ds ps).
Proof.
  unfold build. apply Forall_forall. intros c Hc.
  apply list_elem_of_In, in_map_iff in Hc as (dc & <- & _). apply track_keys_in_order.
Qed.

Lemma Forall2_chain {A B C : Type} (R : A -> B -> Prop) (R' : B -> C -> Prop)
    (R'' : A -> C -> Prop) :
  (forall x y z, R x y -> R' y z -> R'' x z) ->
  forall (l : list A) (k : list B), Forall2 R l k ->
  forall lk : list C, Forall2 R' k lk -> Forall2 R'' l lk.
Proof.
  intros Hstep l k H. induction H as [|x y l k Hxy _ IH]; intros lk H'.
  - inversion H'. constructor.
  - inversion H' as [|? z ? lk' Hyz Hrest]; subst. constructor; eauto.
Qed.

Lemma merge_drop_id (pds : list progress_drop) (d : drop_data) :
  d_id (merge_drop pds d) = d_id d.
Proof. unfold merge_drop. now destruct (dict_get _ _ _). Qed.

(** Merging the progress into a campaign of the dashboard keeps its
    status, its id and the ids of its drops. *)
Lemma merge_campaign_keeps (ps : list progress_campaign) (c : dashboard_campaign) :
  status (merge_campaign ps c) = status c /\
  c_id (data (merge_campaign ps c)) = c_id (data c) /\
  List.map d_id (timeBasedDrops (data (merge_campaign ps c))) =
    List.map d_id (timeBasedDrops (data c)).
Proof.
  unfold merge_campaign. destruct (negb _); [|auto].
  destruct (dict_get _ _ _) as [p|]; [|auto]. cbn.
  split; [reflexivity|]. split; [reflexivity|].
  rewrite List.map_map. apply List.map_ext. intros d. apply merge_drop_id.
Qed.

Lemma filter_active_merge (ps : list progress_campaign) (ds : list dashboard_campaign) :
  List.filter is_active_status (List.map (merge_campaign ps) ds) =
    List.map (merge_campaign ps) (List.filter is_active_status ds).
Proof.
  induction ds as [|c ds IH]; [reflexivity|]. cbn [List.map List.filter].
  assert (Hsame : is_active_status (merge_campaign ps c) = is_active_status c).
  { unfold is_active_status. now rewrite (proj1 (merge_campaign_keeps ps c)). }
  rewrite Hsame. destruct (is_active_status c); cbn [List.map]; now rewrite IH.
Qed.

(** The campaigns built are those of the dashboard with status ACTIVE, in
    their order, each with the ids of its drops. *)
Lemma build_tracks_active (ds : list dashboard_campaign) (ps : list progress_campaign) :
  Forall2 (fun c dc =>
             cid (tracked_campaign c) = c_id (data dc) /\
             forall k, is_Some (timed_drops (tracked_campaign c) !! k) <->
                       k ∈ List.map d_id (timeBasedDrops (data dc)))
          (build ds ps) (List.filter is_active_status ds).
Proof.
  unfold build. rewrite filter_active_merge.
  induction (List.filter is_active_status ds) as [|dc l IH]; cbn [List.map]; constructor;
    [|exact IH].
  destruct (merge_campaign_keeps ps dc) as (_ & Hid & Hdrops).
  split; [exact Hid|]. intros k.
  destruct (track_keys_in_order (merge_campaign ps dc)) as [_ Hkeys].
  rewrite <- Hkeys. cbn [track drop_order]. rewrite dedup_elem, Hdrops.
  split; [tauto|]. intros H. split; [exact H|]. intros H'. inversion H'.
Qed.
End InventoryFacts.

(** X20: no exception of the [MinerException] family leaves
    [fetch_inventory]: whatever the requests do and wherever they fail, an
    exception that leaves the call is of another kind. *)
Theorem fetch_inventory_never_raises_miner (net : Inventory.inventory_net)
    (old inv : list Drops.DropsCampaign) (ev : list event) (x : pyexn) :
  Inventory.fetch_inventory net old = (inv, ev, Drops.Raises x) ->
  Inventory.is_MinerException x = false.
Proof.
  unfold Inventory.fetch_inventory, Inventory.on_error.
  destruct (Inventory.dashboard net) as [e|ds].
  { destruct (Inventory.is_MinerException e) eqn:He; intros H; inversion H; congruence. }
  destruct (Inventory.in_progress net) as [e|ps].
  { destruct (Inventory.is_MinerException e) eqn:He; intros H; inversion H; congruence. }
  destruct (Inventory.claim_all _ _ _) as [[[cs tr] n] [|e]]; [discriminate|].
  destruct (Inventory.is_MinerException e) eqn:He; intros H; inversion H; congruence.
Qed.

Lemma fetch_inventory_never_raises_miner_witness :
  snd (Inventory.fetch_inventory (Inventory.net_example (inl OverflowError)) []) =
    Drops.Raises OverflowError /\
  Inventory.is_MinerException OverflowError = false.
Proof.
  split; [reflexivity|].
  apply (fetch_inventory_never_raises_miner
           (Inventory.net_example (inl OverflowError)) []
           (fst (fst (Inventory.fetch_inventory (Inventory.net_example (inl OverflowError)) [])))
           (snd (fst (Inventory.fetch_inventory (Inventory.net_example (inl OverflowError)) [])))
           OverflowError).
  reflexivity.
Defined.

(** X21: when both queries are answered and every claim request is
    answered, [fetch_inventory] returns and leaves no drop in the inventory
    that can still be claimed. *)
Theorem fetch_inventory_claims_everything (net : Inventory.inventory_net)
    (old : list Drops.DropsCampaign) (ds : list Inventory.dashboard_campaign)
    (ps : list Inventory.progress_campaign) :
  Inventory.dashboard net = inr ds ->
  Inventory.in_progress net = inr ps ->
  (forall n, exists j, Inventory.claim_answers net n = inr j) ->
  snd (Inventory.fetch_inventory net old) = Drops.Returns /\
  Forall (fun c => Forall (fun d => Drops.can_claim d = false) (Drops.drops_of c))
         (fst (fst (Inventory.fetch_inventory net old))).
Proof.
  intros Hd Hp Hall. unfold Inventory.fetch_inventory. rewrite Hd, Hp.
  assert (Hfine : forall n, Inventory.answered_or_refused (Inventory.claim_answers net n) = true).
  { intros n. now destruct (Hall n) as [j ->]. }
  destruct (claim_all_count _ Hfine (Inventory.build ds ps) 0 (build_keys_in_order ds ps))
    as [He _].
  pose proof (claim_all_done _ Hall (Inventory.build ds ps) 0 (build_keys_in_order ds ps))
    as Hdone.
  destruct (Inventory.claim_all _ 0 _) as [[[cs tr] n] e]; cbn [fst snd] in *. subst e.
  cbn [fst snd]. split; [reflexivity|].
  apply Forall_fmap. eapply Forall_impl; [exact Hdone|].
  intros c Hc. cbn. apply Forall_forall. intros d Hin.
  unfold Drops.drops_of in Hin. apply list_elem_of_fmap in Hin as ([k d'] & -> & Hin).
  apply elem_of_map_to_list in Hin. exact (Hc k d' Hin).
Qed.

Lemma fetch_inventory_claims_everything_witness :
  snd (Inventory.fetch_inventory (Inventory.net_example (inr Json.JNull)) []) = Drops.Returns /\
  Forall (fun c => Forall (fun d => Drops.can_claim d = false) (Drops.drops_of c))
         (fst (fst (Inventory.fetch_inventory (Inventory.net_example (inr Json.JNull)) []))).
Proof.
  apply (fetch_inventory_claims_everything (Inventory.net_example (inr Json.JNull)) []
           Inventory.dashboard_example Inventory.progress_example eq_refl eq_refl).
  intros n. exists Json.JNull. reflexivity.
Defined.

(** X22: a refused claim does not end the batch.  When both queries are
    answered and every claim request is answered or refused with a
    [GQLException], [fetch_inventory] returns, and it has made exactly one
    [ClaimDrop] request for each drop of the campaigns built that could be
    claimed. *)
Theorem fetch_inventory_claims_each_once (net : Inventory.inventory_net)
    (old : list Drops.DropsCampaign) (ds : list Inventory.dashboard_campaign)
    (ps : list Inventory.progress_campaign) :
  Inventory.dashboard net = inr ds ->
  Inventory.in_progress net = inr ps ->
  (forall n, Inventory.answered_or_refused (Inventory.claim_answers net n) = true) ->
  snd (Inventory.fetch_inventory net old) = Drops.Returns /\
  Inventory.claim_calls (snd (fst (Inventory.fetch_inventory net old))) =
    Inventory.claimable_count
      (List.map Inventory.tracked_campaign (Inventory.build ds ps)).
Proof.
  intros Hd Hp Hfine. unfold Inventory.fetch_inventory. rewrite Hd, Hp.
  destruct (claim_all_count _ Hfine (Inventory.build ds ps) 0 (build_keys_in_order ds ps))
    as [He Hn].
  destruct (Inventory.claim_all _ 0 _) as [[[cs tr] n] e]; cbn [fst snd] in *. subst e.
  cbn [fst snd]. split; [reflexivity|exact Hn].
Qed.

Lemma fetch_inventory_claims_each_once_witness :
  snd (Inventory.fetch_inventory
         (Inventory.net_example (inl (GQLException "refused"%string))) []) = Drops.Returns /\
  Inventory.claim_calls
    (snd (fst (Inventory.fetch_inventory
                 (Inventory.net_example (inl (GQLException "refused"%string))) []))) = 1.
Proof.
  apply (fetch_inventory_claims_each_once
           (Inventory.net_example (inl (GQLException "refused"%string))) []
           Inventory.dashboard_example Inventory.progress_example eq_refl eq_refl).
  intros n. reflexivity.
Defined.

(** X23: the inventory holds the campaigns of the dashboard whose status
    is ACTIVE, in their order, whatever the inventory query reports: when
    both queries are answered and every claim request is answered or
    refused, the campaigns kept have the ids of those campaigns, and each
    has a drop under exactly the ids of the drops of its campaign. *)
Theorem fetch_inventory_tracks_active (net : Inventory.inventory_net)
    (old : list Drops.DropsCampaign) (ds : list Inventory.dashboard_campaign)
    (ps : list Inventory.progress_campaign) :
  Inventory.dashboard net = inr ds ->
  Inventory.in_progress net = inr ps ->
  (forall n, Inventory.answered_or_refused (Inventory.claim_answers net n) = true) ->
  Forall2 (fun c dc =>
             Drops.cid c = Drops.c_id (Inventory.data dc) /\
             forall k, is_Some (Drops.timed_drops c !! k) <->
                       k ∈ List.map Drops.d_id (Drops.timeBasedDrops (Inventory.data dc)))
          (fst (fst (Inventory.fetch_inventory net old)))
          (List.filter Inventory.is_active_status ds).
Proof.
  intros Hd Hp Hfine. unfold Inventory.fetch_inventory. rewrite Hd, Hp.
  destruct (claim_all_count _ Hfine (Inventory.build ds ps) 0 (build_keys_in_order ds ps))
    as [He _].
  pose proof (claim_all_shape (Inventory.claim_answers net) (Inventory.build ds ps) 0)
    as Hshape.
  destruct (Inventory.claim_all _ 0 _) as [[[cs tr] n] e]; cbn [fst snd] in *. subst e.
  cbn [fst snd]. apply Forall2_fmap_l.
  eapply Forall2_chain; [|exact Hshape|exact (build_tracks_active ds ps)].
  cbn. intros c' c dc [Hid Hkeys] [Hid' Hkeys']. split; [congruence|].
  intros k. now rewrite Hkeys, Hkeys'.
Qed.

Lemma fetch_inventory_tracks_active_witness :
  List.map Drops.cid
    (fst (fst (Inventory.fetch_inventory (Inventory.net_example (inr Json.JNull)) []))) =
    ["c-1"%string].
Proof.
  pose proof (fetch_inventory_tracks_active (Inventory.net_example (inr Json.JNull)) []
                Inventory.dashboard_example Inventory.progress_example eq_refl eq_refl
                (fun n => eq_refl)) as H.
  destruct (fst (fst (Inventory.fetch_inventory (Inventory.net_example (inr Json.JNull)) [])))
    as [|c [|c' l]]; inversion H as [|? ? ? ? [Hid _] Hrest]; subst.
  - cbn. now rewrite Hid.
  - inversion Hrest.
Defined.

Section ClaimFailures.
Import Drops Inventory.

(** An exception that ends the loop over the drops is what a claim
    request raised, and it is not a [GQLException]. *)
Lemma claim_drops_raises (answers : nat -> pyexn + Json.json) (x : pyexn)
    (order : list string) :
  forall (n : nat) (m : gmap string TimedDrop),
  snd (claim_drops answers n order m) = Raises x ->
  exists k, answers k = inl x /\ is_GQLException x = false.
Proof.
  induction order as [|k0 rest IH]; intros n m; cbn [claim_drops]; [discriminate|].
  destruct (m !! k0) as [d|]; [|apply IH].
  destruct (can_claim d) eqn:Hd; [|apply IH].
  unfold claim. rewrite Hd. cbn [negb].
  destruct (answers n) as [e|j] eqn:Hn.
  - destruct (is_GQLException e) eqn:He.
    + specialize (IH (S n) (<[k0 := d]> m)).
      destruct (claim_drops answers (S n) rest _) as [[[m' ev'] n'] e']. exact IH.
    + cbn [snd]. intros [= <-]. eauto.
  - match goal with
    | |- context [claim_drops answers (S n) rest ?m1] =>
        specialize (IH (S n) m1); destruct (claim_drops answers (S n) rest m1)
          as [[[m' ev'] n'] e']
    end.
    exact IH.
Qed.

Lemma claim_all_raises (answers : nat -> pyexn + Json.json) (x : pyexn)
    (cs : list tracked) :
  forall n : nat,
  snd (claim_all answers n cs) = Raises x ->
  exists k, answers k = inl x /\ is_GQLException x = false.
Proof.
  induction cs as [|c rest IH]; intros n; cbn [claim_all]; [discriminate|].
  pose proof (claim_drops_raises answers x (drop_order c) n
                (timed_drops (tracked_campaign c))) as Hdrops.
  destruct (claim_drops answers n (drop_order c) _) as [[[m ev] n1] [|y]]; cbn [snd] in *.
  - specialize (IH n1). destruct (claim_all answers n1 rest) as [[[rest' ev'] n2] e'].
    exact IH.
  - exact Hdrops.
Qed.

(** Of the [MinerException] family, [gql_request] raises a [GQLException]
    only, unless [self.request] raises another. *)
Lemma gql_request_family (entered : pyexn + GqlRequest.body) (x : pyexn) :
  GqlRequest.gql_request entered = inl x ->
  is_MinerException x = true ->
  is_GQLException x = true \/ entered = inl x.
Proof.
  unfold GqlRequest.gql_request. destruct entered as [e|[j|text]].
  - intros [= ->]. auto.
  - destruct (match j with Json.JObj _ => Json.get j "errors" Json.JNull
                         | _ => inr Json.JNull end) as [e|errors] eqn:Herr.
    + destruct j; discriminate Herr.
    + cbn [bind_exn]. destruct (Json.truthy errors); [|discriminate].
      destruct (GqlRequest.first_of errors) as [e|first] eqn:Hfirst.
      * cbn [bind_exn]. intros [= <-].
        destruct errors as [| | |s|items|fields]; cbn in Hfirst;
          try (injection Hfirst as <-; discriminate).
        -- destruct s; [injection Hfirst as <-; discriminate|discriminate Hfirst].
        -- destruct items; [injection Hfirst as <-; discriminate|discriminate Hfirst].
      * cbn [bind_exn].
        destruct (Json.get first "message" (Json.JStr "unknown GQL error")) as [e|msg] eqn:Hm.
        -- cbn [bind_exn]. intros [= <-]. destruct first; cbn in Hm; try discriminate Hm;
             injection Hm as <-; discriminate.
        -- cbn [bind_exn]. destruct msg; intros [= <-]; try discriminate. auto.
  - intros [= <-]. auto.
Qed.

(** The retry loop of [request] raises nothing but the [OverflowError] of
    the iterator. *)
Lemma request_raises_overflow (net : nat -> Request.attempt_outcome) (fuel : nat) :
  forall (n : nat) (e : Z) (x : pyexn), (0 <= e)%Z ->
  snd (Request.retry_loop Backoff.next net fuel n
         {| Backoff._base := 1; Backoff._exp := e; Backoff._max := 60 |}) =
    Request.Raised x ->
  x = OverflowError.
Proof.
  induction fuel as [|fuel IH]; intros n e x He; [discriminate|].
  cbn [Request.retry_loop]. rewrite next_new_fields by exact He.
  destruct (1024 <=? e + 1)%Z; [cbn; congruence|].
  specialize (IH (S n) (e + 1)%Z x ltac:(lia)).
  destruct (net n) as [status| |].
  - destruct (500 <=? status)%Z; [|discriminate].
    destruct (Request.retry_loop _ _ _ _ _). exact IH.
  - destruct (Request.retry_loop _ _ _ _ _). exact IH.
  - destruct (Request.retry_loop _ _ _ _ _). exact IH.
Qed.
End ClaimFailures.

(** X24: a claim request that fails does not cost the inventory.  The
    claim requests are calls of [gql_request]; when [self.request] raises no
    [MinerException] in them (its retry loop raises [OverflowError] only)
    and both queries are answered, the inventory after [fetch_inventory]
    holds the campaigns of the dashboard with status ACTIVE, in their
    order and with their drops, however the claim requests end; and an
    exception that leaves the call is what a claim request raised, and is
    outside the [MinerException] family. *)
Theorem fetch_inventory_failed_claim_keeps_inventory (net : Inventory.inventory_net)
    (old : list Drops.DropsCampaign) (ds : list Inventory.dashboard_campaign)
    (ps : list Inventory.progress_campaign)
    (entered : nat -> pyexn + GqlRequest.body) :
  Inventory.dashboard net = inr ds ->
  Inventory.in_progress net = inr ps ->
  (forall n, Inventory.claim_answers net n = GqlRequest.gql_request (entered n)) ->
  (forall n x, entered n = inl x -> Inventory.is_MinerException x = false) ->
  Forall2 (fun c dc =>
             Drops.cid c = Drops.c_id (Inventory.data dc) /\
             forall k, is_Some (Drops.timed_drops c !! k) <->
                       k ∈ List.map Drops.d_id (Drops.timeBasedDrops (Inventory.data dc)))
          (fst (fst (Inventory.fetch_inventory net old)))
          (List.filter Inventory.is_active_status ds) /\
  (forall x, snd (Inventory.fetch_inventory net old) = Drops.Raises x ->
     Inventory.is_MinerException x = false /\
     exists n, Inventory.claim_answers net n = inl x).
Proof.
  intros Hd Hp Hgql Hreq.
  assert (Hfamily : forall n x, Inventory.claim_answers net n = inl x ->
                                is_GQLException x = false ->
                                Inventory.is_MinerException x = false).
  { intros n x Hn Hx. destruct (Inventory.is_MinerException x) eqn:Hm; [|reflexivity].
    rewrite Hgql in Hn. destruct (gql_request_family _ _ Hn Hm) as [H|H]; [congruence|].
    rewrite (Hreq n x H) in Hm. discriminate Hm. }
  unfold Inventory.fetch_inventory. rewrite Hd, Hp.
  pose proof (claim_all_shape (Inventory.claim_answers net) (Inventory.build ds ps) 0)
    as Hshape.
  pose proof (claim_all_raises (Inventory.claim_answers net)) as Hraises.
  specialize (fun x => Hraises x (Inventory.build ds ps) 0).
  destruct (Inventory.claim_all _ 0 _) as [[[cs tr] n] e]; cbn [fst snd] in *.
  assert (Hkept : Forall2
            (fun c dc =>
               Drops.cid c = Drops.c_id (Inventory.data dc) /\
               forall k, is_Some (Drops.timed_drops c !! k) <->
                         k ∈ List.map Drops.d_id (Drops.timeBasedDrops (Inventory.data dc)))
            (List.map Inventory.tracked_campaign cs)
            (List.filter Inventory.is_active_status ds)).
  { apply Forall2_fmap_l.
    eapply Forall2_chain; [|exact Hshape|exact (build_tracks_active ds ps)].
    cbn. intros c' c dc [Hid Hkeys] [Hid' Hkeys']. split; [congruence|].
    intros k. now rewrite Hkeys, Hkeys'. }
  destruct e as [|y].
  - cbn [fst snd]. split; [exact Hkept|discriminate].
  - destruct (Hraises y eq_refl) as (k & Hk & Hy).
    unfold Inventory.on_error. rewrite (Hfamily k y Hk Hy). cbn [fst snd].
    split; [exact Hkept|]. intros x [= <-]. split; [exact (Hfamily k y Hk Hy)|eauto].
Qed.

Lemma fetch_inventory_failed_claim_keeps_inventory_witness :
  let malformed :=
    inr (GqlRequest.BodyJson
           (Json.JObj [("errors"%string,
                        Json.JArr [Json.JObj [("message"%string, Json.JNull)]])])) in
  let net := Inventory.net_example (GqlRequest.gql_request malformed) in
  snd (Inventory.fetch_inventory net []) = Drops.Raises AttributeError /\
  List.map Drops.cid (fst (fst (Inventory.fetch_inventory net []))) = ["c-1"%string].
Proof.
  cbn zeta. split; [reflexivity|].
  destruct (fetch_inventory_failed_claim_keeps_inventory
              (Inventory.net_example
                 (GqlRequest.gql_request
                    (inr (GqlRequest.BodyJson
                            (Json.JObj [("errors"%string,
                                         Json.JArr [Json.JObj [("message"%string,
                                                                Json.JNull)]])])))))
              [] Inventory.dashboard_example Inventory.progress_example
              (fun _ => inr (GqlRequest.BodyJson
                               (Json.JObj [("errors"%string,
                                            Json.JArr [Json.JObj [("message"%string,
                                                                   Json.JNull)]])])))
              eq_refl eq_refl (fun n => eq_refl)) as [Hkept _].
  { intros n x H. discriminate H. }
  destruct (fst (fst (Inventory.fetch_inventory _ []))) as [|c [|c' l]];
    inversion Hkept as [|? ? ? ? [Hid _] Hrest]; subst.
  - cbn. now rewrite Hid.
  - inversion Hrest.
Defined.

(** ** fetch_channels *)

Section ChannelFacts.
Import Json Watch Channels.
Variable py_int : json -> pyexn + Z.
Variable slice_of_dict : pyexn.

Lemma characters_length (s : string) : length (characters s) = String.length s.
Proof. induction s as [|c s IH]; cbn; congruence. Qed.

Lemma streams_of_length (res : json) (streams : list json) :
  streams_of slice_of_dict res = inr streams -> length streams <= 10.
Proof.
  unfold streams_of.
  destruct (get res "data" empty_dict) as [e|data]; [discriminate|]. cbn [bind_exn].
  destruct (get data "game" empty_dict) as [e|game]; [discriminate|]. cbn [bind_exn].
  destruct (get game "streams" empty_dict) as [e|st]; [discriminate|]. cbn [bind_exn].
  destruct (get st "edges" (JArr [])) as [e|edges]; [discriminate|]. cbn [bind_exn].
  destruct edges; cbn [first_ten]; try discriminate;
    intros [= <-]; rewrite length_firstn; lia.
Qed.

Lemma add_streams_size (streams : list json) :
  forall channels : gmap Z directory_channel,
  size (fst (add_streams py_int streams channels)) <= size channels + length streams.
Proof.
  induction streams as [|stream rest IH]; intros channels; cbn [add_streams length].
  - cbn. lia.
  - destruct (channel_of py_int stream) as [e|[channel|]]; cbn [fst].
    + lia.
    + specialize (IH (<[dc_id channel := channel]> channels)).
      rewrite map_size_insert in IH. destruct (channels !! dc_id channel); cbn in IH; lia.
    + specialize (IH channels). lia.
Qed.

Lemma try_body_size (answer : pyexn + json) (channels : gmap Z directory_channel) :
  size (fst (try_body py_int slice_of_dict answer channels)) <= size channels + 10.
Proof.
  unfold try_body. destruct answer as [e|res]; cbn [bind_exn fst]; [lia|].
  destruct (streams_of slice_of_dict res) as [e|streams] eqn:Hs; cbn [fst]; [lia|].
  pose proof (streams_of_length res streams Hs).
  pose proof (add_streams_size streams channels). lia.
Qed.

Lemma directory_calls_cons (g : Game) (tr : list event) :
  directory_calls (directory_call g :: tr) = S (directory_calls tr).
Proof. reflexivity. Qed.

(** Each request adds ten channels at most, and there is one request at
    most for each priority game that a campaign is for. *)
Lemma search_bound (answers : nat -> pyexn + json) (games : list Game)
    (priority_games : list string) :
  forall (n : nat) (channels : gmap Z directory_channel),
  let r := search py_int slice_of_dict answers n games priority_games channels in
  size (fst (fst r)) <= size channels + 10 * directory_calls (snd (fst r)) /\
  directory_calls (snd (fst r)) <= length (known_games games priority_games).
Proof.
  induction priority_games as [|name rest IH]; intros n channels; cbn zeta.
  - cbn. lia.
  - cbn [search known_games List.filter].
    destruct (find_game games name) as [g|]; [|apply IH].
    pose proof (try_body_size (answers n) channels) as Hsize.
    destruct (try_body py_int slice_of_dict (answers n) channels) as [channels1 raised].
    cbn [fst] in Hsize.
    specialize (IH (S n) channels1). cbn zeta in IH.
    destruct (search py_int slice_of_dict answers (S n) games rest channels1)
      as [[channels2 ev] e].
    cbn [fst snd] in IH. fold (known_games games rest).
    destruct raised as [x|]; [destruct (is_GQLException x)|]; cbn [fst snd length];
      rewrite ?directory_calls_cons; change (directory_calls []) with 0; lia.
Qed.

(** When nothing but a [GQLException] is raised on the way, the search
    goes through all the games. *)
Lemma search_returns (answers : nat -> pyexn + json) (games : list Game) :
  (forall n, refused_or_read py_int slice_of_dict (answers n)) ->
  forall (priority_games : list string) (n : nat) (channels : gmap Z directory_channel),
  let r := search py_int slice_of_dict answers n games priority_games channels in
  snd r = Drops.Returns /\
  directory_calls (snd (fst r)) = length (known_games games priority_games).
Proof.
  intros Hfine. induction priority_games as [|name rest IH]; intros n channels; cbn zeta.
  - split; reflexivity.
  - cbn [search known_games List.filter].
    destruct (find_game games name) as [g|]; [|apply IH].
    pose proof (Hfine n channels) as Hn.
    destruct (try_body py_int slice_of_dict (answers n) channels) as [channels1 raised].
    cbn [snd] in Hn. specialize (IH (S n) channels1). cbn zeta in IH.
    destruct (search py_int slice_of_dict answers (S n) games rest channels1)
      as [[channels2 ev] e].
    cbn [fst snd] in IH. fold (known_games games rest). destruct IH as [-> IHn].
    destruct raised as [x|]; [rewrite Hn|]; cbn [fst snd length];
      rewrite directory_calls_cons, IHn; split; reflexivity.
Qed.

Lemma find_game_known (games : list Game) (name : string) (g : Game) :
  find_game games name = Some g -> g ∈ games /\ game_name g = name.
Proof.
  unfold find_game. intros H. apply find_some in H as [Hin Heq].
  split; [now apply list_elem_of_In|now apply String.eqb_eq].
Qed.

(** Every request of the search is for a game of a campaign, named in the
    list of priorities. *)
Lemma search_asks_known (answers : nat -> pyexn + json) (games : list Game)
    (priority_games : list string) :
  forall (n : nat) (channels : gmap Z directory_channel),
  Forall (fun ev => exists g, ev = directory_call g /\ g ∈ games /\
                              game_name g ∈ priority_games)
         (snd (fst (search py_int slice_of_dict answers n games priority_games channels))).
Proof.
  induction priority_games as [|name rest IH]; intros n channels; cbn [search].
  - constructor.
  - assert (Hweak : forall tr,
              Forall (fun ev => exists g, ev = directory_call g /\ g ∈ games /\
                                          game_name g ∈ rest) tr ->
              Forall (fun ev => exists g, ev = directory_call g /\ g ∈ games /\
                                          game_name g ∈ name :: rest) tr).
    { intros tr Htr. eapply Forall_impl; [exact Htr|]. intros ev (g & -> & Hg & Hn).
      exists g. rewrite elem_of_cons. auto. }
    destruct (find_game games name) as [g|] eqn:Hfind; [|apply Hweak, IH].
    apply find_game_known in Hfind as [Hg Hname].
    assert (Hcall : exists g', directory_call g = directory_call g' /\ g' ∈ games /\
                               game_name g' ∈ name :: rest).
    { exists g. rewrite elem_of_cons. auto. }
    destruct (try_body py_int slice_of_dict (answers n) channels) as [channels1 raised].
    specialize (IH (S n) channels1).
    destruct (search py_int slice_of_dict answers (S n) games rest channels1)
      as [[channels2 ev] e].
    cbn [fst snd] in IH. apply Hweak in IH.
    destruct raised as [x|]; [destruct (is_GQLException x)|]; cbn [fst snd];
      repeat constructor; assumption.
Qed.

(** An answer whose [game] is [null]: reading it raises [AttributeError]. *)
Lemma streams_of_null_game (fields data : list (string * json)) :
  assoc "data" fields = Some (JObj data) ->
  assoc "game" data = Some JNull ->
  streams_of slice_of_dict (JObj fields) = inl AttributeError.
Proof.
  intros Hd Hg. unfold streams_of. cbn [get]. rewrite Hd. cbn [bind_exn get].
  rewrite Hg. reflexivity.
Qed.
End ChannelFacts.

(** X25: [fetch_channels] keeps ten channels at most for each request it
    makes, and makes one request at most for each priority game that a
    campaign of the inventory is for, however the requests are answered
    and however the call ends. *)
Theorem fetch_channels_bounded (py_int : Json.json -> pyexn + Z) (slice_of_dict : pyexn)
    (answers : nat -> pyexn + Json.json) (games : list Watch.Game)
    (priority_games : list string) :
  let r := Channels.fetch_channels py_int slice_of_dict answers games priority_games in
  size (fst (fst r)) <= 10 * Channels.directory_calls (snd (fst r)) /\
  Channels.directory_calls (snd (fst r)) <=
    length (Channels.known_games games priority_games) /\
  length (Channels.known_games games priority_games) <= length priority_games.
Proof.
  cbn zeta. unfold Channels.fetch_channels.
  destruct (search_bound py_int slice_of_dict answers games priority_games 0 ∅) as [H1 H2].
  rewrite map_size_empty in H1. split; [exact H1|]. split; [exact H2|].
  unfold Channels.known_games. apply List.filter_length_le.
Qed.

(** X26: a refused directory request does not end the search.  When the
    handling of each answer raises nothing but a [GQLException],
    [fetch_channels] returns and has made exactly one request for each
    priority game that a campaign of the inventory is for. *)
Theorem fetch_channels_refusal_isolated (py_int : Json.json -> pyexn + Z)
    (slice_of_dict : pyexn) (answers : nat -> pyexn + Json.json)
    (games : list Watch.Game) (priority_games : list string) :
  (forall n, Channels.refused_or_read py_int slice_of_dict (answers n)) ->
  let r := Channels.fetch_channels py_int slice_of_dict answers games priority_games in
  snd r = Drops.Returns /\
  Channels.directory_calls (snd (fst r)) =
    length (Channels.known_games games priority_games).
Proof.
  intros Hfine. unfold Channels.fetch_channels.
  exact (search_returns py_int slice_of_dict answers games Hfine priority_games 0 ∅).
Qed.

Lemma fetch_channels_refusal_isolated_witness :
  let answers := fun n : nat =>
    match n with
    | 0 => inl (GQLException "service error"%string)
    | _ => inr Channels.directory_example
    end in
  let r := Channels.fetch_channels Channels.int_example TypeError answers
             [Channels.game_example] ["Game"; "Other"; "Game"]%string in
  snd r = Drops.Returns /\ Channels.directory_calls (snd (fst r)) = 2 /\ size (fst (fst r)) = 2.
Proof.
  cbn zeta.
  split; [|split; [|reflexivity]];
    apply (fetch_channels_refusal_isolated Channels.int_example TypeError
             (fun n : nat =>
                match n with
                | 0 => inl (GQLException "service error"%string)
                | _ => inr Channels.directory_example
                end)
             [Channels.game_example] ["Game"; "Other"; "Game"]%string);
    intros [|n] channels; reflexivity.
Defined.

(** X27: every request of [fetch_channels] is the directory request with
    the slug of a game of a campaign of the inventory whose name is in the
    list of priorities; with no such game there is no request and no
    channel. *)
Theorem fetch_channels_asks_known_games (py_int : Json.json -> pyexn + Z)
    (slice_of_dict : pyexn) (answers : nat -> pyexn + Json.json)
    (games : list Watch.Game) (priority_games : list string) :
  let r := Channels.fetch_channels py_int slice_of_dict answers games priority_games in
  Forall (fun ev => exists g, ev = Channels.directory_call g /\ g ∈ games /\
                              Watch.game_name g ∈ priority_games)
         (snd (fst r)) /\
  (Channels.known_games games priority_games = [] ->
   snd (fst r) = [] /\ fst (fst r) = ∅).
Proof.
  cbn zeta. unfold Channels.fetch_channels. split.
  - apply search_asks_known.
  - intros Hnone.
    pose proof (search_asks_known py_int slice_of_dict answers games priority_games 0 ∅)
      as Hknown.
    destruct (search_bound py_int slice_of_dict answers games priority_games 0 ∅)
      as [Hsize Hcalls].
    rewrite Hnone in Hcalls. cbn [length] in Hcalls.
    destruct (Channels.search _ _ _ _ _ _ _) as [[channels ev] e]. cbn [fst snd] in *.
    assert (Hev : ev = []).
    { destruct ev as [|ev0 ev]; [reflexivity|].
      apply Forall_cons in Hknown as [(g & -> & _) _].
      rewrite directory_calls_cons in Hcalls. lia. }
    subst ev. split; [reflexivity|].
    apply map_size_empty_iff. change (Channels.directory_calls []) with 0 in Hsize.
    rewrite map_size_empty in Hsize. lia.
Qed.

(** X28: an answer whose [game] is [null], as for a slug that the
    directory does not know, ends [fetch_channels] with an
    [AttributeError]: the default of [get] is for a key that is missing,
    not for [null], and the [except] clause is for [GQLException] only.
    The games after it are not searched. *)
Theorem fetch_channels_null_game_raises (py_int : Json.json -> pyexn + Z)
    (slice_of_dict : pyexn) (answers : nat -> pyexn + Json.json)
    (games : list Watch.Game) (name : string) (rest : list string)
    (fields data : list (string * Json.json)) :
  is_Some (Channels.find_game games name) ->
  answers 0 = inr (Json.JObj fields) ->
  Json.assoc "data" fields = Some (Json.JObj data) ->
  Json.assoc "game" data = Some Json.JNull ->
  let r := Channels.fetch_channels py_int slice_of_dict answers games (name :: rest) in
  snd r = Drops.Raises AttributeError /\
  Channels.directory_calls (snd (fst r)) = 1 /\
  fst (fst r) = ∅.
Proof.
  intros [g Hfind] Ha Hd Hg. cbn zeta. unfold Channels.fetch_channels.
  cbn [Channels.search]. rewrite Hfind.
  unfold Channels.try_body. rewrite Ha. cbn [bind_exn].
  rewrite (streams_of_null_game slice_of_dict fields data Hd Hg).
  cbn. auto.
Qed.

Lemma fetch_channels_null_game_raises_witness :
  let r := Channels.fetch_channels Channels.int_example TypeError
             (fun _ => inr Channels.no_such_game)
             [Channels.game_example] ["Game"; "Game"]%string in
  snd r = Drops.Raises AttributeError /\
  Channels.directory_calls (snd (fst r)) = 1 /\
  fst (fst r) = ∅.
Proof.
  exact (fetch_channels_null_game_raises Channels.int_example TypeError
           (fun _ => inr Channels.no_such_game) [Channels.game_example]
           "Game"%string ["Game"%string]
           [("data"%string, Json.JObj [("game"%string, Json.JNull)])]
           [("game"%string, Json.JNull)]
           (ex_intro _ Channels.game_example eq_refl) eq_refl eq_refl eq_refl).
Defined.

(** ** _initialize_session *)

Section IdentityFacts.
Import Json Identity.
Variable py_int : json -> pyexn + Z.

(** The [try] body sets the user id before anything else, and changes the
    name only of an account without one. *)
Lemma ask_current_user_cases (net : identity_net) (me : identity) :
  match ask_current_user py_int net me with
  | (me1, None) =>
      (exists n, user_id me1 = Some n) /\
      (truthy (username me) = true -> username me1 = username me)
  | (me1, Some e) => True
  end.
Proof.
  unfold ask_current_user.
  destruct (res <- current_user net ;; data <- item res "data" ;;
            user <- item data "currentUser" ;; i <- item user "id" ;; py_int i)
    as [e|n]; [exact I|].
  destruct (truthy (username me)) eqn:Hname; cbn [negb].
  - split; [eauto|reflexivity].
  - destruct (res <- current_user net ;; data <- item res "data" ;;
              user <- item data "currentUser" ;; item user "login") as [e|l]; [exact I|].
    split; [cbn; eauto|discriminate].
Qed.

Lemma validate_cases (net : identity_net) (me : identity) :
  snd (validate py_int net me) = Drops.Returns ->
  (exists n, user_id (fst (validate py_int net me)) = Some n) /\
  (truthy (username me) = true -> username (fst (validate py_int net me)) = username me).
Proof.
  unfold validate. destruct (validate_status net) as [e|status]; [discriminate|].
  destruct (status =? 401)%Z; [discriminate|].
  destruct (data <- validate_body net ;; i <- item data "user_id" ;;
            n <- py_int i ;; inr (data, n)) as [e|[data n]]; [discriminate|].
  destruct (truthy (username me)) eqn:Hname; cbn [negb].
  - intros _. split; [cbn; eauto|reflexivity].
  - destruct (get data "login" JNull) as [e|l]; [discriminate|].
    intros _. split; [cbn; eauto|discriminate].
Qed.
End IdentityFacts.

(** X29: when [_initialize_session] returns, the worker has a user id, and
    an account with a name keeps it, or else has been given the built-in
    identity, which happens only without an [auth_token]; without an
    [auth_token] no [Exception] leaves the call: a failure of the query of
    the current user or of the reading of its answer, whatever it is, ends
    in the built-in identity. *)
Theorem initialize_session_identified (py_int : Json.json -> pyexn + Z)
    (has_token : bool) (net : Identity.identity_net) (me : Identity.identity) :
  let r := Identity._initialize_session py_int has_token net me in
  (snd r = Drops.Returns ->
     (exists n, Identity.user_id (fst r) = Some n) /\
     (Json.truthy (Identity.username me) = true ->
        Identity.username (fst r) = Identity.username me \/
        (has_token = false /\
         fst r = {| Identity.user_id := Some Identity.default_user_id;
                    Identity.username := Json.JStr Identity.default_username |}))) /\
  (has_token = false ->
     (forall e, snd r = Drops.Raises e -> is_Exception e = false) /\
     (forall e, Identity.current_user net = inl e -> is_Exception e = true ->
        r = ({| Identity.user_id := Some Identity.default_user_id;
                Identity.username := Json.JStr Identity.default_username |},
             Drops.Returns)) /\
     (forall me1 e, Identity.ask_current_user py_int net me = (me1, Some e) ->
        is_Exception e = true ->
        r = ({| Identity.user_id := Some Identity.default_user_id;
                Identity.username := Json.JStr Identity.default_username |},
             Drops.Returns))).
Proof.
  cbn zeta. unfold Identity._initialize_session. destruct has_token.
  - split; [|discriminate]. intros Hret.
    destruct (validate_cases py_int net me Hret) as [Hid Hname].
    split; [exact Hid|]. intros Ht. left. exact (Hname Ht).
  - unfold Identity.without_token.
    pose proof (ask_current_user_cases py_int net me) as Hask.
    split; [|intros _; split; [|split]].
    + destruct (Identity.ask_current_user py_int net me) as [me1 [e|]].
      * destruct (is_Exception e); [|discriminate].
        intros _. split; [cbn; eauto|]. intros _. right. split; reflexivity.
      * intros _. destruct Hask as [Hid Hname]. split; [exact Hid|].
        intros Ht. left. exact (Hname Ht).
    + intros e. destruct (Identity.ask_current_user py_int net me) as [me1 [x|]].
      * destruct (is_Exception x) eqn:Hx; [discriminate|]. cbn. congruence.
      * discriminate.
    + intros e He Hexn. unfold Identity.ask_current_user. rewrite He. cbn [bind_exn].
      now rewrite Hexn.
    + intros me1 e Hfail Hexn. rewrite Hfail. now rewrite Hexn.
Qed.

Lemma initialize_session_identified_witness :
  let net := {| Identity.validate_status := inl (KeyError "auth_token");
                Identity.validate_body := inl (KeyError "auth_token");
                Identity.current_user :=
                  inr (Json.JObj [("data"%string,
                                   Json.JObj [("currentUser"%string, Json.JNull)])]) |} in
  let r := Identity._initialize_session Channels.int_example false net
             (Identity.named "alice") in
  snd r = Drops.Returns /\
  Identity.user_id (fst r) = Some Identity.default_user_id /\
  Identity.username (fst r) = Json.JStr Identity.default_username.
Proof.
  cbn zeta.
  rewrite (proj2 (proj2 (proj2 (initialize_session_identified Channels.int_example false
                           {| Identity.validate_status := inl (KeyError "auth_token");
                              Identity.validate_body := inl (KeyError "auth_token");
                              Identity.current_user :=
                                inr (Json.JObj
                                       [("data"%string,
                                         Json.JObj [("currentUser"%string, Json.JNull)])]) |}
                           (Identity.named "alice")) eq_refl))
             (Identity.named "alice") TypeError eq_refl eq_refl).
  repeat split.
Defined.

(** ** The browser headers *)

Section HeaderFacts.
Import Session Headers.
Local Open Scope string_scope.





End HeaderFacts.

